(** * redd-archiver: ingestion pipeline, verified against its Python source

    A shallow embedding of three components of the archive ingestion
    pipeline and the properties their specification states about them:

    - [PyStr], [PyNum]: the Python built-ins the code relies on
      ([str.strip], [str.upper], [str.lower], [str.find], [int()],
      [float()]), on text whose characters are code points below 256;
    - [VoatSQLParser]: [src/core/importers/voat_sql_parser.py];
    - [Watchful]: [src/core/watchful.py] ([read_and_decode],
      [read_lines_zst]);
    - [BatchProcessor]: [src/processing/batch_processing_utils.py];
    - [Streaming]: [src/core/watchful.py] ([stream_to_database],
      [_flush_batch_to_database], [_should_include_record]).

    The models come first; the properties follow in modules of their own. *)

From Stdlib Require Import ZArith NArith Lia List Bool Ascii String DecimalString.
From Stdlib.Strings Require Byte.
From Stdlib Require Import Floats.
Import ListNotations.


(* ===================================================================== *)
(** * Python exceptions and results                                       *)
(* ===================================================================== *)

Module PyExn.

(** The exception classes the modelled code raises or lets through. *)
Inductive exn : Type :=
| ValueError (msg : String.string)
| AttributeError (attr : String.string)
| UnicodeError
| ZeroDivisionError
| OverflowError
| EOFError.

(** A call either raises or returns. *)
Definition result (A : Type) : Type := (exn + A)%type.

End PyExn.

(* ===================================================================== *)
(** * Python strings                                                      *)
(* ===================================================================== *)

(** Python [str] values are modelled by [string]; a character is a code
    point of the Latin-1 range (0..255), which covers the SQL dialect's
    keywords, delimiters and escapes. *)
Module PyStr.
Local Open Scope string_scope.
Local Open Scope N_scope.

Definition code (c : ascii) : N := N_of_ascii c.

(** [str.isspace] on one character: TAB..CR, FS..US, space, NEL, NBSP. *)
Definition isspace (c : ascii) : bool :=
  let n := code c in
  ((9 <=? n) && (n <=? 13)) || ((28 <=? n) && (n <=? 32))
  || (n =? 133) || (n =? 160).

Section Strip.
Variable sp : ascii -> bool.

(** Drops the leading characters that [sp] accepts. *)
Fixpoint lstrip_with (s : string) : string :=
  match s with
  | String c r => if sp c then lstrip_with r else s
  | EmptyString => EmptyString
  end.

(** Drops the trailing ones: a character is kept when [sp] rejects it or
    when something is kept after it. *)
Fixpoint rstrip_with (s : string) : string :=
  match s with
  | String c r =>
      match rstrip_with r with
      | EmptyString => if sp c then EmptyString else String c EmptyString
      | String c' r' => String c (String c' r')
      end
  | EmptyString => EmptyString
  end.

Definition strip_with (s : string) : string := rstrip_with (lstrip_with s).
End Strip.

(** [s.strip()] *)
Definition strip (s : string) : string := strip_with isspace s.

Definition is_ascii_upper (c : ascii) : bool :=
  let n := code c in (65 <=? n) && (n <=? 90).
Definition is_ascii_lower (c : ascii) : bool :=
  let n := code c in (97 <=? n) && (n <=? 122).

(** [str.lower] on one character: A..Z and the Latin-1 capitals
    (U+00C0..U+00DE without the multiplication sign) move up by 32. *)
Definition lower_char (c : ascii) : ascii :=
  let n := code c in
  if is_ascii_upper c || ((192 <=? n) && (n <=? 222) && negb (n =? 215))
  then ascii_of_N (n + 32) else c.

Fixpoint lower (s : string) : string :=
  match s with
  | String c r => String (lower_char c) (lower r)
  | EmptyString => EmptyString
  end.

(** [str.upper]: a..z and the Latin-1 small letters (U+00E0..U+00FE without
    the division sign) move down by 32; the sharp s becomes "SS".  The micro
    sign and y-diaeresis have capitals above U+00FF; they are left in place,
    which no comparison against an ASCII keyword can tell apart. *)
Fixpoint upper (s : string) : string :=
  match s with
  | String c r =>
      let n := code c in
      if is_ascii_lower c || ((224 <=? n) && (n <=? 254) && negb (n =? 247))
      then String (ascii_of_N (n - 32)) (upper r)
      else if n =? 223 then String "S" (String "S" (upper r))
      else String c (upper r)
  | EmptyString => EmptyString
  end.

(** [s.startswith(p)] *)
Definition startswith (s p : string) : bool := String.prefix p s.

(** [s[n:]] for [0 <= n] *)
Fixpoint drop (n : nat) (s : string) : string :=
  match n, s with
  | O, _ => s
  | S n', String _ r => drop n' r
  | S _, EmptyString => EmptyString
  end.

(** Position of the first occurrence of [p] in [s], scanning [s] from
    offset [i]; [None] stands for Python's [-1]. *)
Fixpoint find_from (p s : string) (i : nat) : option nat :=
  if String.prefix p s then Some i
  else match s with
       | String _ r => find_from p r (S i)
       | EmptyString => None
       end.

(** [s.find(p, start)] for [0 <= start] *)
Definition find (s p : string) (start : nat) : option nat :=
  if (String.length s <? start)%nat then None
  else find_from p (drop start s) start.

(** [not s] for a string: the empty string is falsy. *)
Definition is_empty (s : string) : bool :=
  match s with EmptyString => true | _ => false end.

(** [s + c] for one character *)
Definition snoc (s : string) (c : ascii) : string :=
  s ++ String c EmptyString.

End PyStr.

(* ===================================================================== *)
(** * Python numeric conversions                                          *)
(* ===================================================================== *)

Module PyNum.
Import PyStr.
Local Open Scope string_scope.

(** The result of [float(s)] is kept as the literal it denotes: the
    binary64 value nearest to [±m·10^e], an infinity, or NaN. *)
Inductive float_lit : Type :=
| FInf (neg : bool)
| FNan
| FDec (neg : bool) (m : N) (e : Z).

Definition is_digit (c : ascii) : bool :=
  let n := code c in ((48 <=? n) && (n <=? 57))%N.

Definition digit_val (c : ascii) : N := (code c - 48)%N.

(** Whitespace that [int()] and [float()] skip at both ends: the C locale's
    spaces, and the non-ASCII spaces (mapped to a blank before parsing). *)
Definition num_space (c : ascii) : bool :=
  let n := code c in
  (((9 <=? n) && (n <=? 13)) || (n =? 32) || (n =? 133) || (n =? 160))%N.

Definition num_strip (s : string) : string := strip_with num_space s.

(** Splits an optional sign off: [(negative, rest)]. *)
Definition split_sign (s : string) : bool * string :=
  match s with
  | String c r =>
      if Ascii.eqb c "-" then (true, r)
      else if Ascii.eqb c "+" then (false, r)
      else (false, s)
  | EmptyString => (false, s)
  end.

(** Decimal digits with single underscores between digits (PEP 515).
    [prev] says whether the previous character was a digit; the result is
    the value and the number of digits read. *)
Fixpoint digits_us (s : string) (prev : bool) (acc : N) (cnt : N)
  : option (N * N) :=
  match s with
  | EmptyString => if prev then Some (acc, cnt) else None
  | String c r =>
      if is_digit c then digits_us r true (10 * acc + digit_val c)%N (cnt + 1)%N
      else if Ascii.eqb c "_" then
             if prev then digits_us r false acc cnt else None
      else None
  end.

(** The interpreter's default [sys.int_max_str_digits]. *)
Definition int_max_str_digits : N := 4300.

(** [int(s)]: [None] stands for [ValueError]. *)
Definition py_int (s : string) : option Z :=
  let (neg, body) := split_sign (num_strip s) in
  match digits_us body false 0%N 0%N with
  | Some (n, cnt) =>
      if (int_max_str_digits <? cnt)%N then None
      else Some (if neg then (- Z.of_N n)%Z else Z.of_N n)
  | None => None
  end.

(** [float()] first checks that every underscore stands between two
    digits, and removes them. *)
Fixpoint strip_underscores (s : string) (prev : option ascii) : option string :=
  let prev_is_underscore :=
    match prev with Some p => Ascii.eqb p "_" | None => false end in
  match s with
  | EmptyString => if prev_is_underscore then None else Some EmptyString
  | String c r =>
      if Ascii.eqb c "_" then
        match prev with
        | Some p => if is_digit p then strip_underscores r (Some c) else None
        | None => None
        end
      else if prev_is_underscore && negb (is_digit c) then None
      else option_map (String c) (strip_underscores r (Some c))
  end.

(** A maximal run of digits: value, count and what follows. *)
Fixpoint take_digits (s : string) (acc : N) (cnt : nat) : N * nat * string :=
  match s with
  | String c r =>
      if is_digit c then take_digits r (10 * acc + digit_val c)%N (S cnt)
      else (acc, cnt, s)
  | EmptyString => (acc, cnt, s)
  end.

(** The exponent part: empty, or [e]/[E], an optional sign and digits. *)
Definition parse_exponent (s : string) : option Z :=
  match s with
  | EmptyString => Some 0%Z
  | String c r =>
      if Ascii.eqb c "e" || Ascii.eqb c "E" then
        let (neg, ds) := split_sign r in
        match take_digits ds 0%N 0 with
        | (n, S _, EmptyString) => Some (if neg then (- Z.of_N n)%Z else Z.of_N n)
        | _ => None
        end
      else None
  end.

(** A decimal literal without its sign: digits, an optional point and
    digits (at least one digit in all), an optional exponent. *)
Definition parse_decimal (s : string) : option (N * Z) :=
  let '(ip, ni, r1) := take_digits s 0%N 0 in
  let '(m, nf, r2) :=
    match r1 with
    | String c r => if Ascii.eqb c "." then take_digits r ip 0 else (ip, O, r1)
    | EmptyString => (ip, O, r1)
    end in
  match (ni + nf)%nat with
  | O => None
  | S _ =>
      match parse_exponent r2 with
      | Some e => Some (m, (e - Z.of_nat nf)%Z)
      | None => None
      end
  end.

(** [float(s)]: [None] stands for [ValueError]. *)
Definition py_float (s : string) : option float_lit :=
  match strip_underscores (num_strip s) None with
  | None => None
  | Some t =>
      let (neg, body) := split_sign t in
      let l := lower body in
      if String.eqb l "inf" || String.eqb l "infinity" then Some (FInf neg)
      else if String.eqb l "nan" then Some FNan
      else match parse_decimal body with
           | Some (m, e) => Some (FDec neg m e)
           | None => None
           end
  end.

(** Whether the binary64 value of a literal is zero (such a float is falsy):
    the decimal is zero or rounds to zero, being at most half the smallest
    subnormal [2^-1074]. *)
Definition float_is_zero (f : float_lit) : bool :=
  match f with
  | FDec _ m e =>
      if (m =? 0)%N then true
      else if (0 <=? e)%Z then false
      else (Z.of_N m * 2 ^ 1075 <=? 10 ^ (- e))%Z
  | _ => false
  end.

(** [str(n)] for an integer. *)
Definition str_of_int (z : Z) : string :=
  NilZero.string_of_int (Z.to_int z).

End PyNum.

(* ===================================================================== *)
(** * The SQL dump parser ([voat_sql_parser.py])                          *)
(* ===================================================================== *)

Module VoatSQLParser.
Import PyStr PyNum.
Local Open Scope string_scope.

(** A converted field: [None], [int], [float] or [str]. *)
Inductive value : Type :=
| VNone
| VInt (z : Z)
| VFloat (f : float_lit)
| VStr (s : string).

(** ** Column maps *)

Definition submission_columns : list string :=
  [ "submissionid"; "archiveDate"; "commentCount"; "content"; "creationDate";
    "domain"; "downCount"; "formattedContent"; "isAdult"; "isAnonymized";
    "isDeleted"; "lastEditDate"; "subverse"; "sum"; "thumbnail"; "title";
    "type"; "upCount"; "url"; "userName"; "views"; "archivedLink";
    "archivedDomain"; "deletedMeaning"; "fetchCount"; "lastFetched"; "flags" ].

Definition comment_columns : list string :=
  [ "commentid"; "content"; "creationDate"; "downCount"; "formattedContent";
    "isAnonymized"; "isCollapsed"; "isDeleted"; "isDistinguished"; "isOwner";
    "isSaved"; "isSubmitter"; "lastEditDate"; "parentid"; "submissionid";
    "subverse"; "sum"; "upCount"; "userName"; "vote"; "fetchCount";
    "lastFetched" ].

(** [COLUMN_MAPS.get(table_name)]; [None] when the key is absent. *)
Definition COLUMN_MAPS (table_name : string) : option (list string) :=
  if String.eqb table_name "submission" then Some submission_columns
  else if String.eqb table_name "comment" then Some comment_columns
  else None.

(** ** Escapes *)

(** [ESCAPE_MAP.get(c)] *)
Definition ESCAPE_MAP (c : ascii) : option ascii :=
  if Ascii.eqb c "'" then Some "'"%char
  else if Ascii.eqb c "\" then Some "\"%char
  else if Ascii.eqb c "r" then Some "013"%char
  else if Ascii.eqb c "n" then Some "010"%char
  else if Ascii.eqb c "t" then Some "009"%char
  else if Ascii.eqb c "0" then Some "000"%char
  else if Ascii.eqb c "b" then Some "008"%char
  else if Ascii.eqb c "Z" then Some "026"%char
  else None.

(** [ESCAPE_MAP.get(c, c)] *)
Definition unescape (c : ascii) : ascii :=
  match ESCAPE_MAP c with Some d => d | None => c end.

(** ** [_parse_value] *)

Definition _parse_value (v : string) (was_quoted : bool) : value :=
  if String.eqb (upper v) "NULL" then VNone
  else if is_empty v && negb was_quoted then VNone
  else match py_int v with
       | Some n => VInt n
       | None =>
           match py_float v with
           | Some f => VFloat f
           | None => VStr v
           end
       end.

(** ** [_parse_values_tuple] *)

Inductive state : Type := OUTSIDE | IN_STRING | ESCAPE.

(** The [while i < len(text)] loop.  [rest] is [text[i:]], [len] is
    [len(text)]; the other arguments are the loop's variables. *)
Fixpoint parse_loop (rest : string) (i : nat) (len : nat)
    (values : list value) (current : string) (st : state) (was_quoted : bool)
    {struct rest} : list value * nat :=
  match rest with
  | EmptyString => (values, len)
  | String char rest' =>
      match st with
      | ESCAPE =>
          parse_loop rest' (S i) len values (snoc current (unescape char))
                     IN_STRING was_quoted
      | IN_STRING =>
          if Ascii.eqb char "\" then
            parse_loop rest' (S i) len values current ESCAPE was_quoted
          else if Ascii.eqb char "'" then
            match rest' with
            | String next rest'' =>
                if Ascii.eqb next "'" then
                  parse_loop rest'' (S (S i)) len values (snoc current "'")
                             IN_STRING was_quoted
                else
                  parse_loop rest' (S i) len values current OUTSIDE was_quoted
            | EmptyString =>
                parse_loop rest' (S i) len values current OUTSIDE was_quoted
            end
          else
            parse_loop rest' (S i) len values (snoc current char)
                       IN_STRING was_quoted
      | OUTSIDE =>
          if Ascii.eqb char "'" then
            parse_loop rest' (S i) len values current IN_STRING true
          else if Ascii.eqb char "," then
            parse_loop rest' (S i) len
                       (values ++ [_parse_value (strip current) was_quoted])%list
                       "" OUTSIDE false
          else if Ascii.eqb char ")" then
            ((values ++ [_parse_value (strip current) was_quoted])%list, S i)
          else
            parse_loop rest' (S i) len values (snoc current char)
                       OUTSIDE was_quoted
      end
  end.

(** [_parse_values_tuple(text, start)], [start] being the position of the
    opening parenthesis. *)
Definition _parse_values_tuple (text : string) (start : nat)
  : list value * nat :=
  parse_loop (drop (S start) text) (S start) (String.length text)
             [] "" OUTSIDE false.


(** ** [_quick_extract_field] *)

(** The [while i < len(text) and field_count <= field_idx] loop; [rest] is
    [text[i:]].  Both [return self._convert_value(...)] statements look up
    an attribute the class does not define, which raises [AttributeError]
    before anything is converted. *)
Fixpoint quick_loop (rest : string) (field_idx : nat) (field_count : nat)
    (current : string) (in_string : bool) (paren_depth : nat)
    {struct rest} : PyExn.result (option value) :=
  if (field_idx <? field_count)%nat then inr None
  else
  match rest with
  | EmptyString => inr None
  | String char rest' =>
      let target := (field_count =? field_idx)%nat in
      let collect (c : ascii) := if target then snoc current c else current in
      let other :=
          if Ascii.eqb char "'" then
            if in_string then
              match rest' with
              | String next rest'' =>
                  if Ascii.eqb next "'" then
                    quick_loop rest'' field_idx field_count (collect "'"%char)
                               in_string paren_depth
                  else quick_loop rest' field_idx field_count current
                                  false paren_depth
              | EmptyString =>
                  quick_loop rest' field_idx field_count current
                             false paren_depth
              end
            else quick_loop rest' field_idx field_count current
                            true paren_depth
          else if negb in_string && Ascii.eqb char "(" then
            quick_loop rest' field_idx field_count (collect char)
                       in_string (S paren_depth)
          else if negb in_string && Ascii.eqb char ")" then
            match paren_depth with
            | O => if target then inl (PyExn.AttributeError "_convert_value")
                   else inr None
            | S d => quick_loop rest' field_idx field_count (collect char)
                                in_string d
            end
          else if negb in_string && Ascii.eqb char ","
                  && (paren_depth =? 0)%nat then
            if target then inl (PyExn.AttributeError "_convert_value")
            else quick_loop rest' field_idx (S field_count) ""
                            in_string paren_depth
          else
            quick_loop rest' field_idx field_count (collect char)
                       in_string paren_depth in
      if Ascii.eqb char "\" && in_string then
        match rest' with
        | String esc rest'' =>
            (* i += 2; current += text[i - 1] *)
            quick_loop rest'' field_idx field_count (collect esc)
                       in_string paren_depth
        | EmptyString => other
        end
      else other
  end.

Definition _quick_extract_field (text : string) (start : nat)
    (field_idx : nat) : PyExn.result (option value) :=
  quick_loop (drop (S start) text) field_idx 0 "" false 0.

(** ** [stream_rows] *)

(** A yielded row: [dict(zip(columns, values))], in column order. *)
Definition row : Type := list (string * value).

(** What [gzip.open(path)] finds: a file that cannot be read at all, or
    physical lines, possibly followed by a read error (a truncated
    archive) when the line after them is requested. *)
Inductive gz_file : Type :=
| GzUnreadable
| GzLines (lines : list string) (truncated : bool).

(** How far a run of the generator got. *)
Inductive outcome : Type :=
| Finished
| Raised (e : PyExn.exn)
| OutOfFuel.

(** The generator's local variables, the rows yielded so far and the
    files opened so far. *)
Record gen_state : Type := mkGen {
  buffer : string;
  in_split_format : bool;
  accumulating_tuple : bool;
  row_count : nat;
  skipped_count : nat;
  error_count : nat;
  yielded : list row;
}.

Definition set_buffer (st : gen_state) (b : string) : gen_state :=
  mkGen b (in_split_format st) (accumulating_tuple st) (row_count st)
        (skipped_count st) (error_count st) (yielded st).
Definition set_split (st : gen_state) (b : bool) : gen_state :=
  mkGen (buffer st) b (accumulating_tuple st) (row_count st)
        (skipped_count st) (error_count st) (yielded st).
Definition set_accumulating (st : gen_state) (b : bool) : gen_state :=
  mkGen (buffer st) (in_split_format st) b (row_count st)
        (skipped_count st) (error_count st) (yielded st).
Definition incr_skipped (st : gen_state) : gen_state :=
  mkGen (buffer st) (in_split_format st) (accumulating_tuple st) (row_count st)
        (S (skipped_count st)) (error_count st) (yielded st).
Definition incr_errors (st : gen_state) : gen_state :=
  mkGen (buffer st) (in_split_format st) (accumulating_tuple st) (row_count st)
        (skipped_count st) (S (error_count st)) (yielded st).
Definition yield_row (st : gen_state) (r : row) : gen_state :=
  mkGen (buffer st) (in_split_format st) (accumulating_tuple st)
        (S (row_count st)) (skipped_count st) (error_count st)
        (yielded st ++ [r])%list.

(** Truthiness of a value ([if subverse_value]). *)
Definition truthy (v : value) : bool :=
  match v with
  | VNone => false
  | VInt z => negb (z =? 0)%Z
  | VFloat f => negb (float_is_zero f)
  | VStr s => negb (is_empty s)
  end.

(** [x in l] for strings *)
Definition str_in (x : string) (l : list string) : bool :=
  existsb (String.eqb x) l.

(** [l.index(x)] when [x in l] *)
Fixpoint index_of (x : string) (l : list string) : option nat :=
  match l with
  | [] => None
  | y :: r => if String.eqb y x then Some O else option_map S (index_of x r)
  end.

(** One pass of the [while True] loop either goes round again or leaves
    the loop. *)
Inductive step : Type :=
| Continue (st : gen_state)
| Break (st : gen_state).

(** The three checks that end the work on a buffer: nothing left, a
    terminating semicolon, or the split layout's one tuple per block. *)
Definition end_of_buffer_checks (st : gen_state) : step :=
  if is_empty (strip (buffer st)) then
    Break (if in_split_format st then set_split st false else st)
  else if negb (in_split_format st) && startswith (strip (buffer st)) ";" then
    Break st
  else if in_split_format st then Break (set_split st false)
  else Continue st.

Section Stream.

(** [repr] of a float, Python's shortest round-trip printing, which the
    repository does not define. *)
Variable float_repr : float_lit -> string.

(** The partial-field extraction used by the fast path. *)
Variable quick_extract : string -> nat -> nat -> PyExn.result (option value).

(** [str(v)] *)
Definition py_str (v : value) : string :=
  match v with
  | VNone => "None"
  | VInt z => str_of_int z
  | VFloat f => float_repr f
  | VStr s => s
  end.

(** [v and str(v).lower() not in filter_lower]: the row is to be skipped. *)
Definition excluded (filter_lower : list string) (v : value) : bool :=
  truthy v && negb (str_in (lower (py_str v)) filter_lower).

(** The body of the [while True] loop.  [filter_lower] is [None] when no
    filter applies; [subverse_idx] is [None] for Python's [-1].
    [_parse_values_tuple] is total and raises nothing, so the
    [except Exception] handler around the full parse is never entered and
    has no counterpart here; the bare [except] around the fast path is the
    [inl] case below. *)
Definition tuple_step (columns : list string) (subverse_idx : option nat)
    (filter_lower : option (list string)) (st : gen_state) : step :=
  match find (buffer st) "(" 0 with
  | None => Break st
  | Some paren_start =>
      let full_parse :=
        let (values, end_pos) := _parse_values_tuple (buffer st) paren_start in
        match values with
        | [] => end_of_buffer_checks st
        | _ :: _ =>
            if in_split_format st
               && (List.length values <? List.length columns)%nat then
              Break (set_accumulating st true)
            else if (List.length values =? List.length columns)%nat then
              let row_dict := combine columns values in
              let skip :=
                match filter_lower, subverse_idx with
                | Some ((_ :: _) as fl), Some idx =>
                    excluded fl (nth idx values VNone)
                | _, _ => false
                end in
              if skip then
                end_of_buffer_checks
                  (set_buffer (incr_skipped st) (drop end_pos (buffer st)))
              else
                let st1 := yield_row st row_dict in
                let st2 := set_buffer st1 (drop end_pos (buffer st)) in
                end_of_buffer_checks
                  (set_split (set_accumulating st2 false) false)
            else
              end_of_buffer_checks
                (set_buffer (incr_errors st) (drop end_pos (buffer st)))
        end in
      match filter_lower, subverse_idx with
      | Some ((_ :: _) as fl), Some idx =>
          match quick_extract (buffer st) paren_start idx with
          | inr (Some subverse_value) =>
              if excluded fl subverse_value then
                let (_, end_pos) :=
                  _parse_values_tuple (buffer st) paren_start in
                end_of_buffer_checks
                  (set_buffer (incr_skipped st) (drop end_pos (buffer st)))
              else full_parse
          | inr None => full_parse
          | inl _ => full_parse          (* except: pass *)
          end
      | _, _ => full_parse
      end
  end.

(** The [while True] loop; every pass costs one unit of fuel. *)
Fixpoint tuples_loop (fuel : nat) (columns : list string)
    (subverse_idx : option nat) (filter_lower : option (list string))
    (st : gen_state) : option nat * gen_state :=
  match fuel with
  | O => (None, st)
  | S fuel' =>
      match tuple_step columns subverse_idx filter_lower st with
      | Break st' => (Some fuel', st')
      | Continue st' => tuples_loop fuel' columns subverse_idx filter_lower st'
      end
  end.

(** [insert_pattern.search(line)]: the pattern is the literal
    [INSERT INTO `table` VALUES], matched without regard to case. *)
Definition insert_pattern_search (table_name line : string) : bool :=
  match find (lower line)
             (lower ("INSERT INTO `" ++ table_name ++ "` VALUES")) 0 with
  | Some _ => true
  | None => false
  end.

Definition is_ddl (stripped : string) : bool :=
  let u := upper stripped in
  startswith u "CREATE " || startswith u "DROP " || startswith u "ALTER "
  || startswith u "SET " || startswith u "USE ".

(** What the part of the [for line in f] body before the tuple loop does
    with one line: skip it ([None]) or set the buffer and flags. *)
Definition line_dispatch (table_name : string) (line : string)
    (st : gen_state) : option gen_state :=
  let stripped := strip line in
  if is_empty stripped || startswith stripped "--" || startswith stripped "/*"
  then None
  else if is_ddl stripped then None
  else if insert_pattern_search table_name line then
    match find (upper line) "VALUES" 0 with
    | None => None
    | Some values_pos =>
        Some (set_split (set_buffer st (drop (values_pos + 6) line)) false)
    end
  else if startswith stripped "(" then
    let st1 := if accumulating_tuple st
               then set_split (set_accumulating st false) false else st in
    Some (set_split (set_buffer st1 line) true)
  else if accumulating_tuple st || in_split_format st then
    Some (set_buffer st (buffer st ++ line))
  else None.

(** The [for line in f] loop. *)
Fixpoint lines_loop (fuel : nat) (table_name : string) (columns : list string)
    (subverse_idx : option nat) (filter_lower : option (list string))
    (lines : list string) (st : gen_state) : option nat * gen_state :=
  match lines with
  | [] => (Some fuel, st)
  | line :: more =>
      match line_dispatch table_name line st with
      | None =>
          lines_loop fuel table_name columns subverse_idx filter_lower more st
      | Some st1 =>
          if is_empty (buffer st1) then
            lines_loop fuel table_name columns subverse_idx filter_lower
                       more st1
          else
            match tuples_loop fuel columns subverse_idx filter_lower st1 with
            | (None, st2) => (None, st2)
            | (Some fuel', st2) =>
                lines_loop fuel' table_name columns subverse_idx filter_lower
                           more st2
            end
      end
  end.

(** The outcome of running the generator to its end (or until [fuel]
    passes of the tuple loop are spent): the rows yielded, the paths
    opened, and how it ended. *)
Record run : Type := mkRun {
  rows : list row;
  opened : list string;
  ended : outcome;
}.

Definition initial_state : gen_state := mkGen "" false false 0 0 0 [].

Definition stream_rows_with (fuel : nat) (fs : string -> gz_file)
    (file_path table_name : string) (filter_subverses : option (list string))
  : run :=
  match COLUMN_MAPS table_name with
  | None =>
      mkRun [] []
            (Raised (PyExn.ValueError
                       ("Unknown table: " ++ table_name
                        ++ ". Expected: ['submission', 'comment']")))
  | Some columns =>
      let subverse_idx := index_of "subverse" columns in
      let filter_lower :=
        match filter_subverses with
        | Some ((_ :: _) as l) => Some (map lower l)
        | _ => None
        end in
      match fs file_path with
      | GzUnreadable | GzLines [] true =>
          (* the probing readline fails: log and return *)
          mkRun [] [file_path] Finished
      | GzLines lines truncated =>
          match lines_loop fuel table_name columns subverse_idx filter_lower
                           lines initial_state with
          | (None, st) => mkRun (yielded st) [file_path; file_path] OutOfFuel
          | (Some _, st) =>
              mkRun (yielded st) [file_path; file_path]
                    (if truncated then Raised PyExn.EOFError else Finished)
          end
      end
  end.

End Stream.

(** [stream_rows(file_path, table_name, filter_subverses)] *)
Definition stream_rows (float_repr : float_lit -> string) :=
  stream_rows_with float_repr _quick_extract_field.

End VoatSQLParser.

(* ===================================================================== *)
(** * The streaming decompression reader ([watchful.py])                  *)
(* ===================================================================== *)

Module Watchful.
Import PyExn.
Local Open Scope N_scope.

(** Decoded text: a sequence of Unicode code points. *)
Definition text : Type := list N.

Definition newline : N := 10.

(** ** [bytes.decode()]: strict UTF-8 *)

Definition cont (n : N) : bool := (128 <=? n) && (n <=? 191).

(** A two-byte sequence: lead C2..DF and one continuation byte. *)
Definition seq2 (n0 n1 : N) : option N :=
  if (194 <=? n0) && (n0 <=? 223) && cont n1
  then Some ((n0 - 192) * 64 + (n1 - 128)) else None.

(** A three-byte sequence: lead E0..EF; E0 excludes overlong forms and ED
    excludes the surrogates. *)
Definition seq3 (n0 n1 n2 : N) : option N :=
  if (224 <=? n0) && (n0 <=? 239) && cont n1 && cont n2
     && (negb (n0 =? 224) || (160 <=? n1))
     && (negb (n0 =? 237) || (n1 <=? 159))
  then Some ((n0 - 224) * 4096 + (n1 - 128) * 64 + (n2 - 128)) else None.

(** A four-byte sequence: lead F0..F4; F0 excludes overlong forms and F4
    stays within U+10FFFF. *)
Definition seq4 (n0 n1 n2 n3 : N) : option N :=
  if (240 <=? n0) && (n0 <=? 244) && cont n1 && cont n2 && cont n3
     && (negb (n0 =? 240) || (144 <=? n1))
     && (negb (n0 =? 244) || (n1 <=? 143))
  then Some ((n0 - 240) * 262144 + (n1 - 128) * 4096
             + (n2 - 128) * 64 + (n3 - 128))
  else None.

(** [chunk.decode()]; [None] stands for [UnicodeDecodeError]. *)
Fixpoint decode (bs : list Byte.byte) : option text :=
  match bs with
  | [] => Some []
  | b0 :: r0 =>
      let n0 := Byte.to_N b0 in
      if n0 <? 128 then option_map (cons n0) (decode r0)
      else if n0 <? 224 then
        match r0 with
        | b1 :: r1 =>
            match seq2 n0 (Byte.to_N b1) with
            | Some c => option_map (cons c) (decode r1)
            | None => None
            end
        | _ => None
        end
      else if n0 <? 240 then
        match r0 with
        | b1 :: b2 :: r2 =>
            match seq3 n0 (Byte.to_N b1) (Byte.to_N b2) with
            | Some c => option_map (cons c) (decode r2)
            | None => None
            end
        | _ => None
        end
      else
        match r0 with
        | b1 :: b2 :: b3 :: r3 =>
            match seq4 n0 (Byte.to_N b1) (Byte.to_N b2) (Byte.to_N b3) with
            | Some c => option_map (cons c) (decode r3)
            | None => None
            end
        | _ => None
        end
  end.

(** ** The decompressed stream *)

(** The stream reader is the decompressed content not yet read. *)
Definition reader : Type := list Byte.byte.

Fixpoint take (n : N) (l : list Byte.byte) : list Byte.byte :=
  match l with
  | [] => []
  | b :: r => if n =? 0 then [] else b :: take (N.pred n) r
  end.

Fixpoint skip (n : N) (l : list Byte.byte) : list Byte.byte :=
  match l with
  | [] => []
  | b :: r => if n =? 0 then l else skip (N.pred n) r
  end.

(** [reader.read(size)]: up to [size] bytes, fewer only at the end. *)
Definition read (rd : reader) (size : N) : list Byte.byte * reader :=
  (take size rd, skip size rd).

(** ** [read_and_decode] *)

(** The function calls itself after a failed decode; [fuel] bounds the
    depth of these calls and [None] means the bound was reached. *)
Fixpoint read_and_decode (fuel : nat) (rd : reader)
    (chunk_size max_window_size : N) (previous_chunk : option (list Byte.byte))
    (bytes_read : N) : option (result text * reader) :=
  match fuel with
  | O => None
  | S fuel' =>
      let (chunk, rd') := read rd chunk_size in
      let bytes_read := bytes_read + chunk_size in
      let chunk := match previous_chunk with
                   | Some p => (p ++ chunk)%list
                   | None => chunk
                   end in
      match decode chunk with
      | Some t => Some (inr t, rd')
      | None =>
          if max_window_size <? bytes_read then Some (inl UnicodeError, rd')
          else read_and_decode fuel' rd' chunk_size max_window_size
                               (Some chunk) bytes_read
      end
  end.

(** Calls that [read_and_decode] needs at most before the counter passes
    the ceiling. *)
Definition retry_bound (chunk_size max_window_size : N) : nat :=
  S (S (N.to_nat (max_window_size / chunk_size))).

(** ** [read_lines_zst] *)

(** [s.split("\n")] *)
Fixpoint split_lines (s : text) : list text :=
  match s with
  | [] => [[]]
  | c :: r =>
      if c =? newline then [] :: split_lines r
      else match split_lines r with
           | h :: t => (c :: h) :: t
           | [] => [[c]]
           end
  end.

Inductive ending : Type :=
| Exhausted                    (* the generator returned *)
| Failed (e : exn)             (* it raised *)
| Unfinished.                  (* the bound on passes was reached *)

(** The [while True] loop with the chunk size and ceiling as parameters.
    The second component of each yielded pair, the position in the
    compressed file, is not modelled. *)
Fixpoint read_lines_loop (fuel : nat) (chunk_size max_window_size : N)
    (rd : reader) (buffer : text) (yielded : list text)
  : list text * ending :=
  match fuel with
  | O => (yielded, Unfinished)
  | S fuel' =>
      match read_and_decode (retry_bound chunk_size max_window_size) rd
                            chunk_size max_window_size None 0 with
      | None => (yielded, Unfinished)
      | Some (inl e, _) => (yielded, Failed e)
      | Some (inr chunk, rd') =>
          match chunk with
          | [] => (yielded, Exhausted)
          | _ :: _ =>
              let lines := split_lines (buffer ++ chunk) in
              read_lines_loop fuel' chunk_size max_window_size rd'
                              (last lines []) (yielded ++ removelast lines)
          end
      end
  end.

Definition chunk_size_default : N := 2 ^ 27.
Definition max_window_default : N := 2 ^ 29 * 2.

(** [read_lines_zst(file_name)], given the decompressed content of the
    file: the lines yielded and how the generator ended.  Every pass but
    the last consumes at least one byte. *)
Definition read_lines_zst (content : list Byte.byte) : list text * ending :=
  read_lines_loop (S (List.length content)) chunk_size_default
                  max_window_default content [] [].

End Watchful.

(* ===================================================================== *)
(** * Python floats (binary64)                                            *)
(* ===================================================================== *)

Module PyFloat.
Import PyExn.
Local Open Scope float_scope.

(** [x / y] on floats raises on a zero divisor. *)
Definition div (x y : float) : result float :=
  if PrimFloat.eqb y 0 then inl ZeroDivisionError else inr (x / y).

(** [float(z)] as arithmetic applies it to an [int] operand: the nearest
    binary64 value, [OverflowError] beyond the finite range. *)
Definition of_int (z : Z) : result float :=
  let f := SF2Prim (binary_normalize prec emax z 0 false) in
  if PrimFloat.is_infinity f then inl OverflowError else inr f.

(** [x / z] for a float and an [int]: the divisor is converted, and a
    zero divisor raises (the converted divisor is zero exactly when the
    integer is). *)
Definition div_int (x : float) (z : Z) : result float :=
  match of_int z with
  | inl e => inl e
  | inr d => if (z =? 0)%Z then inl ZeroDivisionError else inr (x / d)
  end.

(** [z / x] for an [int] and a float. *)
Definition int_div (z : Z) (x : float) : result float :=
  match of_int z with
  | inl e => inl e
  | inr n => div n x
  end.

(** [int(x)]: truncation towards zero. *)
Definition to_int (x : float) : result Z :=
  match Prim2SF x with
  | S754_zero _ => inr 0%Z
  | S754_finite s m e =>
      let v := if (0 <=? e)%Z then (Z.pos m * 2 ^ e)%Z
               else (Z.pos m / 2 ^ (- e))%Z in
      inr (if s then (- v)%Z else v)
  | S754_infinity _ => inl OverflowError
  | S754_nan => inl (ValueError "cannot convert float NaN to integer")
  end.

(** [z > x] for an [int] and a [float]: the comparison is exact. *)
Definition int_gt (z : Z) (x : float) : bool :=
  match Prim2SF x with
  | S754_zero _ => (0 <? z)%Z
  | S754_finite s m e =>
      let m' := if s then Z.neg m else Z.pos m in
      if (0 <=? e)%Z then (m' * 2 ^ e <? z)%Z
      else (m' <? z * 2 ^ (- e))%Z
  | S754_infinity s => s
  | S754_nan => false
  end.

(** [a / b] on integers (true division): the correctly rounded quotient.
    The quotient is computed to 64 bits or more, with a sticky bit for
    the remainder, and then rounded once. *)
Definition int_truediv (a b : Z) : result float :=
  if (b =? 0)%Z then inl ZeroDivisionError
  else
    let neg := xorb (a <? 0)%Z (b <? 0)%Z in
    let n := Z.abs a in
    let d := Z.abs b in
    let shift := Z.max 0 (Z.log2 d - Z.log2 n + 64) in
    let q := (n * 2 ^ shift / d)%Z in
    let sticky := if (n * 2 ^ shift mod d =? 0)%Z then 0%Z else 1%Z in
    let m := (2 * q + sticky)%Z in
    let f := SF2Prim (binary_normalize prec emax
                        (if neg then (- m)%Z else m) (- shift - 1) neg) in
    if PrimFloat.is_infinity f then inl OverflowError else inr f.

(** [max(a, b)] and [min(a, b)] return the first argument unless the
    second is strictly beyond it. *)
Definition py_max (a b : float) : float := if a <? b then b else a.
Definition py_min (a b : float) : float := if b <? a then b else a.

End PyFloat.

(* ===================================================================== *)
(** * The adaptive batch loader ([batch_processing_utils.py])             *)
(* ===================================================================== *)

Module BatchProcessor.
Import PyExn.
Local Open Scope Z_scope.
#[local] Set Warnings "-inexact-float".

(** ** Data *)

Record BatchConfig : Type := mkConfig {
  initial_batch_size : Z;
  min_batch_size : Z;
  max_batch_size : Z;
  memory_threshold_mb : float;
  performance_threshold_records_per_sec : float;
  auto_tune_enabled : bool;
  transaction_scope : string;
  progress_callback_interval : Z;
  validation_enabled : bool;
}.

(** [BatchConfig()] *)
Definition default_config : BatchConfig :=
  mkConfig 1000 50 10000 100%float 1000%float true "batch" 100 true.

(** [AutoTuningMetrics], the fields the loader writes. *)
Record AutoTuningMetrics : Type := mkTuning {
  optimization_impact : float;
  adjustments_successful : Z;
  adjustments_failed : Z;
}.

Record BatchMetrics : Type := mkMetrics {
  batch_size : Z;
  records_processed : Z;
  successful_batches : Z;
  failed_batches : Z;
  total_processing_time : float;
  average_batch_time : float;
  records_per_second : float;
  memory_usage_mb : float;
  auto_adjustments : Z;
  auto_tuning_metrics : AutoTuningMetrics;
}.

(** [BatchMetrics(batch_size=n)] *)
Definition new_metrics (n : Z) : BatchMetrics :=
  mkMetrics n 0 0 0 0%float 0%float 0%float 0%float 0
            (mkTuning 0%float 0 0).

(** A value stored in a record, as far as the loader looks at it. *)
Inductive pyobj : Type :=
| ONone
| OBool (b : bool)
| OInt (z : Z)
| OStr (s : string).

Definition obj_truthy (o : pyobj) : bool :=
  match o with
  | ONone => false
  | OBool b => b
  | OInt z => negb (z =? 0)
  | OStr s => negb (PyStr.is_empty s)
  end.

(** An element of [data]: a dict, or something else. *)
Inductive item : Type :=
| NotADict
| Dict (fields : list (string * pyobj)).

Fixpoint dict_get (k : string) (d : list (string * pyobj)) : option pyobj :=
  match d with
  | [] => None
  | (k', v) :: r => if String.eqb k' k then Some v else dict_get k r
  end.

(** What [batch_operation] returns: the counts under the keys
    [inserted], [updated] and [errors] (0 for an absent key). *)
Record op_result : Type := mkOp {
  inserted : Z;
  updated : Z;
  errors : Z;
}.

(** The dict handed to the progress callback; the final call carries no
    batch size. *)
Record progress : Type := mkProgress {
  p_processed : Z;
  p_total : Z;
  p_errors : Z;
  p_batches : Z;
  p_current_batch_size : option Z;
  p_completed : bool;
}.

(** The keys of the returned dict beyond the three counters. *)
Record summary_details : Type := mkDetails {
  total_time : float;
  summary_records_per_second : float;
  final_batch_size : Z;
  summary_auto_adjustments : Z;
}.

(** What [process_batches] returns; the early returns give the three
    counters only. *)
Record summary : Type := mkSummary {
  total_processed : Z;
  total_errors : Z;
  batches_processed : Z;
  details : option summary_details;
}.

(** ** The world around the loader *)

(** Every call that leaves the loader is recorded, in order. *)
Inductive event : Type :=
| Execute (stmt : string)
| BatchOperation (batch : list item)
| Clock
| MemorySample
| Callback (p : progress).

(** The answers of the outside world, each depending on how many calls
    were made before it: whether a statement fails on the connection, what
    the batch operation does, the seconds a clock difference yields, the
    megabytes [_get_memory_usage_mb] reports, whether the callback fails. *)
Record environment : Type := mkEnv {
  execute_raises : nat -> string -> option exn;
  operation : nat -> list item -> result op_result;
  elapsed : nat -> float;
  memory_mb : nat -> float;
  callback_raises : nat -> progress -> option exn;
}.

(** The processor object. *)
Record processor : Type := mkProcessor {
  config : BatchConfig;
  enable_monitoring : bool;
  metrics : option BatchMetrics;
  current_batch_size : Z;
  performance_history : option (list Z);  (* the batch_size of each entry *)
}.

(** [BatchProcessor(config, enable_monitoring)] *)
Definition new_processor (cfg : BatchConfig) (monitoring : bool) : processor :=
  mkProcessor cfg monitoring
    (if monitoring then Some (new_metrics (initial_batch_size cfg)) else None)
    (initial_batch_size cfg)
    (if monitoring then Some [] else None).

(** The running totals of [process_batches]. *)
Record totals : Type := mkTotals {
  t_processed : Z;
  t_errors : Z;
  t_batches : Z;
}.

Record world : Type := mkWorld {
  self : processor;
  locals : totals;
  trace : list event;
}.

(** ** A state and exception monad *)

Definition M (A : Type) : Type := world -> result A * world.

Definition ret {A} (a : A) : M A := fun w => (inr a, w).
Definition raise {A} (e : exn) : M A := fun w => (inl e, w).
Definition bind {A B} (m : M A) (k : A -> M B) : M B :=
  fun w => match m w with
           | (inr a, w') => k a w'
           | (inl e, w') => (inl e, w')
           end.
(** [try: body except Exception: handler] *)
Definition try_except {A} (body : M A) (handler : exn -> M A) : M A :=
  fun w => match body w with
           | (inr a, w') => (inr a, w')
           | (inl e, w') => handler e w'
           end.
Definition lift {A} (r : result A) : M A :=
  match r with inr a => ret a | inl e => raise e end.
Definition get_self : M processor := fun w => (inr (self w), w).
Definition put_self (p : processor) : M unit :=
  fun w => (inr tt, mkWorld p (locals w) (trace w)).
Definition get_locals : M totals := fun w => (inr (locals w), w).
Definition put_locals (t : totals) : M unit :=
  fun w => (inr tt, mkWorld (self w) t (trace w)).
(** Records a call and returns its position among the calls. *)
Definition emit (e : event) : M nat :=
  fun w => (inr (List.length (trace w)),
            mkWorld (self w) (locals w) (trace w ++ [e])).
Definition when (b : bool) (m : M unit) : M unit := if b then m else ret tt.

Declare Scope m_scope.
Delimit Scope m_scope with M.
Notation "x <- m ;; k" := (bind m (fun x => k))
  (at level 61, m at next level, right associativity) : m_scope.
Notation "m ;;; k" := (bind m (fun _ => k))
  (at level 61, right associativity) : m_scope.
Local Open Scope m_scope.

Definition put_metrics (m : BatchMetrics) : M unit :=
  p <- get_self ;;
  put_self (mkProcessor (config p) (enable_monitoring p) (Some m)
                        (current_batch_size p) (performance_history p)).

Definition put_current_batch_size (n : Z) : M unit :=
  p <- get_self ;;
  put_self (mkProcessor (config p) (enable_monitoring p) (metrics p)
                        n (performance_history p)).

Definition put_history (h : list Z) : M unit :=
  p <- get_self ;;
  put_self (mkProcessor (config p) (enable_monitoring p) (metrics p)
                        (current_batch_size p) (Some h)).

Section WithEnvironment.

Variable env : environment.

(** [connection.execute(stmt)] *)
Definition connection_execute (stmt : string) : M unit :=
  n <- emit (Execute stmt) ;;
  match execute_raises env n stmt with
  | Some e => raise e
  | None => ret tt
  end.

(** [batch_operation(batch, connection)] *)
Definition batch_operation (batch : list item) : M op_result :=
  n <- emit (BatchOperation batch) ;;
  lift (operation env n batch).

(** [time.time() - start] *)
Definition clock_since : M float :=
  n <- emit Clock ;; ret (elapsed env n).

(** [self._get_memory_usage_mb()]: the cached or freshly sampled
    resident size; it raises nothing. *)
Definition _get_memory_usage_mb : M float :=
  n <- emit MemorySample ;; ret (memory_mb env n).

(** [progress_callback(p)] *)
Definition call_progress (p : progress) : M unit :=
  n <- emit (Callback p) ;;
  match callback_raises env n p with
  | Some e => raise e
  | None => ret tt
  end.

(** ** Metrics *)

Definition modify_metrics (f : BatchMetrics -> BatchMetrics) : M unit :=
  p <- get_self ;;
  match metrics p with
  | Some m => put_metrics (f m)
  | None => ret tt
  end.

Definition set_tuning (m : BatchMetrics) (t : AutoTuningMetrics) : BatchMetrics :=
  mkMetrics (batch_size m) (records_processed m) (successful_batches m)
            (failed_batches m) (total_processing_time m) (average_batch_time m)
            (records_per_second m) (memory_usage_mb m) (auto_adjustments m) t.

(** [h[-n:]] for a list *)
Definition last_n {A} (n : nat) (l : list A) : list A :=
  List.skipn (List.length l - n) l.

(** [_validate_adjustment_effectiveness(baseline, new_size, memory_factor,
    performance_factor)]; of [baseline] it reads the batch size and the
    memory. *)
Definition _validate_adjustment_effectiveness
    (baseline_batch_size : Z) (baseline_memory : float) (new_size : Z)
    (memory_factor performance_factor : float) : M bool :=
  p <- get_self ;;
  match enable_monitoring p, metrics p with
  | true, Some _ =>
      size_change_ratio <- lift (PyFloat.int_truediv new_size baseline_batch_size) ;;
      let predicted_effective := true in
      let predicted_effective :=
        if (memory_factor <? 1)%float
        then (memory_threshold_mb (config p) * 0.9 <? baseline_memory)%float
        else predicted_effective in
      let predicted_effective :=
        if (1 <? performance_factor)%float then
          let recent_large_batches :=
            List.length
              (filter (fun h => new_size <=? h)
                      (last_n 10 (match performance_history p with
                                  | Some h => h
                                  | None => []
                                  end))) in
          if (3 <=? recent_large_batches)%nat then false
          else predicted_effective
        else predicted_effective in
      let effectiveness_impact :=
        (PrimFloat.abs (size_change_ratio - 1) * 100)%float in
      modify_metrics (fun m =>
        let t := auto_tuning_metrics m in
        set_tuning m
          (mkTuning (if predicted_effective
                     then (optimization_impact t + effectiveness_impact)%float
                     else (optimization_impact t - effectiveness_impact / 2)%float)
                    (adjustments_successful t) (adjustments_failed t))) ;;;
      ret predicted_effective
  | _, _ => ret true
  end.

(** ** [_calculate_optimal_batch_size] *)

Definition _calculate_optimal_batch_size
    (processing_speed memory_usage : float) : M Z :=
  p <- get_self ;;
  let cfg := config p in
  if negb (auto_tune_enabled cfg) then ret (current_batch_size p)
  else
    (* Memory-based adjustment *)
    memory_factor <-
      (if (memory_threshold_mb cfg <? memory_usage)%float then
         q <- lift (PyFloat.div (memory_threshold_mb cfg) memory_usage) ;;
         ret (PyFloat.py_max 0.5%float q)
       else ret 1%float) ;;
    (* Performance-based adjustment *)
    performance_factor <-
      (if (0 <? processing_speed)%float
          && (processing_speed <? performance_threshold_records_per_sec cfg)%float
       then
         q <- lift (PyFloat.div (performance_threshold_records_per_sec cfg)
                                processing_speed) ;;
         ret (PyFloat.py_min 1.5%float q)
       else ret 1%float) ;;
    (* Calculate new batch size *)
    let adjustment_factor := PyFloat.py_min memory_factor performance_factor in
    current <- lift (PyFloat.of_int (current_batch_size p)) ;;
    new_size <- lift (PyFloat.to_int (current * adjustment_factor)%float) ;;
    (* Apply limits *)
    let new_size :=
      Z.max (min_batch_size cfg) (Z.min (max_batch_size cfg) new_size) in
    (* Only adjust if significant change (10% threshold) *)
    if PyFloat.int_gt (Z.abs (new_size - current_batch_size p))
                      (current * 0.1)%float
    then
      match enable_monitoring p, metrics p with
      | true, Some _ =>
          adjustment_successful <-
            _validate_adjustment_effectiveness
              (current_batch_size p) memory_usage new_size
              memory_factor performance_factor ;;
          modify_metrics (fun m =>
            mkMetrics (batch_size m) (records_processed m)
                      (successful_batches m) (failed_batches m)
                      (total_processing_time m) (average_batch_time m)
                      (records_per_second m) (memory_usage_mb m)
                      (auto_adjustments m + 1)
                      (let t := auto_tuning_metrics m in
                       if adjustment_successful
                       then mkTuning (optimization_impact t)
                                     (adjustments_successful t + 1)
                                     (adjustments_failed t)
                       else mkTuning (optimization_impact t)
                                     (adjustments_successful t)
                                     (adjustments_failed t + 1)))
      | _, _ => ret tt
      end ;;;
      ret new_size
    else ret (current_batch_size p).

(** ** [_validate_batch_data] *)

Definition required_fields (operation_type : string) : list string :=
  if String.eqb operation_type "posts" || String.eqb operation_type "comments"
  then ["id"; "subreddit"]%string else ["id"]%string.

Definition item_ok (operation_type : string) (it : item) : bool :=
  match it with
  | NotADict => false
  | Dict d =>
      forallb (fun f => match dict_get f d with
                        | Some v => obj_truthy v
                        | None => false
                        end)
              (required_fields operation_type)
  end.

Definition _validate_batch_data (cfg : BatchConfig) (data : list item)
    (operation_type : string) : list item :=
  if negb (validation_enabled cfg) then data
  else filter (item_ok operation_type) data.

(** ** [_update_performance_metrics] *)

Definition _update_performance_metrics (batch_size : Z)
    (processing_time : float) (records_count : Z) (success : bool) : M unit :=
  p <- get_self ;;
  match enable_monitoring p, metrics p with
  | true, Some _ =>
      modify_metrics (fun m =>
        mkMetrics (BatchProcessor.batch_size m)
                  (records_processed m + records_count)
                  (if success then successful_batches m + 1
                   else successful_batches m)
                  (if success then failed_batches m
                   else failed_batches m + 1)
                  (total_processing_time m + processing_time)%float
                  (average_batch_time m) (records_per_second m)
                  (memory_usage_mb m) (auto_adjustments m)
                  (auto_tuning_metrics m)) ;;;
      (* Calculate averages *)
      p <- get_self ;;
      match metrics p with
      | None => ret tt
      | Some m =>
          let total_batches := successful_batches m + failed_batches m in
          (if 0 <? total_batches then
             q <- lift (PyFloat.div_int (total_processing_time m)
                                        total_batches) ;;
             modify_metrics (fun m =>
               mkMetrics (BatchProcessor.batch_size m) (records_processed m)
                         (successful_batches m) (failed_batches m)
                         (total_processing_time m) q (records_per_second m)
                         (memory_usage_mb m) (auto_adjustments m)
                         (auto_tuning_metrics m))
           else ret tt) ;;;
          (if (0 <? total_processing_time m)%float then
             q <- lift (PyFloat.int_div (records_processed m)
                                        (total_processing_time m)) ;;
             modify_metrics (fun m =>
               mkMetrics (BatchProcessor.batch_size m) (records_processed m)
                         (successful_batches m) (failed_batches m)
                         (total_processing_time m) (average_batch_time m) q
                         (memory_usage_mb m) (auto_adjustments m)
                         (auto_tuning_metrics m))
           else ret tt) ;;;
          mem <- _get_memory_usage_mb ;;
          modify_metrics (fun m =>
            mkMetrics (BatchProcessor.batch_size m) (records_processed m)
                      (successful_batches m) (failed_batches m)
                      (total_processing_time m) (average_batch_time m)
                      (records_per_second m) mem (auto_adjustments m)
                      (auto_tuning_metrics m)) ;;;
          (* Keep performance history for analysis *)
          p <- get_self ;;
          match performance_history p with
          | None => ret tt
          | Some h =>
              (* the entry's records_per_second *)
              (if (0 <? processing_time)%float then
                 _ <- lift (PyFloat.int_div records_count processing_time) ;;
                 ret tt
               else ret tt) ;;;
              let h' := (h ++ [batch_size])%list in
              put_history (if (100 <? List.length h')%nat then List.tl h' else h')
          end
      end
  | _, _ => ret tt
  end.

(** ** [process_batches] *)

(** [range(0, stop, step)] as a list; a zero step raises. *)
Definition py_range (stop step : Z) : result (list Z) :=
  if step =? 0 then inl (ValueError "range() arg 3 must not be zero")
  else if (step <? 0) || (stop <=? 0) then inr []
  else inr (map (fun k => Z.of_nat k * step)
                (seq 0 (Z.to_nat ((stop + step - 1) / step)))).

(** [l[a:b]] for [0 <= a]; a negative [b] counts from the end. *)
Definition py_slice {A} (l : list A) (a b : Z) : list A :=
  let n := Z.of_nat (List.length l) in
  let b := if b <? 0 then Z.max 0 (b + n) else Z.min b n in
  List.firstn (Z.to_nat (b - a)) (List.skipn (Z.to_nat a) l).

(** [a % b] *)
Definition py_mod (a b : Z) : result Z :=
  if b =? 0 then inl ZeroDivisionError else inr (a mod b).

Definition batch_scope (p : processor) : bool :=
  String.eqb (transaction_scope (config p)) "batch".

(** The last statement of the [try] body: auto-tune the batch size. *)
Definition auto_tune_step : M unit :=
  p <- get_self ;;
  match auto_tune_enabled (config p), metrics p with
  | true, Some _ =>
      memory_usage <- _get_memory_usage_mb ;;
      p <- get_self ;;
      let processing_speed :=
        match metrics p with
        | Some m => records_per_second m
        | None => 0%float
        end in
      n <- _calculate_optimal_batch_size processing_speed memory_usage ;;
      put_current_batch_size n
  | _, _ => ret tt
  end.

(** The statements of the [try] body before it. *)
Definition run_batch (validated_data batch : list item) (has_callback : bool)
  : M unit :=
  p <- get_self ;;
  when (batch_scope p) (connection_execute "BEGIN TRANSACTION") ;;;
  (* Execute batch operation *)
  result <- batch_operation batch ;;
  when (batch_scope p) (connection_execute "COMMIT") ;;;
  (* Update counters *)
  let batch_processed := inserted result + updated result in
  let batch_errors := errors result in
  t <- get_locals ;;
  put_locals (mkTotals (t_processed t + batch_processed)
                       (t_errors t + batch_errors) (t_batches t + 1)) ;;;
  (* Update performance metrics *)
  batch_processing_time <- clock_since ;;
  _update_performance_metrics (Z.of_nat (List.length batch))
                              batch_processing_time batch_processed
                              (batch_errors =? 0) ;;;
  (* Progress callback *)
  (if has_callback then
     t <- get_locals ;;
     p <- get_self ;;
     r <- lift (py_mod (t_batches t) (progress_callback_interval (config p))) ;;
     when (r =? 0)
          (call_progress
             (mkProgress (t_processed t)
                         (Z.of_nat (List.length validated_data))
                         (t_errors t) (t_batches t)
                         (Some (current_batch_size p)) false))
   else ret tt).

(** The body of the [try] statement for one batch. *)
Definition try_batch (validated_data batch : list item) (has_callback : bool)
  : M unit :=
  run_batch validated_data batch has_callback ;;;
  (* Auto-tune batch size based on performance *)
  auto_tune_step.

(** The [except Exception] handler for one batch. *)
Definition except_batch (batch : list item) (e : exn) : M unit :=
  p <- get_self ;;
  when (batch_scope p)
       (try_except (connection_execute "ROLLBACK") (fun _ => ret tt)) ;;;
  batch_processing_time <- clock_since ;;
  _update_performance_metrics (Z.of_nat (List.length batch))
                              batch_processing_time 0 false ;;;
  t <- get_locals ;;
  put_locals (mkTotals (t_processed t)
                       (t_errors t + Z.of_nat (List.length batch))
                       (t_batches t)).

(** The batch that starts at [batch_start]: its end uses the batch size
    current at that moment. *)
Definition batch_at (validated_data : list item) (p : processor)
    (batch_start : Z) : list item :=
  let batch_end := Z.min (batch_start + current_batch_size p)
                         (Z.of_nat (List.length validated_data)) in
  py_slice validated_data batch_start batch_end.

(** One pass of the [for batch_start in range(...)] loop. *)
Definition process_batch (validated_data : list item) (has_callback : bool)
    (batch_start : Z) : M unit :=
  p <- get_self ;;
  let batch := batch_at validated_data p batch_start in
  try_except (try_batch validated_data batch has_callback)
             (except_batch batch).

(** The [for] loop over the batch starts. *)
Fixpoint batches_loop (validated_data : list item) (has_callback : bool)
    (starts : list Z) : M unit :=
  match starts with
  | [] => ret tt
  | batch_start :: rest =>
      process_batch validated_data has_callback batch_start ;;;
      batches_loop validated_data has_callback rest
  end.

Definition empty_summary : summary := mkSummary 0 0 0 None.

(** [process_batches(data, operation_type, batch_operation, connection,
    progress_callback)]; the callables and the connection are those of
    the environment. *)
Definition process_batches (data : list item) (operation_type : string)
    (has_callback : bool) : M summary :=
  match data with
  | [] => ret empty_summary
  | _ :: _ =>
      p <- get_self ;;
      (* Validate input data *)
      let validated_data := _validate_batch_data (config p) data operation_type in
      match validated_data with
      | [] => ret empty_summary
      | _ :: _ =>
          put_locals (mkTotals 0 0 0) ;;;
          starts <- lift (py_range (Z.of_nat (List.length validated_data))
                                   (current_batch_size p)) ;;
          batches_loop validated_data has_callback starts ;;;
          total_time <- clock_since ;;
          t <- get_locals ;;
          (* Final progress update *)
          when has_callback
               (call_progress
                  (mkProgress (t_processed t)
                              (Z.of_nat (List.length validated_data))
                              (t_errors t) (t_batches t) None true)) ;;;
          rps <- (if (0 <? total_time)%float then
                    lift (PyFloat.int_div (t_processed t) total_time)
                  else ret 0%float) ;;
          p <- get_self ;;
          ret (mkSummary (t_processed t) (t_errors t) (t_batches t)
                 (Some (mkDetails total_time rps (current_batch_size p)
                          (match metrics p with
                           | Some m => auto_adjustments m
                           | None => 0
                           end))))
      end
  end.

End WithEnvironment.

(** A fresh world around a processor. *)
Definition start (p : processor) : world := mkWorld p (mkTotals 0 0 0) [].

(** ** [reset_metrics] *)

Definition reset_metrics : M unit :=
  p <- get_self ;;
  if negb (enable_monitoring p) then ret tt
  else
    put_self (mkProcessor (config p) (enable_monitoring p)
                (Some (new_metrics (current_batch_size p)))
                (current_batch_size p)
                (match performance_history p with
                 | Some (_ :: _) => Some []
                 | h => h
                 end)).

(** ** Stand-alone helpers *)

(** [create_batch_config(memory_limit_mb, performance_target, auto_tune)] *)
Definition create_batch_config (memory_limit_mb performance_target : float)
    (auto_tune : bool) : result BatchConfig :=
  match PyFloat.to_int (memory_limit_mb * 10)%float with
  | inl e => inl e
  | inr n =>
      let initial_batch_size := Z.max 50 (Z.min 10000 n) in
      inr (mkConfig initial_batch_size 50
                    (Z.min 10000 (initial_batch_size * 3))
                    memory_limit_mb performance_target auto_tune "batch"
                    (Z.max 1 (initial_batch_size / 100)) true)
  end.

(** [estimate_batch_size_for_dataset(dataset_size, available_memory_mb)] *)
Definition estimate_batch_size_for_dataset (dataset_size : Z)
    (available_memory_mb : float) : result Z :=
  let record_size_mb := 0.001%float in
  match PyFloat.div available_memory_mb record_size_mb with
  | inl e => inl e
  | inr q =>
      match PyFloat.to_int q with
      | inl e => inl e
      | inr max_batch_size =>
          let optimal_batch_size := Z.max 50 (Z.min 10000 max_batch_size) in
          inr (if 100000 <? dataset_size
               then Z.min optimal_batch_size 2000
               else optimal_batch_size)
      end
  end.

End BatchProcessor.

(* ===================================================================== *)
(** * Streaming a file into the database                                  *)
(* ===================================================================== *)

Module Streaming.
Import PyExn Watchful.
Local Open Scope Z_scope.

(** ** [stream_to_database] *)

(** What the streaming functions raise or let through. *)
Inductive failure : Type :=
| Builtin (e : exn)                     (* a built-in exception of [PyExn] *)
| FileNotFoundError
| JSONDecodeError
| KeyError
| External (tag : nat)                  (* any other exception of a library *)
| PostgresDatabaseError (cause : failure).

Section Streaming.

(** A decoded JSON value; the code only stores and counts them. *)
Variable obj : Type.

(** The calls that leave the function, in order. *)
Inductive call : Type :=
| Now                                   (* time.time() *)
| Connect                               (* PostgresDatabase(...) *)
| InsertPosts (batch : list obj)
| InsertComments (batch : list obj)
| CheckMemory                           (* processor.check_memory_usage() *)
| DatabaseInfo                          (* db.get_database_info() *)
| Cleanup.                              (* db.cleanup() *)

(** The answers of the outside world; those that may change from call to
    call depend on the number of calls made before.  [source] is what
    [read_lines_zst] yields for the file, lines with the position reported
    with each, and how the generator ends: by returning or by raising. *)
Record surroundings : Type := mkSurroundings {
  path_exists : bool;
  st_size : Z;
  source : list (text * Z) * option failure;
  loads : text -> failure + obj;
  clock : nat -> float;
  connect : option failure;
  insert_posts_batch : nat -> list obj -> failure + (Z * Z);
  insert_comments_batch : nat -> list obj -> failure + (Z * Z);
  check_memory_usage : nat -> option failure;
  db_size_mb : nat -> failure + float;
  cleanup : nat -> option failure;
}.

(** The statistics returned; [None] for the rate stands for the integer
    0 the code returns when no time has passed. *)
Record statistics : Type := mkStatistics {
  stat_records_processed : Z;
  stat_records_filtered : Z;
  stat_bad_lines : Z;
  stat_total_lines : Z;
  stat_database_size_mb : float;
  stat_processing_time : float;
  stat_records_per_second : option float;
}.

(** The local variables of the loop. *)
Record counters : Type := mkCounters {
  file_lines : Z;
  bad_lines : Z;
  records_processed : Z;
  records_filtered : Z;
  batch_records : list obj;
  last_progress_update : float;
}.

(** A computation that makes calls and returns or raises. *)
Definition IO (A : Type) : Type := list call -> (failure + A) * list call.

Definition io_ret {A} (a : A) : IO A := fun tr => (inr a, tr).
Definition io_raise {A} (e : failure) : IO A := fun tr => (inl e, tr).
Definition io_bind {A B} (m : IO A) (k : A -> IO B) : IO B :=
  fun tr => match m tr with
            | (inr a, tr') => k a tr'
            | (inl e, tr') => (inl e, tr')
            end.
(** Records a call and returns its position among the calls. *)
Definition io_call (c : call) : IO nat :=
  fun tr => (inr (List.length tr), (tr ++ [c])%list).
(** The result of built-in arithmetic. *)
Definition io_builtin {A} (r : result A) : IO A :=
  match r with inr a => io_ret a | inl e => io_raise (Builtin e) end.
Definition io_answer {A} (r : failure + A) : IO A :=
  match r with inr a => io_ret a | inl e => io_raise e end.
Definition io_check (r : option failure) : IO unit :=
  match r with Some e => io_raise e | None => io_ret tt end.

Declare Scope io_scope.
Delimit Scope io_scope with IO.
Notation "x <- m ;; k" := (io_bind m (fun x => k))
  (at level 61, m at next level, right associativity) : io_scope.
Notation "m ;;; k" := (io_bind m (fun _ => k))
  (at level 61, right associativity) : io_scope.
Local Open Scope io_scope.

Variable env : surroundings.

(** [time.time()] *)
Definition now : IO float := n <- io_call Now ;; io_ret (clock env n).

(** [_should_include_record(obj, filters, record_type)] *)
Definition _should_include_record (o : obj) (record_type : string) : bool :=
  true.

(** [_flush_batch_to_database(db, batch_records, record_type)]: its
    handler reports the exception and raises it again. *)
Definition _flush_batch_to_database (batch : list obj) (record_type : string)
  : IO unit :=
  if String.eqb record_type "posts" then
    n <- io_call (InsertPosts batch) ;;
    _ <- io_answer (insert_posts_batch env n batch) ;;
    io_ret tt
  else if String.eqb record_type "comments" then
    n <- io_call (InsertComments batch) ;;
    _ <- io_answer (insert_comments_batch env n batch) ;;
    io_ret tt
  else io_raise (Builtin (ValueError ("Invalid record_type: " ++ record_type))).

(** The [try] statement around [json.loads]: the object joins the batch,
    or the line is counted as bad. *)
Definition take_line (record_type : string) (line : text) (c : counters)
  : IO counters :=
  match loads env line with
  | inr o =>
      if _should_include_record o record_type then
        io_ret (mkCounters (file_lines c) (bad_lines c)
                           (records_processed c + 1) (records_filtered c)
                           (batch_records c ++ [o]) (last_progress_update c))
      else
        io_ret (mkCounters (file_lines c) (bad_lines c)
                           (records_processed c) (records_filtered c + 1)
                           (batch_records c) (last_progress_update c))
  | inl KeyError | inl JSONDecodeError =>
      io_ret (mkCounters (file_lines c) (bad_lines c + 1)
                         (records_processed c) (records_filtered c)
                         (batch_records c) (last_progress_update c))
  | inl e => io_raise e
  end.

(** [if len(batch_records) >= batch_size: ...] *)
Definition flush_when_full (record_type : string) (batch_size : Z)
    (has_processor : bool) (c : counters) : IO counters :=
  if batch_size <=? Z.of_nat (List.length (batch_records c)) then
    _flush_batch_to_database (batch_records c) record_type ;;;
    (if has_processor then
       n <- io_call CheckMemory ;; io_check (check_memory_usage env n)
     else io_ret tt) ;;;
    io_ret (mkCounters (file_lines c) (bad_lines c) (records_processed c)
                       (records_filtered c) [] (last_progress_update c))
  else io_ret c.

(** The progress report: what it computes can raise, what it prints is
    not modelled. *)
Definition report_progress (start_time : float) (file_bytes_processed : Z)
    (c : counters) : IO counters :=
  due <- (if file_lines c mod 10000 =? 0 then io_ret true
          else t <- now ;;
               io_ret (2 <? t - last_progress_update c)%float) ;;
  if due then
    _ <- io_builtin (PyFloat.int_truediv file_bytes_processed (st_size env)) ;;
    t <- now ;;
    (if (start_time <? t)%float then
       t' <- now ;;
       _ <- io_builtin (PyFloat.int_div (records_processed c)
                                        (t' - start_time)%float) ;;
       io_ret tt
     else io_ret tt) ;;;
    t'' <- now ;;
    io_ret (mkCounters (file_lines c) (bad_lines c) (records_processed c)
                       (records_filtered c) (batch_records c) t'')
  else io_ret c.

(** The [for line, file_bytes_processed in read_lines_zst(...)] loop over
    the lines the generator yields. *)
Fixpoint stream_lines (record_type : string) (batch_size : Z)
    (has_processor : bool) (start_time : float) (lines : list (text * Z))
    (c : counters) : IO counters :=
  match lines with
  | [] => io_ret c
  | (line, file_bytes_processed) :: rest =>
      c <- take_line record_type line c ;;
      let c := mkCounters (file_lines c + 1) (bad_lines c)
                          (records_processed c) (records_filtered c)
                          (batch_records c) (last_progress_update c) in
      c <- flush_when_full record_type batch_size has_processor c ;;
      c <- report_progress start_time file_bytes_processed c ;;
      stream_lines record_type batch_size has_processor start_time rest c
  end.

(** The body of the [try] statement. *)
Definition stream_body (record_type : string) (batch_size : Z)
    (has_processor : bool) (start_time : float) : IO statistics :=
  c <- stream_lines record_type batch_size has_processor start_time
                    (fst (source env))
                    (mkCounters 0 0 0 0 [] 0%float) ;;
  io_check (snd (source env)) ;;;
  (* Flush remaining batch *)
  (match batch_records c with
   | [] => io_ret tt
   | _ :: _ => _flush_batch_to_database (batch_records c) record_type
   end) ;;;
  (* Final statistics *)
  t <- now ;;
  let processing_time := (t - start_time)%float in
  n <- io_call DatabaseInfo ;;
  size <- io_answer (db_size_mb env n) ;;
  rate <- (if (0 <? processing_time)%float then
             q <- io_builtin (PyFloat.int_div (records_processed c)
                                              processing_time) ;;
             io_ret (Some q)
           else io_ret None) ;;
  io_ret (mkStatistics (records_processed c) (records_filtered c)
                       (bad_lines c) (file_lines c) size processing_time rate).

(** [stream_to_database(zst_file_path, connection_string, record_type,
    filters, batch_size, processor, db)]: [db_given] and [has_processor]
    say whether a database and a processor were passed.  The database
    object counts as true in [if should_close_db and db], it leaves the
    list it is handed as it is, and [os.stat] succeeds on a file that
    exists. *)
Definition stream_to_database (record_type : string) (batch_size : Z)
    (has_processor db_given : bool) : IO statistics :=
  start_time <- now ;;
  (* Validate inputs *)
  if negb (path_exists env) then io_raise FileNotFoundError
  else if negb (String.eqb record_type "posts"
                || String.eqb record_type "comments")
  then io_raise (Builtin (ValueError ("Invalid record_type: " ++ record_type
                                      ++ ". Must be 'posts' or 'comments'")))
  else
    let should_close_db := negb db_given in
    (if db_given then io_ret tt
     else _ <- io_call Connect ;; io_check (connect env)) ;;;
    fun tr =>
      (* try / except Exception / finally *)
      let (r, tr1) :=
        match stream_body record_type batch_size has_processor start_time tr
        with
        | (inr s, tr') => (inr s, tr')
        | (inl e, tr') => (inl (PostgresDatabaseError e), tr')
        end in
      if should_close_db then
        match cleanup env (List.length tr1) with
        | Some e => (inl e, (tr1 ++ [Cleanup])%list)
        | None => (r, (tr1 ++ [Cleanup])%list)
        end
      else (r, tr1).

End Streaming.

End Streaming.

(* ===================================================================== *)
(** * Properties of the SQL dump parser                                   *)
(* ===================================================================== *)

Module VoatSQLParserSpec.
Import PyStr PyNum VoatSQLParser.
Local Open Scope string_scope.

(** ** Field conversion *)

(** The token is the [NULL] keyword, in any letter case. *)
Definition is_null_keyword (v : string) : bool := String.eqb (upper v) "NULL".

(** The fixed attempt order: integer first, then float, else raw text. *)
Definition int_float_text (v : string) : value :=
  match py_int v with
  | Some n => VInt n
  | None => match py_float v with
            | Some f => VFloat f
            | None => VStr v
            end
  end.

Lemma parse_value_other (v : string) (q : bool) :
  is_null_keyword v = false -> v <> "" -> _parse_value v q = int_float_text v.
Proof.
  unfold _parse_value, is_null_keyword, int_float_text.
  intros -> Hne. destruct v as [|c r]; [congruence|]. reflexivity.
Qed.

(** C2, as the code has it.  [(1,'hello',NULL)] parses to
    [[1, 'hello', None]] and [(NULL,'',1)] to [[None, '', 1]]; the [NULL]
    keyword, in any letter case and quoted or not, and the unquoted empty
    token convert to null, a quoted empty token to the empty string, and
    any other token (neither the keyword nor empty) is converted by
    trying integer first, then float, else kept as raw text. *)
Theorem field_conversion_order :
  fst (_parse_values_tuple "(1,'hello',NULL)" 0) = [VInt 1; VStr "hello"; VNone]
  /\ fst (_parse_values_tuple "(NULL,'',1)" 0) = [VNone; VStr ""; VInt 1]
  /\ (forall v q, is_null_keyword v = true -> _parse_value v q = VNone)
  /\ _parse_value "" false = VNone
  /\ _parse_value "" true = VStr ""
  /\ (forall v q, is_null_keyword v = false -> v <> "" ->
        _parse_value v q = int_float_text v)
  /\ int_float_text "10" = VInt 10
  /\ int_float_text "10.0" = VFloat (FDec false 100 (-1))
  /\ int_float_text "2013-11-08" = VStr "2013-11-08".
Proof.
  repeat split; try reflexivity.
  - intros v q Hv. unfold _parse_value. unfold is_null_keyword in Hv.
    now rewrite Hv.
  - intros v q. apply parse_value_other.
Qed.

Lemma field_conversion_order_witness :
  _parse_value "null" true = VNone
  /\ _parse_value "-42" true = int_float_text "-42".
Proof.
  split.
  - apply (proj1 (proj2 (proj2 field_conversion_order)) "null" true).
    reflexivity.
  - apply (proj1 (proj2 (proj2 (proj2 (proj2 (proj2 field_conversion_order)))))
             "-42" true); [reflexivity | discriminate].
Defined.

(** C2 as stated fails: the quoted token ['NULL'] is neither the unquoted
    keyword nor empty, and trying integer, then float, else raw text
    would keep it as the text [NULL]; the parser returns null for it. *)
Lemma quoted_null_is_not_kept_as_text :
  int_float_text "NULL" = VStr "NULL"
  /\ _parse_value "NULL" true = VNone
  /\ fst (_parse_values_tuple "(1,'NULL')" 0) = [VInt 1; VNone].
Proof. repeat split. Qed.



(** ** Escapes *)

(** [src] is a way of writing the characters [lit] between the quotes of
    a string value: plain characters (any but the quote and the
    backslash), the escapes of the fixed table, and the doubled quote. *)
Inductive encodes : string -> string -> Prop :=
| enc_nil : encodes "" ""
| enc_plain c src lit :
    c <> "'"%char -> c <> "\"%char -> encodes src lit ->
    encodes (String c src) (String c lit)
| enc_escape e d src lit :
    ESCAPE_MAP e = Some d -> encodes src lit ->
    encodes (String "\" (String e src)) (String d lit)
| enc_doubled src lit :
    encodes src lit ->
    encodes (String "'" (String "'" src)) (String "'" lit).

(** The characters the table's escapes and the doubled quote stand for. *)
Definition escaped_char (c : ascii) : bool :=
  existsb (Ascii.eqb c)
          ["'"; "\"; "013"; "010"; "009"; "000"; "008"; "026"]%char.

Fixpoint has_char (p : ascii -> bool) (s : string) : bool :=
  match s with
  | String c r => p c || has_char p r
  | EmptyString => false
  end.

Lemma snoc_append (s : string) (c : ascii) (t : string) :
  snoc s c ++ t = s ++ String c t.
Proof. unfold snoc. induction s; simpl; congruence. Qed.

Lemma append_empty_r (s : string) : s ++ "" = s.
Proof. induction s; simpl; congruence. Qed.

Lemma append_assoc (a b c : string) : (a ++ b) ++ c = a ++ (b ++ c).
Proof. induction a; simpl; congruence. Qed.

Lemma length_append (a b : string) :
  String.length (a ++ b) = (String.length a + String.length b)%nat.
Proof. induction a; simpl; auto. Qed.

Section LoopSteps.
Variables (i len : nat) (values : list value) (current : string) (wq : bool).

Lemma step_plain (c : ascii) (rest : string) :
  c <> "'"%char -> c <> "\"%char ->
  parse_loop (String c rest) i len values current IN_STRING wq
  = parse_loop rest (S i) len values (snoc current c) IN_STRING wq.
Proof.
  intros Hq%Ascii.eqb_neq Hb%Ascii.eqb_neq. simpl. now rewrite Hb, Hq.
Qed.

Lemma step_escape (e : ascii) (rest : string) :
  parse_loop (String "\" (String e rest)) i len values current IN_STRING wq
  = parse_loop rest (S (S i)) len values (snoc current (unescape e))
               IN_STRING wq.
Proof. reflexivity. Qed.

Lemma step_doubled (rest : string) :
  parse_loop (String "'" (String "'" rest)) i len values current IN_STRING wq
  = parse_loop rest (S (S i)) len values (snoc current "'") IN_STRING wq.
Proof. reflexivity. Qed.

Lemma step_close (c : ascii) (tail : string) :
  c <> "'"%char ->
  parse_loop (String "'" (String c tail)) i len values current IN_STRING wq
  = parse_loop (String c tail) (S i) len values current OUTSIDE wq.
Proof.
  intros Hc%Ascii.eqb_neq.
  change (parse_loop (String "'" (String c tail)) i len values current
                     IN_STRING wq)
    with (if Ascii.eqb c "'"
          then parse_loop tail (S (S i)) len values (snoc current "'")
                          IN_STRING wq
          else parse_loop (String c tail) (S i) len values current
                          OUTSIDE wq).
  now rewrite Hc.
Qed.

End LoopSteps.

(** From inside a string, the loop decodes [src] into the accumulator and
    leaves the string at the closing quote. *)
Lemma parse_loop_decodes (src lit : string) :
  encodes src lit ->
  forall (c : ascii) (tail : string) i len values current wq,
    c <> "'"%char ->
    parse_loop (src ++ String "'" (String c tail)) i len values current
               IN_STRING wq
    = parse_loop (String c tail) (i + String.length src + 1) len values
                 (current ++ lit) OUTSIDE wq.
Proof.
  induction 1 as [|a src lit Hq Hb _ IH|e d src lit He _ IH|src lit _ IH];
    intros c tail i len values current wq Hc; cbn [append String.length].
  - rewrite step_close by assumption. rewrite append_empty_r.
    now replace (i + 0 + 1)%nat with (S i) by lia.
  - rewrite step_plain by assumption. rewrite IH by assumption.
    rewrite snoc_append.
    now replace (S i + String.length src + 1)%nat
      with (i + S (String.length src) + 1)%nat by lia.
  - rewrite step_escape. rewrite IH by assumption.
    unfold unescape. rewrite He. rewrite snoc_append.
    now replace (S (S i) + String.length src + 1)%nat
      with (i + S (S (String.length src)) + 1)%nat by lia.
  - rewrite step_doubled. rewrite IH by assumption. rewrite snoc_append.
    now replace (S (S i) + String.length src + 1)%nat
      with (i + S (S (String.length src)) + 1)%nat by lia.
Qed.

(** *** A token holding an escaped character is text *)

Lemma escaped_char_cases (c : ascii) :
  escaped_char c = true ->
  In c ["'"; "\"; "013"; "010"; "009"; "000"; "008"; "026"]%char.
Proof.
  unfold escaped_char. rewrite existsb_exists.
  intros [x [Hin Heq]]. apply Ascii.eqb_eq in Heq. now subst.
Qed.

Section StripFacts.
Variable sp : ascii -> bool.

Lemma lstrip_with_length (s : string) :
  (String.length (lstrip_with sp s) <= String.length s)%nat.
Proof. induction s; simpl; [lia|]. destruct (sp a); simpl; lia. Qed.

Lemma rstrip_with_length (s : string) :
  (String.length (rstrip_with sp s) <= String.length s)%nat.
Proof.
  induction s as [|c r IH]; simpl; [lia|].
  destruct (rstrip_with sp r); simpl in *; [destruct (sp c); simpl; lia|lia].
Qed.

Lemma lstrip_with_fixed (s : string) :
  String.length (lstrip_with sp s) = String.length s -> lstrip_with sp s = s.
Proof.
  destruct s as [|c r]; simpl; [auto|].
  destruct (sp c); [|auto].
  pose proof (lstrip_with_length r). lia.
Qed.

(** A string the stripping leaves alone neither begins nor ends with a
    character that [sp] accepts. *)
Fixpoint clean_end (s : string) : bool :=
  match s with
  | EmptyString => true
  | String c EmptyString => negb (sp c)
  | String _ r => clean_end r
  end.

Definition clean_start (s : string) : bool :=
  match s with String c _ => negb (sp c) | EmptyString => true end.

Lemma rstrip_with_clean (s : string) :
  rstrip_with sp s = s -> clean_end s = true.
Proof.
  induction s as [|c r IH]; [reflexivity|].
  simpl. destruct (rstrip_with sp r) as [|c' r'] eqn:Hr.
  - destruct (sp c) eqn:Hc; [discriminate|].
    intros [= <-]. reflexivity.
  - intros [= <-]. apply IH. reflexivity.
Qed.

Lemma clean_rstrip_with (s : string) :
  clean_end s = true -> rstrip_with sp s = s.
Proof.
  induction s as [|c r IH]; [reflexivity|].
  simpl. destruct r as [|c' r'].
  - simpl. now intros ->%negb_true_iff.
  - intros H. rewrite (IH H). reflexivity.
Qed.

Lemma strip_with_fixed (s : string) :
  strip_with sp s = s -> clean_start s = true /\ clean_end s = true.
Proof.
  unfold strip_with. intros H.
  assert (Hl : lstrip_with sp s = s).
  { apply lstrip_with_fixed.
    pose proof (rstrip_with_length (lstrip_with sp s)).
    pose proof (lstrip_with_length s). rewrite H in *. lia. }
  rewrite Hl in H. split; [|now apply rstrip_with_clean].
  destruct s as [|c r]; [reflexivity|].
  simpl in *. destruct (sp c); [|reflexivity].
  pose proof (lstrip_with_length r). rewrite Hl in *. simpl in *. lia.
Qed.

Lemma clean_strip_with (s : string) :
  clean_start s = true -> clean_end s = true -> strip_with sp s = s.
Proof.
  intros Hs He. unfold strip_with.
  replace (lstrip_with sp s) with s; [now apply clean_rstrip_with|].
  destruct s as [|c r]; [reflexivity|]. simpl in *.
  now apply negb_true_iff in Hs as ->.
Qed.

End StripFacts.

Lemma clean_end_weaken (sp sp' : ascii -> bool) (s : string) :
  (forall c, sp' c = true -> sp c = true) ->
  clean_end sp s = true -> clean_end sp' s = true.
Proof.
  intros Hsub. induction s as [|c r IH]; [reflexivity|].
  simpl. destruct r; [|exact IH].
  intros H%negb_true_iff. apply negb_true_iff.
  destruct (sp' c) eqn:E; [apply Hsub in E; congruence|reflexivity].
Qed.

Lemma num_space_isspace (c : ascii) : num_space c = true -> isspace c = true.
Proof.
  unfold num_space, isspace. intros H.
  repeat (apply orb_true_iff in H; destruct H as [H|H]).
  - rewrite H. reflexivity.
  - apply N.eqb_eq in H. rewrite H. reflexivity.
  - rewrite H. repeat rewrite orb_true_r. reflexivity.
  - rewrite H. repeat rewrite orb_true_r. reflexivity.
Qed.

(** What [strip] leaves alone, the numeric conversions do not trim. *)
Lemma strip_fixed_num_strip (s : string) : strip s = s -> num_strip s = s.
Proof.
  intros H. apply strip_with_fixed in H as [Hs He].
  apply clean_strip_with.
  - destruct s as [|c r]; [reflexivity|]. simpl in *.
    apply negb_true_iff in Hs. apply negb_true_iff.
    destruct (num_space c) eqn:E; [apply num_space_isspace in E; congruence|auto].
  - eapply clean_end_weaken; [apply num_space_isspace | exact He].
Qed.

(** Every character of a string that [int()] accepts is a digit, an
    underscore or a sign. *)
Definition int_char (c : ascii) : bool :=
  is_digit c || Ascii.eqb c "_" || Ascii.eqb c "-" || Ascii.eqb c "+".

(** Every character of a string that [float()] accepts is one of these or
    a point or an ASCII letter. *)
Definition float_char (c : ascii) : bool :=
  int_char c || Ascii.eqb c "." || is_ascii_lower c || is_ascii_upper c.

Fixpoint all_chars (p : ascii -> bool) (s : string) : bool :=
  match s with
  | String c r => p c && all_chars p r
  | EmptyString => true
  end.

Lemma all_chars_weaken (p q : ascii -> bool) (s : string) :
  (forall c, p c = true -> q c = true) ->
  all_chars p s = true -> all_chars q s = true.
Proof.
  intros Hpq. induction s as [|c r IH]; simpl; [auto|].
  intros [Hc Hr]%andb_true_iff. rewrite (Hpq _ Hc), (IH Hr). reflexivity.
Qed.

Lemma all_chars_has_char (p q : ascii -> bool) (s : string) :
  (forall c, q c = true -> p c = false) ->
  has_char q s = true -> all_chars p s = false.
Proof.
  intros Hqp. induction s as [|c r IH]; simpl; [discriminate|].
  intros [Hc|Hr]%orb_true_iff.
  - now rewrite (Hqp _ Hc).
  - rewrite (IH Hr). apply andb_false_r.
Qed.

Lemma digits_us_chars (s : string) :
  forall prev acc cnt r,
    digits_us s prev acc cnt = Some r -> all_chars int_char s = true.
Proof.
  induction s as [|c t IH]; intros prev acc cnt r; simpl; [auto|].
  unfold int_char at 1.
  destruct (is_digit c) eqn:Hd; simpl.
  - apply IH.
  - destruct (Ascii.eqb c "_") eqn:Hu; [|discriminate]. simpl.
    destruct prev; [apply IH|discriminate].
Qed.

Lemma split_sign_chars (p : ascii -> bool) (s : string) :
  p "-"%char = true -> p "+"%char = true ->
  all_chars p (snd (split_sign s)) = true -> all_chars p s = true.
Proof.
  intros Hm Hp. destruct s as [|c r]; [auto|]. simpl.
  destruct (Ascii.eqb_spec c "-") as [->|]; [simpl; now rewrite Hm|].
  destruct (Ascii.eqb_spec c "+") as [->|]; [simpl; now rewrite Hp|].
  auto.
Qed.

Lemma py_int_chars (s : string) (n : Z) :
  py_int s = Some n -> all_chars int_char (num_strip s) = true.
Proof.
  unfold py_int. destruct (split_sign (num_strip s)) as [neg body] eqn:Hs.
  destruct (digits_us body false 0 0) as [[v cnt]|] eqn:Hd; [|discriminate].
  intros _. apply split_sign_chars; try reflexivity.
  rewrite Hs. simpl. eapply digits_us_chars; eauto.
Qed.

Lemma take_digits_chars (s : string) :
  forall acc cnt n k r,
    take_digits s acc cnt = (n, k, r) ->
    forall p, (forall c, is_digit c = true -> p c = true) ->
              all_chars p r = true -> all_chars p s = true.
Proof.
  induction s as [|c t IH]; intros acc cnt n k r; simpl.
  - intros [= _ _ <-]. auto.
  - destruct (is_digit c) eqn:Hd.
    + intros H p Hp Hr. rewrite (Hp _ Hd). simpl. eapply IH; eauto.
    + intros [= _ _ <-]. auto.
Qed.

Lemma float_char_digit (c : ascii) : is_digit c = true -> float_char c = true.
Proof. unfold float_char, int_char. now intros ->. Qed.

Lemma parse_exponent_chars (s : string) (e : Z) :
  parse_exponent s = Some e -> all_chars float_char s = true.
Proof.
  unfold parse_exponent. destruct s as [|c r]; [reflexivity|].
  destruct (Ascii.eqb c "e" || Ascii.eqb c "E") eqn:He; [|discriminate].
  destruct (split_sign r) as [neg ds] eqn:Hs.
  destruct (take_digits ds 0 0) as [[n k] rest] eqn:Ht.
  destruct k; [discriminate|]. destruct rest; [|discriminate].
  intros _. simpl. apply andb_true_iff. split.
  - apply orb_true_iff in He as [He|He]; apply Ascii.eqb_eq in He;
      subst; reflexivity.
  - apply split_sign_chars; try reflexivity. rewrite Hs. simpl.
    eapply take_digits_chars; eauto using float_char_digit.
Qed.

Lemma parse_decimal_chars (s : string) (r : N * Z) :
  parse_decimal s = Some r -> all_chars float_char s = true.
Proof.
  unfold parse_decimal.
  destruct (take_digits s 0 0) as [[ip ni] r1] eqn:H1.
  destruct (match r1 with
            | String c r => if Ascii.eqb c "." then take_digits r ip 0
                            else (ip, O, r1)
            | EmptyString => (ip, O, r1)
            end) as [[m nf] r2] eqn:H2.
  destruct (ni + nf)%nat; [discriminate|].
  destruct (parse_exponent r2) as [e|] eqn:He; [|discriminate].
  intros _. apply parse_exponent_chars in He.
  eapply take_digits_chars; eauto using float_char_digit.
  destruct r1 as [|c t]; [now inversion H2; subst|].
  destruct (Ascii.eqb_spec c ".") as [->|].
  - simpl. eapply take_digits_chars; eauto using float_char_digit.
  - now inversion H2; subst.
Qed.

Lemma strip_underscores_chars (s : string) :
  forall prev t,
    strip_underscores s prev = Some t ->
    all_chars float_char t = true -> all_chars float_char s = true.
Proof.
  induction s as [|c r IH]; intros prev t; simpl; [auto|].
  destruct (Ascii.eqb_spec c "_") as [->|Hc].
  - destruct prev as [p|]; [|discriminate].
    destruct (is_digit p); [|discriminate]. simpl. apply IH.
  - destruct (_ && _); [discriminate|].
    destruct (strip_underscores r (Some c)) as [t'|] eqn:Hr; [|discriminate].
    intros [= <-]. simpl. intros [Hc' Ht]%andb_true_iff.
    rewrite Hc'. simpl. eapply IH; eauto.
Qed.

Lemma lower_char_letter (c : ascii) :
  is_ascii_lower (lower_char c) = true ->
  is_ascii_lower c || is_ascii_upper c = true.
Proof.
  destruct c as [[] [] [] [] [] [] [] []]; vm_compute; auto.
Qed.

Lemma lower_letters (s : string) :
  all_chars is_ascii_lower (lower s) = true -> all_chars float_char s = true.
Proof.
  induction s as [|c r IH]; simpl; [auto|].
  intros [Hc Hr]%andb_true_iff. rewrite (IH Hr), andb_true_r.
  unfold float_char. apply lower_char_letter in Hc.
  rewrite <- orb_assoc, Hc. apply orb_true_r.
Qed.

Lemma py_float_chars (s : string) (f : float_lit) :
  py_float s = Some f -> all_chars float_char (num_strip s) = true.
Proof.
  unfold py_float.
  destruct (strip_underscores (num_strip s) None) as [t|] eqn:Hu; [|discriminate].
  destruct (split_sign t) as [neg body] eqn:Hs.
  intros H. eapply strip_underscores_chars; eauto.
  apply split_sign_chars; try reflexivity. rewrite Hs. simpl.
  destruct (String.eqb_spec (lower body) "inf") as [E|_];
    [apply lower_letters; now rewrite E|].
  destruct (String.eqb_spec (lower body) "infinity") as [E|_];
    [apply lower_letters; now rewrite E|].
  simpl in H.
  destruct (String.eqb_spec (lower body) "nan") as [E|_];
    [apply lower_letters; now rewrite E|].
  destruct (parse_decimal body) as [[m e]|] eqn:Hd; [|discriminate].
  eapply parse_decimal_chars; eauto.
Qed.

Lemma escaped_not_float_char (c : ascii) :
  escaped_char c = true -> float_char c = false.
Proof.
  intros H%escaped_char_cases. simpl in H.
  repeat (destruct H as [<-|H]; [reflexivity|]). destruct H.
Qed.

Lemma escaped_not_int_char (c : ascii) :
  escaped_char c = true -> int_char c = false.
Proof.
  intros H%escaped_char_cases. simpl in H.
  repeat (destruct H as [<-|H]; [reflexivity|]). destruct H.
Qed.

Lemma upper_keeps_escaped (s : string) :
  has_char escaped_char s = true -> has_char escaped_char (upper s) = true.
Proof.
  induction s as [|c r IH]; simpl; [auto|].
  intros [Hc|Hr]%orb_true_iff.
  - apply escaped_char_cases in Hc. simpl in Hc.
    repeat (destruct Hc as [<-|Hc]; [reflexivity|]). destruct Hc.
  - specialize (IH Hr).
    repeat match goal with
           | |- context [if ?b then _ else _] => destruct b
           end; simpl; rewrite IH; repeat rewrite orb_true_r; reflexivity.
Qed.

(** A token with an escaped character in it that [strip] leaves alone is
    neither [NULL] nor a number: it converts to itself. *)
Lemma escaped_token_is_text (lit : string) (q : bool) :
  has_char escaped_char lit = true -> strip lit = lit ->
  _parse_value lit q = VStr lit.
Proof.
  intros Hesc Hstrip. unfold _parse_value.
  destruct (String.eqb_spec (upper lit) "NULL") as [E|_].
  { apply upper_keeps_escaped in Hesc. rewrite E in Hesc. discriminate. }
  destruct lit as [|c r]; [discriminate|]. cbn [is_empty andb].
  pose proof (strip_fixed_num_strip _ Hstrip) as Hnum.
  destruct (py_int (String c r)) as [n|] eqn:Hi.
  { apply py_int_chars in Hi. rewrite Hnum in Hi.
    rewrite (all_chars_has_char int_char escaped_char _
               escaped_not_int_char Hesc) in Hi. discriminate. }
  destruct (py_float (String c r)) as [f|] eqn:Hf.
  { apply py_float_chars in Hf. rewrite Hnum in Hf.
    rewrite (all_chars_has_char float_char escaped_char _
               escaped_not_float_char Hesc) in Hf. discriminate. }
  reflexivity.
Qed.

(** The source text [don\'t\\''\n.] and the characters it denotes. *)
Definition sample_src : string := "don\'t\\''\n.".
Definition sample_lit : string :=
  "don't\'" ++ String "010" ".".

Lemma sample_encodes : encodes sample_src sample_lit.
Proof.
  unfold sample_src, sample_lit. simpl.
  repeat first
    [ apply enc_nil
    | apply enc_doubled
    | (apply enc_escape; [reflexivity|])
    | (apply enc_plain; [discriminate|discriminate|]) ].
Defined.

(** C1 as stated fails: the value ['a\n'] denotes the two characters [a]
    and line feed, and the parser returns the one-character string [a]. *)
Lemma trailing_escape_is_stripped :
  encodes "a\n" (String "a" (String "010" ""))
  /\ fst (_parse_values_tuple "('a\n')" 0) = [VStr "a"]
  /\ String.eqb "a" (String "a" (String "010" "")) = false.
Proof.
  repeat split.
  apply enc_plain; [discriminate|discriminate|].
  apply enc_escape; [reflexivity|]. apply enc_nil.
Qed.

(** ** Unknown tables *)

Lemma column_maps_known (t : string) :
  COLUMN_MAPS t = None <-> (t <> "submission" /\ t <> "comment").
Proof.
  unfold COLUMN_MAPS.
  destruct (String.eqb_spec t "submission") as [->|H1].
  - split; [discriminate | intros [H _]; congruence].
  - destruct (String.eqb_spec t "comment") as [->|H2].
    + split; [discriminate | intros [_ H]; congruence].
    + split; auto.
Qed.

(** C9.  For a table name that is not one of the two known ones the
    generator raises [ValueError] with no row yielded and no file opened;
    for the two known names it never raises that error. *)
Theorem unknown_table_fails_fast
    (float_repr : float_lit -> string) (fuel : nat) (fs : string -> gz_file)
    (file_path table_name : string) (filter_subverses : option (list string)) :
  let r := stream_rows float_repr fuel fs file_path table_name filter_subverses in
  (table_name <> "submission" -> table_name <> "comment" ->
     rows r = [] /\ opened r = [] /\
     exists msg, ended r = Raised (PyExn.ValueError msg))
  /\ (table_name = "submission" \/ table_name = "comment" ->
      forall msg, ended r <> Raised (PyExn.ValueError msg)).
Proof.
  cbv zeta. unfold stream_rows, stream_rows_with. split.
  - intros H1 H2.
    destruct (proj2 (column_maps_known table_name) (conj H1 H2)).
    replace (COLUMN_MAPS table_name) with (@None (list string))
      by (symmetry; apply column_maps_known; auto).
    simpl. eauto.
  - intros Hk msg.
    assert (exists cols, COLUMN_MAPS table_name = Some cols) as [cols ->]
      by (destruct Hk as [-> | ->]; eexists; reflexivity).
    destruct (fs file_path) as [|lines truncated]; [simpl; discriminate|].
    destruct lines as [|l ls]; [destruct truncated; [simpl; discriminate|]|].
    all: match goal with
         | |- context [lines_loop ?a ?b ?c ?d ?e ?f ?g ?h ?i] =>
             destruct (lines_loop a b c d e f g h i) as [[k|] st]
         end; try destruct truncated; simpl; discriminate.
Qed.

Lemma unknown_table_fails_fast_witness :
  let r := stream_rows (fun _ => "") 10 (fun _ => GzLines [] false)
                       "dump.sql.gz" "users" None in
  rows r = [] /\ opened r = [] /\
  exists msg, ended r = Raised (PyExn.ValueError msg).
Proof.
  apply (proj1 (unknown_table_fails_fast (fun _ => "") 10
                  (fun _ => GzLines [] false) "dump.sql.gz" "users" None));
    discriminate.
Defined.

(** ** The community filter *)

Definition state_of (s : step) : gen_state :=
  match s with Continue st => st | Break st => st end.

Lemma yielded_end_of_buffer_checks (st : gen_state) :
  yielded (state_of (end_of_buffer_checks st)) = yielded st.
Proof.
  unfold end_of_buffer_checks.
  repeat match goal with
         | |- context [if ?b then _ else _] => destruct b
         end; reflexivity.
Qed.

Section Filter.

Variable float_repr : float_lit -> string.
Variable quick : string -> nat -> nat -> PyExn.result (option value).

(** The community value matches the allow-list, letter case aside. *)
Definition matches (filter_lower : list string) (v : value) : bool :=
  str_in (lower (py_str float_repr v)) filter_lower.

(** The row is the zip of the columns with the values of a full tuple
    parse, and the community value of that parse is empty or matches. *)
Definition confirmed_by_full_parse (columns : list string) (idx : nat)
    (filter_lower : list string) (r : row) : Prop :=
  exists buf pos,
    let values := fst (_parse_values_tuple buf pos) in
    r = combine columns values
    /\ List.length values = List.length columns
    /\ (truthy (nth idx values VNone) = false
        \/ matches filter_lower (nth idx values VNone) = true).

Variables (columns : list string) (idx : nat) (f : string) (fl : list string).

Let P := confirmed_by_full_parse columns idx (f :: fl).

Lemma not_excluded (v : value) :
  excluded float_repr (f :: fl) v = false ->
  truthy v = false \/ matches (f :: fl) v = true.
Proof.
  unfold excluded, matches. destruct (truthy v); [|auto].
  destruct (str_in _ _); [auto | discriminate].
Qed.

Lemma tuple_step_keeps_confirmed (st : gen_state) :
  Forall P (yielded st) ->
  Forall P (yielded (state_of
    (tuple_step float_repr quick columns (Some idx) (Some (f :: fl)) st))).
Proof.
  intros Hst. unfold tuple_step.
  destruct (find (buffer st) "(" 0) as [paren_start|]; [|exact Hst].
  assert (Hfull : Forall P (yielded (state_of (
    let (values, end_pos) := _parse_values_tuple (buffer st) paren_start in
    match values with
    | [] => end_of_buffer_checks st
    | _ :: _ =>
        if in_split_format st
           && (List.length values <? List.length columns)%nat
        then Break (set_accumulating st true)
        else if (List.length values =? List.length columns)%nat then
          if excluded float_repr (f :: fl) (nth idx values VNone) then
            end_of_buffer_checks
              (set_buffer (incr_skipped st) (drop end_pos (buffer st)))
          else
            end_of_buffer_checks
              (set_split
                 (set_accumulating
                    (set_buffer (yield_row st (combine columns values))
                                (drop end_pos (buffer st))) false) false)
        else
          end_of_buffer_checks
            (set_buffer (incr_errors st) (drop end_pos (buffer st)))
    end)))).
  { destruct (_parse_values_tuple (buffer st) paren_start)
      as [values end_pos] eqn:Hparse.
    destruct values as [|v0 vs].
    - now rewrite yielded_end_of_buffer_checks.
    - destruct (in_split_format st && _); [exact Hst|].
      destruct (Nat.eqb_spec (List.length (v0 :: vs)) (List.length columns))
        as [Hlen|Hlen].
      + destruct (excluded float_repr (f :: fl) (nth idx (v0 :: vs) VNone))
          eqn:Hex; rewrite yielded_end_of_buffer_checks; simpl; [exact Hst|].
        apply Forall_app. split; [exact Hst|].
        constructor; [|constructor].
        exists (buffer st), paren_start. rewrite Hparse. simpl fst.
        repeat split; auto using not_excluded.
      + now rewrite yielded_end_of_buffer_checks. }
  destruct (quick (buffer st) paren_start idx) as [e|[v|]]; try exact Hfull.
  destruct (excluded float_repr (f :: fl) v); [|exact Hfull].
  destruct (_parse_values_tuple (buffer st) paren_start) as [values end_pos].
  now rewrite yielded_end_of_buffer_checks.
Qed.

Lemma tuples_loop_keeps_confirmed (fuel : nat) (st : gen_state) :
  Forall P (yielded st) ->
  Forall P (yielded (snd
    (tuples_loop float_repr quick fuel columns (Some idx) (Some (f :: fl)) st))).
Proof.
  revert st. induction fuel as [|fuel IH]; intros st Hst; simpl; [exact Hst|].
  pose proof (tuple_step_keeps_confirmed st Hst) as Hstep.
  destruct (tuple_step _ _ _ _ _ st) as [st'|st']; simpl in *; auto.
Qed.

Lemma line_dispatch_yielded (table_name line : string) (st st' : gen_state) :
  line_dispatch table_name line st = Some st' -> yielded st' = yielded st.
Proof.
  unfold line_dispatch.
  repeat match goal with
         | |- context [if ?b then _ else _] => destruct b
         | |- context [match ?o with Some _ => _ | None => _ end] => destruct o
         end; intros H; inversion H; reflexivity.
Qed.

Lemma lines_loop_keeps_confirmed (table_name : string) (lines : list string) :
  forall (fuel : nat) (st : gen_state),
  Forall P (yielded st) ->
  Forall P (yielded (snd
    (lines_loop float_repr quick fuel table_name columns (Some idx)
                (Some (f :: fl)) lines st))).
Proof.
  induction lines as [|line more IH]; intros fuel st Hst; simpl; [exact Hst|].
  destruct (line_dispatch table_name line st) as [st1|] eqn:Hd; [|auto].
  apply line_dispatch_yielded in Hd.
  assert (H1 : Forall P (yielded st1)) by now rewrite Hd.
  destruct (is_empty (buffer st1)); [auto|].
  pose proof (tuples_loop_keeps_confirmed fuel st1 H1) as H2.
  destruct (tuples_loop _ _ _ _ _ _ st1) as [[fuel'|] st2]; simpl in *; auto.
Qed.

End Filter.

Lemma known_columns (t : string) (cols : list string) :
  COLUMN_MAPS t = Some cols ->
  exists idx, index_of "subverse" cols = Some idx.
Proof.
  unfold COLUMN_MAPS.
  destruct (String.eqb t "submission"); [intros [= <-]; now eexists|].
  destruct (String.eqb t "comment"); [intros [= <-]; now eexists|discriminate].
Qed.

(** C7, as the code has it.  With a non-empty allow-list, every row that
    [stream_rows] yields is the zip of the table's columns with the values
    of a full tuple parse whose community value is empty (null, zero or
    the empty string) or matches the allow-list without regard to case.
    This holds whatever the partial-field extraction of the fast path
    returns: it cannot make the generator keep a row that this check on
    the full parse excludes. *)
Theorem kept_rows_pass_full_parse
    (float_repr : float_lit -> string)
    (quick : string -> nat -> nat -> PyExn.result (option value))
    (fuel : nat) (fs : string -> gz_file) (file_path table_name : string)
    (filter_subverses : list string) (r : row) :
  filter_subverses <> [] ->
  In r (rows (stream_rows_with float_repr quick fuel fs file_path table_name
                               (Some filter_subverses))) ->
  exists columns idx,
    COLUMN_MAPS table_name = Some columns
    /\ index_of "subverse" columns = Some idx
    /\ confirmed_by_full_parse float_repr columns idx
                               (map lower filter_subverses) r.
Proof.
  intros Hne. unfold stream_rows_with.
  destruct (COLUMN_MAPS table_name) as [columns|] eqn:Hcols; [|intros []].
  destruct (known_columns _ _ Hcols) as [idx Hidx]. rewrite Hidx.
  destruct filter_subverses as [|f fl]; [congruence|].
  intros Hin. exists columns, idx. repeat split; auto.
  revert Hin.
  destruct (fs file_path) as [|lines truncated]; [intros []|].
  assert (Hall : Forall (confirmed_by_full_parse float_repr columns idx
                           (map lower (f :: fl)))
                 (yielded (snd (lines_loop float_repr quick fuel table_name
                      columns (Some idx) (Some (map lower (f :: fl))) lines
                      initial_state)))).
  { apply lines_loop_keeps_confirmed. constructor. }
  rewrite Forall_forall in Hall.
  destruct lines as [|l ls]; [destruct truncated; [intros []|]|];
    destruct (lines_loop _ _ _ _ _ _ _ _ _) as [[k|] st];
    simpl in *; auto.
Qed.

(** A comment row whose community is [NULL], in a one-line dump. *)
Definition null_community_dump : gz_file :=
  GzLines
    ["INSERT INTO `comment` VALUES (5,'x','2013-11-20 17:43:00',0,'<p>x</p>',0,0,0,0,0,0,0,NULL,0,73,NULL,1,1,'Atko',0,4,'2020-02-07 01:49:36');"]
    false.

Lemma kept_rows_pass_full_parse_witness :
  exists columns idx,
    COLUMN_MAPS "comment" = Some columns
    /\ index_of "subverse" columns = Some idx
    /\ confirmed_by_full_parse (fun _ => "") columns idx (map lower ["TODO"])
         (combine comment_columns
            (fst (_parse_values_tuple
               " (5,'x','2013-11-20 17:43:00',0,'<p>x</p>',0,0,0,0,0,0,0,NULL,0,73,NULL,1,1,'Atko',0,4,'2020-02-07 01:49:36');" 1))).
Proof.
  apply (kept_rows_pass_full_parse (fun _ => "") _quick_extract_field 5
           (fun _ => null_community_dump) "comment.sql.gz" "comment" ["TODO"]).
  - discriminate.
  - vm_compute. left. reflexivity.
Defined.

(** C7 as stated fails: with the allow-list [["todo"]] the row whose
    community is [NULL] is yielded, although [None] does not match the
    list.  This holds for every float printer, none being consulted. *)
Lemma null_community_row_is_kept :
  (fun fr => map (fun r => nth 15 r ("", VNone))
               (rows (stream_rows fr 5 (fun _ => null_community_dump)
                        "comment.sql.gz" "comment" (Some ["todo"]))))
  = (fun _ => [("subverse", VNone)])
  /\ (fun fr => matches fr ["todo"] VNone) = (fun _ => false).
Proof. split; vm_compute; reflexivity. Qed.

End VoatSQLParserSpec.

(* ===================================================================== *)
(** * Properties of the streaming reader                                  *)
(* ===================================================================== *)

Module WatchfulSpec.
Import PyExn Watchful.
Local Open Scope N_scope.

(** ** Reading from the stream *)

Lemma take_skip (n : N) (l : list Byte.byte) : (take n l ++ skip n l)%list = l.
Proof.
  revert n. induction l as [|b r IH]; intros n; simpl; [reflexivity|].
  destruct (n =? 0); simpl; [reflexivity|]. now rewrite IH.
Qed.

Lemma take_0 (l : list Byte.byte) : take 0 l = [].
Proof. destruct l; reflexivity. Qed.

Lemma skip_0 (l : list Byte.byte) : skip 0 l = l.
Proof. destruct l; reflexivity. Qed.

Lemma take_add (a b : N) (l : list Byte.byte) :
  take (a + b) l = (take a l ++ take b (skip a l))%list.
Proof.
  revert a. induction l as [|x r IH]; intros a; simpl; [reflexivity|].
  destruct (N.eqb_spec a 0) as [->|Ha].
  - simpl. reflexivity.
  - destruct (N.eqb_spec (a + b) 0) as [E|_]; [lia|].
    simpl. f_equal.
    replace (N.pred (a + b)) with (N.pred a + b) by lia. apply IH.
Qed.

Lemma skip_add (a b : N) (l : list Byte.byte) :
  skip (a + b) l = skip b (skip a l).
Proof.
  revert a. induction l as [|x r IH]; intros a; simpl.
  - destruct b; reflexivity.
  - destruct (N.eqb_spec a 0) as [->|Ha]; [reflexivity|].
    destruct (N.eqb_spec (a + b) 0) as [E|_]; [lia|].
    replace (N.pred (a + b)) with (N.pred a + b) by lia. apply IH.
Qed.

Lemma take_nil_inv (n : N) (l : list Byte.byte) :
  0 < n -> take n l = [] -> l = [].
Proof.
  destruct l as [|b r]; [reflexivity|]. simpl.
  destruct (N.eqb_spec n 0); [lia|discriminate].
Qed.

Lemma skip_length (n : N) (l : list Byte.byte) :
  0 < n -> l <> [] -> (List.length (skip n l) < List.length l)%nat.
Proof.
  intros Hn Hl. destruct l as [|b r]; [congruence|]. simpl.
  destruct (N.eqb_spec n 0); [lia|].
  assert (H : forall m k, (List.length (skip m k) <= List.length k)%nat).
  { intros m k. revert m. induction k as [|y k IH]; intros m; simpl; [lia|].
    destruct (m =? 0); simpl; [lia|]. specialize (IH (N.pred m)). lia. }
  specialize (H (N.pred n) r). lia.
Qed.

(** ** Decoding *)

Lemma decode_cons (b0 : Byte.byte) (r0 : list Byte.byte) :
  decode (b0 :: r0) =
  let n0 := Byte.to_N b0 in
  if n0 <? 128 then option_map (cons n0) (decode r0)
  else if n0 <? 224 then
    match r0 with
    | b1 :: r1 =>
        match seq2 n0 (Byte.to_N b1) with
        | Some c => option_map (cons c) (decode r1)
        | None => None
        end
    | _ => None
    end
  else if n0 <? 240 then
    match r0 with
    | b1 :: b2 :: r2 =>
        match seq3 n0 (Byte.to_N b1) (Byte.to_N b2) with
        | Some c => option_map (cons c) (decode r2)
        | None => None
        end
    | _ => None
    end
  else
    match r0 with
    | b1 :: b2 :: b3 :: r3 =>
        match seq4 n0 (Byte.to_N b1) (Byte.to_N b2) (Byte.to_N b3) with
        | Some c => option_map (cons c) (decode r3)
        | None => None
        end
    | _ => None
    end.
Proof. reflexivity. Qed.

Lemma option_map_cons_app (c : N) (t : text) (o : option text) :
  option_map (cons c) (option_map (app t) o) = option_map (app (c :: t)) o.
Proof. destruct o; reflexivity. Qed.

(** Decoding is done character by character from the left: once a prefix
    decodes, the rest is decoded on its own. *)
Lemma decode_app_bounded (n : nat) :
  forall a ta b,
    (List.length a <= n)%nat -> decode a = Some ta ->
    decode (a ++ b) = option_map (app ta) (decode b).
Proof.
  induction n as [|n IH]; intros a ta b Hlen Ha.
  - destruct a; [|simpl in Hlen; lia]. simpl in Ha. injection Ha as <-.
    simpl. now destruct (decode b).
  - destruct a as [|b0 r0].
    { simpl in Ha. injection Ha as <-. simpl. now destruct (decode b). }
    rewrite decode_cons in Ha. rewrite <- app_comm_cons, decode_cons.
    cbv zeta in *. simpl in Hlen.
    destruct (Byte.to_N b0 <? 128).
    { destruct (decode r0) as [t0|] eqn:E0; [|discriminate].
      injection Ha as <-. rewrite (IH r0 t0 b) by (auto; lia).
      apply option_map_cons_app. }
    destruct (Byte.to_N b0 <? 224).
    { destruct r0 as [|b1 r1]; [discriminate|]. rewrite <- app_comm_cons.
      destruct (seq2 _ _); [|discriminate].
      destruct (decode r1) as [t1|] eqn:E1; [|discriminate].
      injection Ha as <-. simpl in Hlen.
      rewrite (IH r1 t1 b) by (auto; lia). apply option_map_cons_app. }
    destruct (Byte.to_N b0 <? 240).
    { destruct r0 as [|b1 [|b2 r2]]; try discriminate.
      rewrite <- !app_comm_cons.
      destruct (seq3 _ _ _); [|discriminate].
      destruct (decode r2) as [t2|] eqn:E2; [|discriminate].
      injection Ha as <-. simpl in Hlen.
      rewrite (IH r2 t2 b) by (auto; lia). apply option_map_cons_app. }
    destruct r0 as [|b1 [|b2 [|b3 r3]]]; try discriminate.
    rewrite <- !app_comm_cons.
    destruct (seq4 _ _ _ _); [|discriminate].
    destruct (decode r3) as [t3|] eqn:E3; [|discriminate].
    injection Ha as <-. simpl in Hlen.
    rewrite (IH r3 t3 b) by (auto; lia). apply option_map_cons_app.
Qed.

Lemma decode_app (a b : list Byte.byte) (ta : text) :
  decode a = Some ta -> decode (a ++ b) = option_map (app ta) (decode b).
Proof. intros H. now apply (decode_app_bounded (List.length a)). Qed.

(** Bytes that decode to no character are no bytes. *)
Lemma decode_nil_inv (a : list Byte.byte) : decode a = Some [] -> a = [].
Proof.
  destruct a as [|b0 r0]; [reflexivity|].
  rewrite decode_cons. cbv zeta.
  repeat match goal with
         | |- context [if ?c then _ else _] => destruct c
         | |- context [match ?l with [] => _ | _ :: _ => _ end] => destruct l
         | |- context [match ?o with Some _ => _ | None => _ end] => destruct o
         | |- context [option_map _ ?o] => destruct o; simpl
         end; simpl; discriminate.
Qed.

(** ** The retry loop of [read_and_decode] *)

(** The bytes carried into a call. *)
Definition carried (previous_chunk : option (list Byte.byte)) : list Byte.byte :=
  match previous_chunk with Some p => p | None => [] end.

(** The bytes the [k]-th call tries to decode: what was carried in and
    the first [k] chunks of the stream. *)
Definition attempt (rd : reader) (chunk_size : N)
    (previous_chunk : option (list Byte.byte)) (k : nat) : list Byte.byte :=
  (carried previous_chunk ++ take (N.of_nat k * chunk_size) rd)%list.

(** What the [k]-th call answers when it is the last one. *)
Definition answer (bs : list Byte.byte) : result text :=
  match decode bs with
  | Some t => inr t
  | None => inl UnicodeError
  end.

Lemma read_and_decode_unfold (fuel : nat) (rd : reader) (cs mw : N)
    (prev : option (list Byte.byte)) (br : N) :
  read_and_decode (S fuel) rd cs mw prev br =
  match decode (attempt rd cs prev 1) with
  | Some t => Some (inr t, skip cs rd)
  | None =>
      if mw <? br + cs then Some (inl UnicodeError, skip cs rd)
      else read_and_decode fuel (skip cs rd) cs mw
                           (Some (attempt rd cs prev 1)) (br + cs)
  end.
Proof.
  unfold attempt. change (N.of_nat 1 * cs) with (1 * cs).
  rewrite N.mul_1_l. simpl. destruct prev; reflexivity.
Qed.

Lemma attempt_shift (rd : reader) (cs : N) (prev : option (list Byte.byte))
    (j : nat) :
  attempt (skip cs rd) cs (Some (attempt rd cs prev 1)) j
  = attempt rd cs prev (S j).
Proof.
  unfold attempt. cbn [carried]. change (N.of_nat 1 * cs) with (1 * cs).
  rewrite N.mul_1_l, <- app_assoc. f_equal.
  replace (N.of_nat (S j) * cs) with (cs + N.of_nat j * cs) by lia.
  now rewrite take_add.
Qed.

Lemma read_and_decode_steps (cs mw : N) :
  0 < cs ->
  forall (n : nat) (rd : reader) (prev : option (list Byte.byte)) (br : N),
    (N.to_nat ((mw - br) / cs) <= n)%nat ->
    exists k : nat,
      (1 <= k <= S n)%nat
      /\ (forall j, (1 <= j < k)%nat ->
            decode (attempt rd cs prev j) = None /\ br + N.of_nat j * cs <= mw)
      /\ (decode (attempt rd cs prev k) = None -> mw < br + N.of_nat k * cs)
      /\ (forall fuel, (k <= fuel)%nat ->
            read_and_decode fuel rd cs mw prev br
            = Some (answer (attempt rd cs prev k), skip (N.of_nat k * cs) rd)).
Proof.
  intros Hcs. induction n as [|n IH]; intros rd prev br Hn.
  all: destruct (decode (attempt rd cs prev 1)) as [t|] eqn:Hd.
  all: try (exists 1%nat; repeat split; try lia;
            [ congruence
            | intros [|fuel] Hf; [lia|];
              rewrite read_and_decode_unfold, Hd; unfold answer;
              change (N.of_nat 1 * cs) with (1 * cs);
              rewrite Hd, N.mul_1_l; reflexivity ]).
  all: destruct (N.ltb_spec mw (br + cs)) as [Hlt|Hle].
  all: try (exists 1%nat; repeat split; try lia;
            intros [|fuel] Hf; [lia|];
            rewrite read_and_decode_unfold, Hd; unfold answer;
            change (N.of_nat 1 * cs) with (1 * cs);
            rewrite Hd, N.mul_1_l;
            destruct (N.ltb_spec mw (br + cs)); [reflexivity|lia]).
  - (* no retry is left, yet the counter is under the ceiling *)
    exfalso.
    assert (0 < (mw - br) / cs) by (apply N.div_str_pos; lia). lia.
  - assert (Hn' : (N.to_nat ((mw - (br + cs)) / cs) <= n)%nat).
    { replace (mw - br) with ((mw - (br + cs)) + 1 * cs) in Hn by lia.
      rewrite N.div_add in Hn by lia. lia. }
    destruct (IH (skip cs rd) (Some (attempt rd cs prev 1)) (br + cs) Hn')
      as (k & Hk & Hbefore & Hlast & Hrun).
    exists (S k). repeat split; try lia.
    + destruct j as [|[|j]]; [lia|exact Hd|].
      rewrite <- attempt_shift. apply Hbefore. lia.
    + destruct j as [|[|j]]; [lia|lia|].
      destruct (Hbefore (S j)) as [_ Hb]; lia.
    + rewrite <- attempt_shift. intros H. specialize (Hlast H). lia.
    + intros [|fuel] Hf; [lia|].
      rewrite read_and_decode_unfold, Hd.
      destruct (N.ltb_spec mw (br + cs)); [lia|].
      rewrite Hrun by lia. rewrite attempt_shift, <- skip_add.
      do 3 f_equal. lia.
Qed.

(** C8, as the code has it.  A call of [read_and_decode] with a positive
    chunk size ends after some number [k >= 1] of reads.  Every read before the last
    failed to decode the bytes gathered so far (the carried bytes and the
    chunks read, concatenated) while the counter [bytes_read] was still
    within the ceiling; at the last read either the gathered bytes decode
    and their text is returned, or they do not and the counter exceeds
    the ceiling, and [UnicodeError] is raised.  The counter is the number
    of bytes asked for, [chunk_size] per read, not the number of bytes
    the reads returned.  With enough fuel for [k] nested calls the model
    returns that answer, so the retry loop always terminates.
    [read_lines_zst] calls it with chunks of [2^27] bytes and a ceiling
    of [2^30]. *)
Theorem retry_until_decoded_or_ceiling
    (rd : reader) (chunk_size max_window_size : N)
    (previous_chunk : option (list Byte.byte)) (bytes_read : N) :
  0 < chunk_size ->
  (exists k : nat,
     (1 <= k)%nat
     /\ (forall j, (1 <= j < k)%nat ->
           decode (attempt rd chunk_size previous_chunk j) = None
           /\ bytes_read + N.of_nat j * chunk_size <= max_window_size)
     /\ (decode (attempt rd chunk_size previous_chunk k) = None ->
         max_window_size < bytes_read + N.of_nat k * chunk_size)
     /\ (forall fuel, (k <= fuel)%nat ->
           read_and_decode fuel rd chunk_size max_window_size
                           previous_chunk bytes_read
           = Some (answer (attempt rd chunk_size previous_chunk k),
                   skip (N.of_nat k * chunk_size) rd)))
  /\ chunk_size_default = 134217728
  /\ max_window_default = 1073741824
  /\ (forall content,
        read_lines_zst content
        = read_lines_loop (S (List.length content)) 134217728 1073741824
                          content [] []).
Proof.
  intros Hcs. split; [|repeat split].
  destruct (read_and_decode_steps chunk_size max_window_size Hcs
              (N.to_nat ((max_window_size - bytes_read) / chunk_size))
              rd previous_chunk bytes_read (le_n _))
    as (k & Hk & H1 & H2 & H3).
  exists k. repeat split; auto; try lia; apply H1; auto.
Qed.

(** A stream whose second byte opens a four-byte character that the reads
    of two bytes keep splitting: chunks of 2 with a ceiling of 4. *)
Lemma retry_until_decoded_or_ceiling_witness :
  (exists k : nat,
     (1 <= k)%nat
     /\ (forall j, (1 <= j < k)%nat ->
           decode (attempt [Byte.x61; Byte.xf0; Byte.x9f; Byte.x98; Byte.x80]
                           2 None j) = None
           /\ 0 + N.of_nat j * 2 <= 4)
     /\ (decode (attempt [Byte.x61; Byte.xf0; Byte.x9f; Byte.x98; Byte.x80]
                         2 None k) = None ->
         4 < 0 + N.of_nat k * 2)
     /\ (forall fuel, (k <= fuel)%nat ->
           read_and_decode fuel
             [Byte.x61; Byte.xf0; Byte.x9f; Byte.x98; Byte.x80] 2 4 None 0
           = Some (answer (attempt
                     [Byte.x61; Byte.xf0; Byte.x9f; Byte.x98; Byte.x80]
                     2 None k),
                   skip (N.of_nat k * 2)
                     [Byte.x61; Byte.xf0; Byte.x9f; Byte.x98; Byte.x80])))
  /\ chunk_size_default = 134217728
  /\ max_window_default = 1073741824
  /\ (forall content,
        read_lines_zst content
        = read_lines_loop (S (List.length content)) 134217728 1073741824
                          content [] []).
Proof.
  apply (retry_until_decoded_or_ceiling
           [Byte.x61; Byte.xf0; Byte.x9f; Byte.x98; Byte.x80] 2 4 None 0).
  reflexivity.
Defined.

(** C8 as stated fails: the counter adds the chunk size at every read,
    whatever the read returned.  On a stream of the single byte [0xff],
    read by chunks of 2 under a ceiling of 4, the third call raises with
    a counter of 6 although one byte was read in all. *)
Lemma short_reads_count_as_full :
  read_and_decode 3 [Byte.xff] 2 4 None 0 = Some (inl UnicodeError, [])
  /\ attempt [Byte.xff] 2 None 3 = [Byte.xff]
  /\ (N.of_nat (List.length (attempt [Byte.xff] 2 None 3)) <=? 4) = true
  /\ (4 <? 0 + 3 * 2) = true.
Proof. repeat split. Qed.

(** ** Splitting into lines *)

Lemma split_lines_nonempty (s : text) : split_lines s <> [].
Proof.
  destruct s as [|c r]; simpl; [discriminate|].
  destruct (c =? newline); [discriminate|].
  destruct (split_lines r); discriminate.
Qed.

Lemma last_cons_nonempty (A : Type) (x d : A) (l : list A) :
  l <> [] -> last (x :: l) d = last l d.
Proof. destruct l; [congruence|reflexivity]. Qed.

Lemma removelast_cons_nonempty (A : Type) (x : A) (l : list A) :
  l <> [] -> removelast (x :: l) = x :: removelast l.
Proof. destruct l; [congruence|reflexivity]. Qed.

Lemma last_app_nonempty (A : Type) (d : A) (l l' : list A) :
  l' <> [] -> last (l ++ l') d = last l' d.
Proof.
  intros H. induction l as [|x l IH]; [reflexivity|].
  rewrite <- app_comm_cons, last_cons_nonempty; [exact IH|].
  destruct l; simpl; [exact H|discriminate].
Qed.

(** Splitting a text in two parts: the lines of the first part but the
    last, then the lines of that last piece followed by the second part. *)
Lemma split_lines_app (a b : text) :
  split_lines (a ++ b)
  = (removelast (split_lines a)
     ++ split_lines (last (split_lines a) [] ++ b))%list.
Proof.
  induction a as [|c r IH]; [reflexivity|].
  rewrite <- app_comm_cons. cbn [split_lines].
  destruct (c =? newline) eqn:Hc.
  - rewrite removelast_cons_nonempty, last_cons_nonempty
      by apply split_lines_nonempty.
    rewrite IH. reflexivity.
  - rewrite IH. pose proof (split_lines_nonempty r) as Hne.
    destruct (split_lines r) as [|h [|x t]]; [congruence| |].
    + cbn [removelast last app]. cbn [split_lines]. now rewrite Hc.
    + change (removelast (h :: x :: t)) with (h :: removelast (x :: t)).
      change (last (h :: x :: t) []) with (last (x :: t) (@nil N)).
      change (removelast ((c :: h) :: x :: t))
        with ((c :: h) :: removelast (x :: t)).
      change (last ((c :: h) :: x :: t) []) with (last (x :: t) (@nil N)).
      reflexivity.
Qed.

(** A text that ends with a newline splits into lines and a final empty
    piece. *)
Lemma split_lines_terminated (s : text) :
  exists front, split_lines (s ++ [newline]) = (front ++ [[]])%list.
Proof.
  induction s as [|c r [front IH]].
  - exists [[]]. reflexivity.
  - rewrite <- app_comm_cons. cbn [split_lines]. rewrite IH.
    destruct (c =? newline).
    + exists ([] :: front). reflexivity.
    + destruct front as [|h t].
      * exists []. (* impossible: two pieces at least *)
        exfalso. clear -IH.
        assert (H : forall s, exists h x t,
                   split_lines (s ++ [newline]) = h :: x :: t).
        { induction s as [|c s (h & x & t & E)]; [now exists [], [], []|].
          rewrite <- app_comm_cons. cbn [split_lines]. rewrite E.
          destruct (c =? newline); eauto. }
        destruct (H r) as (h & x & t & E). rewrite E in IH. discriminate.
      * exists ((c :: h) :: t). reflexivity.
Qed.

(** ** The line loop *)

Lemma read_and_decode_in_loop (cs mw : N) (rd : reader) :
  0 < cs ->
  exists k : nat,
    (1 <= k)%nat
    /\ read_and_decode (retry_bound cs mw) rd cs mw None 0
       = Some (answer (take (N.of_nat k * cs) rd), skip (N.of_nat k * cs) rd).
Proof.
  intros Hcs.
  destruct (read_and_decode_steps cs mw Hcs
              (N.to_nat ((mw - 0) / cs)) rd None 0 (le_n _))
    as (k & Hk & _ & _ & Hrun).
  exists k. split; [lia|].
  rewrite Hrun; [reflexivity|].
  unfold retry_bound. rewrite N.sub_0_r in Hk. lia.
Qed.

(** The loop's invariant: [tc] is the text decoded so far, the lines
    yielded are its pieces but the last, and the buffer is that last
    piece.  When the generator returns, the whole stream has been decoded
    and the lines yielded are the pieces of its text but the last. *)
Lemma read_lines_loop_exhausted (cs mw : N) :
  0 < cs ->
  forall (fuel : nat) (rd : reader) (tc : text) (out : list text),
    read_lines_loop fuel cs mw rd (last (split_lines tc) [])
                    (removelast (split_lines tc)) = (out, Exhausted) ->
    exists t, decode rd = Some t
              /\ out = removelast (split_lines (tc ++ t)).
Proof.
  intros Hcs. induction fuel as [|fuel IH]; intros rd tc out;
    cbn [read_lines_loop]; [discriminate|].
  destruct (read_and_decode_in_loop cs mw rd Hcs) as (k & Hk & ->).
  unfold answer. pose proof (take_skip (N.of_nat k * cs) rd) as Hrd.
  destruct (decode (take (N.of_nat k * cs) rd)) as [[|c chunk]|] eqn:Hd;
    [| |discriminate].
  - intros [= <-]. apply decode_nil_inv in Hd.
    apply take_nil_inv in Hd; [|nia]. subst rd.
    exists []. now rewrite app_nil_r.
  - intros Hloop.
    assert (Hsplit := split_lines_app tc (c :: chunk)).
    pose proof (split_lines_nonempty
                  (last (split_lines tc) [] ++ c :: chunk)) as Hne.
    rewrite <- (removelast_app _ Hne), <- Hsplit in Hloop.
    rewrite <- (last_app_nonempty text ([] : text)
                  (removelast (split_lines tc)) _ Hne),
      <- Hsplit in Hloop.
    apply IH in Hloop as (t & Ht & ->).
    exists ((c :: chunk) ++ t)%list. split.
    + rewrite <- Hrd, (decode_app _ _ _ Hd), Ht. reflexivity.
    + now rewrite app_assoc.
Qed.

(** With fuel beyond the length of the stream the bound on passes is
    never reached. *)
Lemma read_lines_loop_finishes (cs mw : N) :
  0 < cs ->
  forall (fuel : nat) (rd : reader) (buffer : text) (ys : list text),
    (List.length rd < fuel)%nat ->
    snd (read_lines_loop fuel cs mw rd buffer ys) <> Unfinished.
Proof.
  intros Hcs. induction fuel as [|fuel IH]; intros rd buffer ys Hlen; [lia|].
  cbn [read_lines_loop].
  destruct (read_and_decode_in_loop cs mw rd Hcs) as (k & Hk & ->).
  unfold answer.
  destruct (decode (take (N.of_nat k * cs) rd)) as [[|c chunk]|] eqn:Hd;
    simpl; try discriminate.
  apply IH.
  assert (Hrd : rd <> []) by (intros ->; simpl in Hd; discriminate).
  assert (Hpos : 0 < N.of_nat k * cs) by nia.
  pose proof (skip_length (N.of_nat k * cs) rd Hpos Hrd). lia.
Qed.

Definition newline_terminated (t : text) : Prop :=
  t = [] \/ exists t', t = (t' ++ [newline])%list.

(** C3, as the code has it.  The generator always ends, by returning or
    by raising.  When it returns, the whole decompressed content decodes
    and the lines yielded are the pieces obtained by splitting the whole
    text on newlines, in order, but the last piece; if the decoded text is
    empty or ends with a newline that last piece is empty, so the lines
    yielded followed by one empty piece are exactly the whole split: chunk
    boundaries and the carried-over partial line change, drop and
    duplicate no terminated line. *)
Theorem chunked_lines_equal_whole_split (content : list Byte.byte) :
  snd (read_lines_zst content) <> Unfinished
  /\ forall lines,
       read_lines_zst content = (lines, Exhausted) ->
       exists whole,
         decode content = Some whole
         /\ lines = removelast (split_lines whole)
         /\ (newline_terminated whole ->
             split_lines whole = (lines ++ [[]])%list).
Proof.
  split.
  - apply read_lines_loop_finishes; [reflexivity|lia].
  - intros lines H.
    apply (read_lines_loop_exhausted chunk_size_default max_window_default
             eq_refl (S (List.length content)) content []) in H
      as (whole & Hw & ->).
    exists whole. split; [exact Hw|]. split; [reflexivity|]. simpl.
    intros [->|[t' ->]]; [reflexivity|].
    destruct (split_lines_terminated t') as [front ->].
    now rewrite removelast_last.
Qed.

Lemma chunked_lines_equal_whole_split_witness :
  exists whole,
    decode [Byte.x61; Byte.x0a; Byte.xc3; Byte.xa9; Byte.x0a] = Some whole
    /\ [[97]; [233]] = removelast (split_lines whole)
    /\ (newline_terminated whole ->
        split_lines whole = ([[97]; [233]] ++ [[]])%list).
Proof.
  apply (proj2 (chunked_lines_equal_whole_split
                  [Byte.x61; Byte.x0a; Byte.xc3; Byte.xa9; Byte.x0a])).
  reflexivity.
Defined.

(** C3 as stated fails: for the two bytes [a] and line feed the reader
    yields the single line [a], while splitting the decoded content on
    newlines gives [a] and an empty piece; for [a], line feed and [b] the
    reader yields [a] alone, the split [a] and [b]. *)
Lemma whole_split_has_one_more_piece :
  read_lines_zst [Byte.x61; Byte.x0a] = ([[97]], Exhausted)
  /\ option_map split_lines (decode [Byte.x61; Byte.x0a]) = Some [[97]; []]
  /\ read_lines_zst [Byte.x61; Byte.x0a; Byte.x62] = ([[97]], Exhausted)
  /\ option_map split_lines (decode [Byte.x61; Byte.x0a; Byte.x62])
     = Some [[97]; [98]].
Proof. repeat split; reflexivity. Qed.

End WatchfulSpec.

(* ===================================================================== *)
(** * Properties of the adaptive batch loader                             *)
(* ===================================================================== *)

Module BatchProcessorSpec.
Import PyExn BatchProcessor.
Local Open Scope Z_scope.
Local Open Scope m_scope.
#[local] Set Warnings "-inexact-float".

(** ** A program logic for the loader's monad *)

(** The processor keeps metrics ([self.metrics] is not [None]). *)
Definition monitored (p : processor) : bool :=
  match metrics p with Some _ => true | None => false end.

Create HintDb hoare.

Section Invariant.

(** The invariant: the configuration is [cfg], the current batch size
    satisfies [R], and metrics are kept or not as [mon] says. *)
Variable cfg : BatchConfig.
Variable R : Z -> Prop.
Variable mon : bool.

Definition J (p : processor) : Prop :=
  config p = cfg /\ R (current_batch_size p) /\ monitored p = mon.

(** From a world whose processor satisfies the invariant, [m] leads to
    one that does, whether it returns or raises; a returned value
    satisfies [Q]. *)
Definition hoare {A : Type} (m : M A) (Q : A -> Prop) : Prop :=
  forall w, J (self w) ->
    match m w with
    | (inr a, w') => J (self w') /\ Q a
    | (inl _, w') => J (self w')
    end.

Definition any {A : Type} : A -> Prop := fun _ => True.

Lemma hoare_ret {A} (a : A) (Q : A -> Prop) : Q a -> hoare (ret a) Q.
Proof. intros HQ w Hw. simpl. auto. Qed.

Lemma hoare_raise {A} (e : exn) (Q : A -> Prop) : hoare (raise e) Q.
Proof. intros w Hw. exact Hw. Qed.

Lemma hoare_bind {A B} (m : M A) (k : A -> M B) (P : A -> Prop)
    (Q : B -> Prop) :
  hoare m P -> (forall a, P a -> hoare (k a) Q) -> hoare (bind m k) Q.
Proof.
  intros Hm Hk w Hw. unfold bind. specialize (Hm w Hw).
  destruct (m w) as [[e|a] w']; [exact Hm|].
  destruct Hm as [Hw' Ha]. exact (Hk a Ha w' Hw').
Qed.

Lemma hoare_try {A} (body : M A) (handler : exn -> M A) (Q : A -> Prop) :
  hoare body Q -> (forall e, hoare (handler e) Q) ->
  hoare (try_except body handler) Q.
Proof.
  intros Hb Hh w Hw. unfold try_except. specialize (Hb w Hw).
  destruct (body w) as [[e|a] w']; [exact (Hh e w' Hb)|exact Hb].
Qed.

Lemma hoare_weaken {A} (m : M A) (P Q : A -> Prop) :
  hoare m P -> (forall a, P a -> Q a) -> hoare m Q.
Proof.
  intros Hm HPQ w Hw. specialize (Hm w Hw).
  destruct (m w) as [[e|a] w']; [exact Hm|]. destruct Hm; auto.
Qed.

Lemma hoare_lift {A} (r : result A) : hoare (lift r) any.
Proof. destruct r; [apply hoare_raise|now apply hoare_ret]. Qed.

Lemma hoare_get_self : hoare get_self J.
Proof. intros w Hw. simpl. auto. Qed.

Lemma hoare_put_self (p : processor) : J p -> hoare (put_self p) any.
Proof. intros Hp w Hw. simpl. unfold any. auto. Qed.

Lemma hoare_get_locals : hoare get_locals any.
Proof. intros w Hw. simpl. unfold any. auto. Qed.

Lemma hoare_put_locals (t : totals) : hoare (put_locals t) any.
Proof. intros w Hw. simpl. unfold any. auto. Qed.

Lemma hoare_emit (e : event) : hoare (emit e) any.
Proof. intros w Hw. simpl. unfold any. auto. Qed.

Lemma hoare_when (b : bool) (m : M unit) : hoare m any -> hoare (when b m) any.
Proof. destruct b; [auto|intros _; now apply hoare_ret]. Qed.

(** One step of a sequence whose first part is handled by a lemma of the
    hint database, and case analysis on what the code branches on. *)
Ltac hoare_step :=
  lazymatch goal with
  | |- hoare (bind _ _) _ =>
      first [ eapply hoare_bind; [solve [eauto with hoare]|intros ? ?]
            | eapply hoare_bind with (P := any);
              [solve [repeat hoare_step]|intros ? ?] ]
  | |- hoare (if ?b then _ else _) _ => destruct b
  | |- hoare (match ?x with _ => _ end) _ => destruct x
  | |- hoare (ret _) _ => apply hoare_ret; unfold any; auto
  | |- hoare (raise _) _ => apply hoare_raise
  | |- hoare (when _ _) _ => apply hoare_when
  | |- hoare (try_except _ _) _ => apply hoare_try; [|intros ?]
  | |- hoare _ _ => solve [eauto with hoare]
  end.

#[local] Hint Resolve hoare_lift hoare_get_self hoare_get_locals hoare_put_locals
  hoare_emit hoare_raise : hoare.

Lemma hoare_put_history (h : list Z) : hoare (put_history h) any.
Proof.
  unfold put_history. eapply hoare_bind; [apply hoare_get_self|].
  intros p Hp. apply hoare_put_self. exact Hp.
Qed.

Lemma hoare_modify_metrics (f : BatchMetrics -> BatchMetrics) :
  hoare (modify_metrics f) any.
Proof.
  unfold modify_metrics. eapply hoare_bind; [apply hoare_get_self|].
  intros p (Hcfg & HR & Hm). unfold monitored in Hm.
  destruct (metrics p); [|now apply hoare_ret].
  unfold put_metrics. eapply hoare_bind; [apply hoare_get_self|].
  intros p' (Hcfg' & HR' & _). apply hoare_put_self.
  repeat split; assumption.
Qed.

#[local] Hint Resolve hoare_put_history hoare_modify_metrics : hoare.

Section Env.
Variable env : environment.

Lemma hoare_connection_execute (stmt : string) :
  hoare (connection_execute env stmt) any.
Proof. unfold connection_execute. repeat hoare_step. Qed.

Lemma hoare_batch_operation (batch : list item) :
  hoare (batch_operation env batch) any.
Proof. unfold batch_operation. repeat hoare_step. Qed.

Lemma hoare_clock_since : hoare (clock_since env) any.
Proof. unfold clock_since. repeat hoare_step. Qed.

Lemma hoare_get_memory : hoare (_get_memory_usage_mb env) any.
Proof. unfold _get_memory_usage_mb. repeat hoare_step. Qed.

Lemma hoare_call_progress (p : progress) : hoare (call_progress env p) any.
Proof. unfold call_progress. repeat hoare_step. Qed.

#[local] Hint Resolve hoare_connection_execute hoare_batch_operation hoare_clock_since
  hoare_get_memory hoare_call_progress : hoare.

Lemma hoare_update_performance_metrics (n : Z) (t : float) (c : Z) (ok : bool) :
  hoare (_update_performance_metrics env n t c ok) any.
Proof. unfold _update_performance_metrics. repeat hoare_step. Qed.

Lemma hoare_validate_adjustment (b : Z) (mem : float) (n : Z) (mf pf : float) :
  hoare (_validate_adjustment_effectiveness b mem n mf pf) any.
Proof. unfold _validate_adjustment_effectiveness. repeat hoare_step. Qed.

#[local] Hint Resolve hoare_update_performance_metrics hoare_validate_adjustment : hoare.

(** The size returned by the tuning rule is the current one or a
    clamped candidate. *)
Definition current_or_clamped (n : Z) : Prop :=
  R n \/ exists x, n = Z.max (min_batch_size cfg) (Z.min (max_batch_size cfg) x).

Lemma hoare_calculate (speed mem : float) :
  hoare (_calculate_optimal_batch_size speed mem) current_or_clamped.
Proof.
  unfold _calculate_optimal_batch_size.
  eapply hoare_bind; [apply hoare_get_self|]. intros p (Hcfg & HR & Hm).
  destruct (negb (auto_tune_enabled (config p)));
    [apply hoare_ret; now left|].
  eapply hoare_bind with (P := any); [repeat hoare_step|]. intros mf _.
  eapply hoare_bind with (P := any); [repeat hoare_step|]. intros pf _.
  eapply hoare_bind; [apply hoare_lift|]. intros cur _.
  eapply hoare_bind; [apply hoare_lift|]. intros x _.
  destruct (PyFloat.int_gt _ _); [|apply hoare_ret; now left].
  eapply hoare_bind with (P := any); [repeat hoare_step|]. intros _ _.
  apply hoare_ret. right. exists x. now rewrite Hcfg.
Qed.

Lemma hoare_run_batch (vd batch : list item) (cb : bool) :
  hoare (run_batch env vd batch cb) any.
Proof. unfold run_batch. repeat hoare_step. Qed.

Lemma hoare_except_batch (batch : list item) (e : exn) :
  hoare (except_batch env batch e) any.
Proof. unfold except_batch. repeat hoare_step. Qed.

(** The candidates the rule clamps satisfy [R]. *)
Hypothesis clamped_ok :
  forall x, R (Z.max (min_batch_size cfg) (Z.min (max_batch_size cfg) x)).

Lemma hoare_put_current_batch_size (n : Z) :
  current_or_clamped n -> hoare (put_current_batch_size n) any.
Proof.
  intros Hn. unfold put_current_batch_size.
  eapply hoare_bind; [apply hoare_get_self|]. intros p (Hcfg & _ & Hm).
  apply hoare_put_self. repeat split; [exact Hcfg| |exact Hm]. simpl.
  destruct Hn as [Hn|[x ->]]; auto.
Qed.

Lemma hoare_auto_tune_step : hoare (auto_tune_step env) any.
Proof.
  unfold auto_tune_step.
  eapply hoare_bind; [apply hoare_get_self|]. intros p _.
  destruct (auto_tune_enabled (config p)); [|now apply hoare_ret].
  destruct (metrics p); [|now apply hoare_ret].
  eapply hoare_bind; [apply hoare_get_memory|]. intros mem _.
  eapply hoare_bind; [apply hoare_get_self|]. intros p' _.
  eapply hoare_bind; [apply hoare_calculate|]. intros n Hn.
  now apply hoare_put_current_batch_size.
Qed.

Lemma hoare_process_batch (vd : list item) (cb : bool) (batch_start : Z) :
  hoare (process_batch env vd cb batch_start) any.
Proof.
  unfold process_batch.
  eapply hoare_bind; [apply hoare_get_self|]. intros p _.
  apply hoare_try; [|intros e; apply hoare_except_batch].
  unfold try_batch.
  eapply hoare_bind; [apply hoare_run_batch|]. intros _ _.
  apply hoare_auto_tune_step.
Qed.

Lemma hoare_batches_loop (vd : list item) (cb : bool) (starts : list Z) :
  hoare (batches_loop env vd cb starts) any.
Proof.
  induction starts as [|b rest IH]; simpl; [now apply hoare_ret|].
  eapply hoare_bind; [apply hoare_process_batch|]. intros _ _. exact IH.
Qed.

#[local] Hint Resolve hoare_batches_loop : hoare.

Lemma hoare_process_batches (data : list item) (op : string) (cb : bool) :
  hoare (process_batches env data op cb) any.
Proof. unfold process_batches. repeat hoare_step. Qed.

End Env.
End Invariant.

(** ** The batch size stays within its bounds *)

Definition in_range (cfg : BatchConfig) (n : Z) : Prop :=
  min_batch_size cfg <= n <= max_batch_size cfg.

Definition within_bounds (cfg : BatchConfig) (p : processor) : Prop :=
  config p = cfg /\ in_range cfg (current_batch_size p).

Lemma hoare_final (cfg : BatchConfig) (R : Z -> Prop) (mon : bool) (A : Type)
    (m : M A) (Q : A -> Prop) (w : world) :
  hoare cfg R mon m Q -> J cfg R mon (self w) ->
  J cfg R mon (self (snd (m w)))
  /\ forall a, fst (m w) = inr a -> Q a.
Proof.
  intros Hm Hw. specialize (Hm w Hw).
  destruct (m w) as [[e|a] w']; simpl.
  - split; [exact Hm|discriminate].
  - destruct Hm. split; [assumption|]. now intros ? [= <-].
Qed.

(** C5.  A processor built from a configuration whose initial batch size
    lies within [[min_batch_size, max_batch_size]] is within bounds, and
    from a world whose processor is within bounds every run stays within
    bounds, whatever the environment answers (throughput and memory
    samples, failures): a single tuning step returns a size within
    bounds, and after any sequence of batches, and after a whole call of
    [process_batches], the current batch size is within bounds, whether
    the run returns or raises. *)
Theorem batch_size_stays_within_bounds
    (env : environment) (cfg : BatchConfig) (monitoring : bool) :
  min_batch_size cfg <= initial_batch_size cfg <= max_batch_size cfg ->
  within_bounds cfg (new_processor cfg monitoring)
  /\ forall w : world,
       within_bounds cfg (self w) ->
       (forall speed mem n,
          fst (_calculate_optimal_batch_size speed mem w) = inr n ->
          min_batch_size cfg <= n <= max_batch_size cfg)
       /\ (forall vd cb starts,
             within_bounds cfg (self (snd (batches_loop env vd cb starts w))))
       /\ (forall data op cb,
             within_bounds cfg (self (snd (process_batches env data op cb w)))).
Proof.
  intros Hinit.
  assert (Hclamp : forall x,
            in_range cfg
              (Z.max (min_batch_size cfg) (Z.min (max_batch_size cfg) x)))
    by (unfold in_range; lia).
  split; [split; [reflexivity|exact Hinit]|].
  intros w [Hcfg Hcur].
  assert (Hw : J cfg (in_range cfg) (monitored (self w)) (self w))
    by (split; [exact Hcfg|split; [exact Hcur|reflexivity]]).
  assert (Hback : forall p, J cfg (in_range cfg) (monitored (self w)) p ->
                            within_bounds cfg p)
    by (intros p (H1 & H2 & _); split; assumption).
  split; [|split].
  - intros speed mem n Hn.
    destruct (hoare_final cfg (in_range cfg) _ _ _ _ w
                (hoare_calculate cfg _ _ speed mem) Hw) as [_ Hq].
    destruct (Hq n Hn) as [Hr|[x ->]]; [exact Hr|apply Hclamp].
  - intros vd cb starts. apply Hback.
    apply (hoare_final cfg (in_range cfg) _ _ _ _ w
             (hoare_batches_loop cfg _ _ env Hclamp vd cb starts) Hw).
  - intros data op cb. apply Hback.
    apply (hoare_final cfg (in_range cfg) _ _ _ _ w
             (hoare_process_batches cfg _ _ env Hclamp data op cb) Hw).
Qed.

(** Twelve records in batches of four, the size ranging from two to
    eight.  In the sample environment no statement fails, each batch is
    inserted whole, a batch takes 100 seconds and the process holds 400
    MB, four times the threshold. *)
Definition sample_config : BatchConfig :=
  mkConfig 4 2 8 100%float 1000%float true "batch" 100 true.

Definition sample_env : environment :=
  mkEnv (fun _ _ => None)
        (fun _ b => inr (mkOp (Z.of_nat (List.length b)) 0 0))
        (fun _ => 100%float) (fun _ => 400%float) (fun _ _ => None).

Definition sample_data : list item :=
  map (fun k => Dict [("id", OInt (Z.of_nat k)); ("subreddit", OStr "pics")]%string)
      (seq 1 12).

Lemma batch_size_stays_within_bounds_witness :
  within_bounds sample_config
    (self (snd (process_batches sample_env sample_data "posts" false
                  (start (new_processor sample_config true))))).
Proof.
  pose proof (batch_size_stays_within_bounds sample_env sample_config true) as H.
  assert (Hb : min_batch_size sample_config <= initial_batch_size sample_config
               <= max_batch_size sample_config) by (simpl; lia).
  destruct (H Hb) as [Hnew Hrun].
  apply (Hrun (start (new_processor sample_config true)) Hnew).
Defined.

(** ** A failed batch *)





















Lemma bind_returns {A B} (m : M A) (k : A -> M B) (w w' : world) (b : B) :
  bind m k w = (inr b, w') ->
  exists a w1, m w = (inr a, w1) /\ k a w1 = (inr b, w').
Proof.
  unfold bind. destruct (m w) as [[e|a] w1]; [discriminate|]. eauto.
Qed.

(** ** The tuning rule *)

Definition rbind {A B} (r : result A) (k : A -> result B) : result B :=
  match r with inl e => inl e | inr a => k a end.

(** The memory factor of the code: 1 up to the threshold, beyond it the
    ratio threshold/used, but at least one half. *)
Definition memory_factor (cfg : BatchConfig) (used : float) : result float :=
  if (memory_threshold_mb cfg <? used)%float
  then rbind (PyFloat.div (memory_threshold_mb cfg) used)
             (fun q => inr (PyFloat.py_max 0.5 q))
  else inr 1%float.

(** The performance factor of the code: the ratio target/observed, at
    most 1.5, when throughput is positive and below the target, else 1. *)
Definition performance_factor (cfg : BatchConfig) (observed : float)
  : result float :=
  if (0 <? observed)%float
     && (observed <? performance_threshold_records_per_sec cfg)%float
  then rbind (PyFloat.div (performance_threshold_records_per_sec cfg) observed)
             (fun q => inr (PyFloat.py_min 1.5 q))
  else inr 1%float.

(** Clamp the candidate and adopt it when it is more than 10% of the
    current size away from it. *)
Definition clamp_and_adopt (cfg : BatchConfig) (current : Z) (factor : float)
  : result Z :=
  rbind (PyFloat.of_int current) (fun c =>
  rbind (PyFloat.to_int (c * factor)%float) (fun candidate =>
    let clamped :=
      Z.max (min_batch_size cfg) (Z.min (max_batch_size cfg) candidate) in
    if PyFloat.int_gt (Z.abs (clamped - current)) (c * 0.1)%float
    then inr clamped else inr current)).

(** The rule as the code has it. *)
Definition tuned_batch_size (cfg : BatchConfig) (current : Z)
    (observed used : float) : result Z :=
  if negb (auto_tune_enabled cfg) then inr current
  else
    rbind (memory_factor cfg used) (fun mf =>
    rbind (performance_factor cfg observed) (fun pf =>
    clamp_and_adopt cfg current (PyFloat.py_min mf pf))).

(** The rule as the claim words it: [memory_factor = min(1,
    threshold/used)] and [performance_factor = min(1.5,
    target/observed)]. *)
Definition claimed_batch_size (cfg : BatchConfig) (current : Z)
    (observed used : float) : result Z :=
  rbind (PyFloat.div (memory_threshold_mb cfg) used) (fun q1 =>
  rbind (PyFloat.div (performance_threshold_records_per_sec cfg) observed)
        (fun q2 =>
  clamp_and_adopt cfg current
    (PyFloat.py_min (PyFloat.py_min 1 q1) (PyFloat.py_min 1.5 q2)))).

(** C4 as stated fails.  With the default configuration (threshold 100
    MB, target 1000 records per second) and a current size of 1000: at
    the target throughput and 400 MB used the code returns 500, its
    memory factor stopping at one half, where the claimed rule gives 250;
    at 2000 records per second and 50 MB the code keeps 1000, a
    throughput above the target changing nothing, where the claimed rule
    gives 500. *)
Lemma claimed_rule_differs :
  fst (_calculate_optimal_batch_size 1000 400
         (start (new_processor default_config true))) = inr 500
  /\ claimed_batch_size default_config 1000 1000 400 = inr 250
  /\ fst (_calculate_optimal_batch_size 2000 50
            (start (new_processor default_config true))) = inr 1000
  /\ claimed_batch_size default_config 1000 2000 50 = inr 500.
Proof. repeat split; vm_compute; reflexivity. Qed.

Lemma calculate_agrees (speed mem : float) (w : world) :
  let cfg := config (self w) in
  let cur := current_batch_size (self w) in
  let r := fst (_calculate_optimal_batch_size speed mem w) in
  match tuned_batch_size cfg cur speed mem with
  | inl e => r = inl e
  | inr n =>
      r = inr n
      \/ exists e, r = inl e /\ PyFloat.int_truediv n cur = inl e
  end.
Proof.
  destruct w as [[cfg mon mt cur hist] loc tr].
  cbv zeta. cbn [self config current_batch_size].
  unfold tuned_batch_size, _calculate_optimal_batch_size,
    memory_factor, performance_factor, clamp_and_adopt,
    _validate_adjustment_effectiveness, modify_metrics, put_metrics.
  unfold bind, get_self, put_self, lift, ret, raise, rbind.
  cbn [self config current_batch_size enable_monitoring metrics fst].
  destruct (auto_tune_enabled cfg); cbn [negb]; [|now left].
  destruct (memory_threshold_mb cfg <? mem)%float;
    [destruct (PyFloat.div (memory_threshold_mb cfg) mem);
       [reflexivity|]|].
  all: destruct ((0 <? speed)%float
                 && (speed <? performance_threshold_records_per_sec cfg)%float);
    [destruct (PyFloat.div (performance_threshold_records_per_sec cfg) speed);
       [reflexivity|]|].
  all: destruct (PyFloat.of_int cur); [reflexivity|].
  all: match goal with
       | |- context [PyFloat.to_int ?x] => destruct (PyFloat.to_int x)
       end; [reflexivity|].
  all: match goal with
       | |- context [PyFloat.int_gt ?a ?b] => destruct (PyFloat.int_gt a b)
       end; [|now left].
  all: destruct mon; [|now left].
  all: destruct mt; [|now left].
  all: cbn [self config current_batch_size enable_monitoring metrics fst].
  all: match goal with
       | |- context [PyFloat.int_truediv ?a ?b] =>
           destruct (PyFloat.int_truediv a b) eqn:Hdiv
       end; cbn; [right; eauto|now left].
Qed.

(** ** Whole runs of [process_batches] *)

(** The statements of [process_batches] that follow the loop. *)
Definition finish (env : environment) (validated_data : list item)
    (has_callback : bool) : M summary :=
  total_time <- clock_since env ;;
  t <- get_locals ;;
  (* Final progress update *)
  when has_callback
       (call_progress env
          (mkProgress (t_processed t)
                      (Z.of_nat (List.length validated_data))
                      (t_errors t) (t_batches t) None true)) ;;;
  rps <- (if (0 <? total_time)%float then
            lift (PyFloat.int_div (t_processed t) total_time)
          else ret 0%float) ;;
  p <- get_self ;;
  ret (mkSummary (t_processed t) (t_errors t) (t_batches t)
         (Some (mkDetails total_time rps (current_batch_size p)
                  (match metrics p with
                   | Some m => auto_adjustments m
                   | None => 0
                   end)))).

(** The world in which the loop of [process_batches] starts. *)
Definition loop_start (w : world) : world :=
  mkWorld (self w) (mkTotals 0 0 0) (trace w).

(** The call of [process_batches] from [w] comes to the batch that starts
    at [s] in the world [w_k]: the validated data is not empty, the
    starts of the batches are [before], [s] and [after], in this order,
    and the loop has gone through [before] without leaving. *)
Definition reaches (env : environment) (data : list item) (op : string)
    (cb : bool) (w : world) (before : list Z) (s : Z) (after : list Z)
    (w_k : world) : Prop :=
  let vd := _validate_batch_data (config (self w)) data op in
  vd <> []
  /\ py_range (Z.of_nat (List.length vd)) (current_batch_size (self w))
     = inr (before ++ s :: after)%list
  /\ batches_loop env vd cb before (loop_start w) = (inr tt, w_k).

Lemma validate_nothing (cfg : BatchConfig) (op : string) :
  _validate_batch_data cfg [] op = [].
Proof. unfold _validate_batch_data. now destruct (negb _). Qed.

Lemma batches_loop_app (env : environment) (vd : list item) (cb : bool)
    (before after : list Z) :
  forall w w_k,
    batches_loop env vd cb before w = (inr tt, w_k) ->
    batches_loop env vd cb (before ++ after) w
    = batches_loop env vd cb after w_k.
Proof.
  induction before as [|b rest IH]; intros w w_k H.
  - injection H as <-. reflexivity.
  - cbn [batches_loop app] in *. unfold bind in *.
    destruct (process_batch env vd cb b w) as [[e|[]] w1]; [discriminate|].
    now apply IH.
Qed.

Lemma bind_assoc {A B C} (m : M A) (k : A -> M B) (h : B -> M C)
    (w : world) :
  bind (bind m k) h w = bind m (fun a => bind (k a) h) w.
Proof. unfold bind. destruct (m w) as [[e|a] w1]; reflexivity. Qed.

Lemma bind_after {A B} (m : M A) (k : A -> M B) (w w1 : world) (a : A) :
  m w = (inr a, w1) -> bind m k w = k a w1.
Proof. intros H. unfold bind. now rewrite H. Qed.

(** From the batch it has come to, the call is that batch, the batches
    that remain and the statements after the loop. *)
Lemma process_batches_from (env : environment) (data : list item)
    (op : string) (cb : bool) (w : world) (before : list Z) (s : Z)
    (after : list Z) (w_k : world) :
  reaches env data op cb w before s after w_k ->
  process_batches env data op cb w
  = (process_batch env
       (_validate_batch_data (config (self w)) data op) cb s ;;;
     batches_loop env (_validate_batch_data (config (self w)) data op) cb
                  after ;;;
     finish env (_validate_batch_data (config (self w)) data op) cb) w_k.
Proof.
  intros (Hne & Hrange & Hloop). unfold process_batches.
  destruct data as [|d data'];
    [now rewrite validate_nothing in Hne|].
  unfold bind at 1, get_self at 1.
  destruct (_validate_batch_data (config (self w)) (d :: data') op)
    as [|v vd] eqn:Hvd; [congruence|].
  unfold bind at 1, put_locals at 1. cbn [self locals trace].
  unfold bind at 1. rewrite Hrange. cbn [lift ret].
  fold (loop_start w). unfold bind at 1.
  rewrite (batches_loop_app env (v :: vd) cb before (s :: after) _ _ Hloop).
  cbn [batches_loop].
  match goal with
  | |- match ?m w_k with _ => _ end = _ =>
      change (bind m (fun _ => finish env (v :: vd) cb) w_k = 
              (process_batch env (v :: vd) cb s ;;;
               batches_loop env (v :: vd) cb after ;;;
               finish env (v :: vd) cb) w_k)
  end.
  now rewrite bind_assoc.
Qed.

(** ** What recording a batch leaves alone *)












(** ** A batch whose operation raises *)






(** The configuration is the same all through the loop, and metrics
    are kept all through or not at all. *)
Lemma reaches_config (env : environment) (data : list item) (op : string)
    (cb : bool) (w : world) (before : list Z) (s : Z) (after : list Z)
    (w_k : world) :
  reaches env data op cb w before s after w_k ->
  config (self w_k) = config (self w)
  /\ monitored (self w_k) = monitored (self w).
Proof.
  intros (_ & _ & Hloop).
  assert (Hw : J (config (self w)) (fun _ => True) (monitored (self w))
                 (self (loop_start w))) by (repeat split).
  destruct (hoare_final (config (self w)) (fun _ => True) _ _ _ _
              (loop_start w)
              (hoare_batches_loop (config (self w)) (fun _ => True) _ env
                 (fun _ => I)
                 (_validate_batch_data (config (self w)) data op) cb before)
              Hw) as [(Hc & _ & Hm) _].
  rewrite Hloop in Hc, Hm. now split.
Qed.






(** ** The tuning rule in a run *)

(** The tuning rule makes no call and leaves the throughput recorded in
    the metrics as it is. *)
Lemma calculate_keeps (speed mem : float) (w : world) :
  trace (snd (_calculate_optimal_batch_size speed mem w)) = trace w
  /\ option_map records_per_second
       (metrics (self (snd (_calculate_optimal_batch_size speed mem w))))
     = option_map records_per_second (metrics (self w)).
Proof.
  destruct w as [[cfg mon mt cur hist] loc tr].
  unfold _calculate_optimal_batch_size,
    _validate_adjustment_effectiveness, modify_metrics, put_metrics.
  unfold bind, get_self, put_self, lift, ret, raise.
  cbn [self config current_batch_size enable_monitoring metrics snd trace].
  destruct (auto_tune_enabled cfg); cbn [negb]; [|now split].
  destruct (memory_threshold_mb cfg <? mem)%float;
    [destruct (PyFloat.div (memory_threshold_mb cfg) mem);
       [now split|]|].
  all: destruct ((0 <? speed)%float
                 && (speed <? performance_threshold_records_per_sec cfg)%float);
    [destruct (PyFloat.div (performance_threshold_records_per_sec cfg) speed);
       [now split|]|].
  all: destruct (PyFloat.of_int cur); [now split|].
  all: match goal with
       | |- context [PyFloat.to_int ?x] => destruct (PyFloat.to_int x)
       end; [now split|].
  all: match goal with
       | |- context [PyFloat.int_gt ?a ?b] => destruct (PyFloat.int_gt a b)
       end; [|now split].
  all: destruct mon; [|now split].
  all: destruct mt; [|now split].
  all: cbn [self config current_batch_size enable_monitoring metrics snd
            trace].
  all: match goal with
       | |- context [PyFloat.int_truediv ?a ?b] =>
           destruct (PyFloat.int_truediv a b)
       end; cbn; now split.
Qed.

(** After a batch whose [try] body raised nothing, with auto-tuning
    enabled and metrics kept, the batch size is the value of the rule at
    the throughput recorded in the metrics and at the memory sample taken
    last; otherwise it is the size it was. *)
Lemma tuned_from_samples (env : environment) (vd batch : list item)
    (cb : bool) (w w' : world) :
  try_batch env vd batch cb w = (inr tt, w') ->
  config (self w') = config (self w)
  /\ if auto_tune_enabled (config (self w)) && monitored (self w)
     then exists m front,
            metrics (self w') = Some m
            /\ trace w' = (front ++ [MemorySample])%list
            /\ tuned_batch_size (config (self w)) (current_batch_size (self w))
                                (records_per_second m)
                                (memory_mb env (List.length front))
               = inr (current_batch_size (self w'))
     else current_batch_size (self w') = current_batch_size (self w).
Proof.
  unfold try_batch. intros H.
  apply bind_returns in H as ([] & w1 & Hrun & Htune).
  set (cfg := config (self w)). set (cur := current_batch_size (self w)).
  set (mon := monitored (self w)).
  assert (Hw : J cfg (eq cur) mon (self w)) by (repeat split; reflexivity).
  destruct (hoare_final cfg (eq cur) mon _ _ _ w
              (hoare_run_batch cfg (eq cur) mon env vd batch cb) Hw) as [H1 _].
  rewrite Hrun in H1. cbn [snd] in H1. destruct H1 as (Hc1 & Hn1 & Hm1).
  unfold auto_tune_step in Htune.
  apply bind_returns in Htune as (p & w1' & [= <- <-] & Htune).
  rewrite Hc1 in Htune. unfold monitored in Hm1.
  destruct (auto_tune_enabled cfg); cbn [andb];
    [|injection Htune as <-; auto].
  destruct (metrics (self w1)) as [m1|] eqn:Hmet; rewrite <- Hm1;
    [|injection Htune as <-; auto].
  apply bind_returns in Htune as (mem & w2 & Hmem & Htune).
  unfold _get_memory_usage_mb, bind, emit, ret in Hmem.
  injection Hmem as <- <-.
  apply bind_returns in Htune as (p2 & w2' & [= <- <-] & Htune).
  cbn [self] in Htune. rewrite Hmet in Htune.
  apply bind_returns in Htune as (n & w3 & Hcalc & Hput).
  set (w2 := mkWorld (self w1) (locals w1) (trace w1 ++ [MemorySample]))
    in Hcalc.
  set (used := memory_mb env (List.length (trace w1))) in Hcalc.
  pose proof (calculate_agrees (records_per_second m1) used w2) as Hag.
  pose proof (calculate_keeps (records_per_second m1) used w2)
    as [Htr Hrps].
  assert (Hw2 : J cfg (eq cur) true (self w2))
    by (repeat split; try assumption; unfold monitored; cbn [w2 self];
        now rewrite Hmet).
  destruct (hoare_final cfg (eq cur) true _ _ _ w2
              (hoare_calculate cfg (eq cur) true
                 (records_per_second m1) used) Hw2) as [(Hc3 & _ & _) _].
  rewrite Hcalc in Hag, Hc3, Htr, Hrps. cbv zeta in Hag.
  cbn [self fst snd w2 trace] in Hag, Hc3, Htr, Hrps.
  rewrite Hmet in Hrps. cbn [option_map] in Hrps.
  unfold put_current_batch_size, bind, get_self, put_self in Hput.
  injection Hput as <-. cbn [self config current_batch_size metrics trace].
  split; [exact Hc3|].
  destruct (metrics (self w3)) as [m3|]; [|discriminate].
  injection Hrps as Hrps.
  exists m3, (trace w1). split; [reflexivity|]. split; [exact Htr|].
  rewrite Hrps. fold used.
  rewrite Hc1, <- Hn1 in Hag.
  destruct (tuned_batch_size cfg cur (records_per_second m1) used)
    as [e|n']; [discriminate|].
  destruct Hag as [[= ->]|(e & He & _)]; [reflexivity|discriminate].
Qed.

(** C4, as the code has it.  With auto-tuning enabled,
    [_calculate_optimal_batch_size] returns [tuned_batch_size]: the
    candidate is [int(current * min(memory_factor, performance_factor))]
    where [memory_factor] is [max(0.5, threshold/used)] when the memory
    used exceeds the threshold and 1 otherwise, and [performance_factor]
    is [min(1.5, target/observed)] when the observed throughput is
    positive and below the target and 1 otherwise; the candidate is
    clamped to [[min, max]] and returned when it is more than 10% of the
    current size away from it, else the current size is returned (as it
    is when auto-tuning is off).  The call raises what the rule raises,
    or the division of the new size by the current one in the
    bookkeeping of an adopted change.  In a call of [process_batches],
    after a batch whose [try] body raised nothing, the call goes on with
    the batches that remain, and the batch size it goes on with is, when
    auto-tuning is enabled and metrics are kept, the value of the rule
    at the throughput recorded in the metrics and at the memory sampled
    last, and the size it was otherwise. *)
Theorem tuning_rule
    (env : environment) (data : list item) (op : string) (cb : bool)
    (w : world) (before : list Z) (s : Z) (after : list Z)
    (w_k w_k' : world) (observed used : float) :
  (let cfg := config (self w) in
   let cur := current_batch_size (self w) in
   let r := fst (_calculate_optimal_batch_size observed used w) in
   match tuned_batch_size cfg cur observed used with
   | inl e => r = inl e
   | inr n =>
       r = inr n
       \/ exists e, r = inl e /\ PyFloat.int_truediv n cur = inl e
   end)
  /\ (let vd := _validate_batch_data (config (self w)) data op in
      reaches env data op cb w before s after w_k ->
      try_batch env vd (batch_at vd (self w_k) s) cb w_k = (inr tt, w_k') ->
      process_batches env data op cb w
      = (batches_loop env vd cb after ;;; finish env vd cb) w_k'
      /\ config (self w_k') = config (self w)
      /\ if auto_tune_enabled (config (self w)) && monitored (self w)
         then exists m front,
                metrics (self w_k') = Some m
                /\ trace w_k' = (front ++ [MemorySample])%list
                /\ tuned_batch_size (config (self w))
                                    (current_batch_size (self w_k))
                                    (records_per_second m)
                                    (memory_mb env (List.length front))
                   = inr (current_batch_size (self w_k'))
         else current_batch_size (self w_k') = current_batch_size (self w_k)).
Proof.
  split; [apply calculate_agrees|].
  intros vd Hreach Htry.
  pose proof (reaches_config _ _ _ _ _ _ _ _ _ Hreach) as [Hcfg Hmon].
  pose proof (process_batches_from _ _ _ _ _ _ _ _ _ Hreach) as Hrun.
  fold vd in Hrun.
  assert (Hpass : process_batch env vd cb s w_k = (inr tt, w_k'))
    by (unfold process_batch, bind, get_self, try_except; now rewrite Htry).
  rewrite (bind_after _ _ _ _ _ Hpass) in Hrun.
  split; [exact Hrun|].
  destruct (tuned_from_samples env vd _ cb w_k w_k' Htry) as [Hc Hsize].
  rewrite Hcfg, Hmon in Hsize. rewrite Hcfg in Hc.
  split; [exact Hc|exact Hsize].
Qed.

(** In the sample run the first batch of four is inserted at 0.04
    records per second with 400 MB in use, four times the threshold:
    the rule halves the size. *)
Lemma tuning_rule_witness :
  let w := start (new_processor sample_config true) in
  let vd := _validate_batch_data (config (self w)) sample_data "posts" in
  let w' := snd (try_batch sample_env vd (batch_at vd (self (loop_start w)) 0)
                           false (loop_start w)) in
  process_batches sample_env sample_data "posts" false w
  = (batches_loop sample_env vd false [4; 8] ;;; finish sample_env vd false) w'
  /\ config (self w') = config (self w)
  /\ (exists m front,
        metrics (self w') = Some m
        /\ trace w' = (front ++ [MemorySample])%list
        /\ tuned_batch_size sample_config 4 (records_per_second m)
                            (memory_mb sample_env (List.length front))
           = inr (current_batch_size (self w')))
  /\ current_batch_size (self w') = 2.
Proof.
  intros w vd w'.
  assert (Hreach : reaches sample_env sample_data "posts" false w [] 0 [4; 8]
                           (loop_start w))
    by (repeat split; vm_compute; discriminate).
  assert (Htry : try_batch sample_env vd (batch_at vd (self (loop_start w)) 0)
                           false (loop_start w) = (inr tt, w'))
    by (vm_compute; reflexivity).
  destruct (proj2 (tuning_rule sample_env sample_data "posts" false w
                     [] 0 [4; 8] (loop_start w) w' 0%float 0%float)
              Hreach Htry) as (H1 & H2 & H3).
  split; [exact H1|]. split; [exact H2|]. split; [exact H3|].
  vm_compute. reflexivity.
Defined.

End BatchProcessorSpec.

(* ===================================================================== *)
(** * Further properties of the SQL dump parser                           *)
(* ===================================================================== *)

Module VoatSQLParserFacts.
Import PyStr PyNum VoatSQLParser.
Local Open Scope string_scope.

(** ** The fast path *)

Definition no_value (r : PyExn.result (option value)) : Prop :=
  r = inr None \/ r = inl (PyExn.AttributeError "_convert_value").

Lemma quick_loop_no_value (n : nat) :
  forall (rest : string) (field_idx field_count : nat) (current : string)
         (in_string : bool) (paren_depth : nat),
    (String.length rest <= n)%nat ->
    no_value (quick_loop rest field_idx field_count current in_string
                         paren_depth).
Proof.
  induction n as [|n IH]; intros rest idx cnt cur ins depth Hlen;
    destruct rest as [|c rest']; simpl in *;
    try (destruct (idx <? cnt)%nat; left; reflexivity); [lia|].
  destruct (idx <? cnt)%nat; [left; reflexivity|].
  repeat match goal with
         | |- no_value (if ?b then _ else _) => destruct b
         | |- no_value (match ?x with O => _ | S _ => _ end) => destruct x
         | |- no_value (match ?s with EmptyString => _ | String _ _ => _ end) =>
             destruct s; simpl in Hlen
         end;
    try (apply IH; simpl; lia);
    first [left; reflexivity | right; reflexivity].
Qed.

Lemma quick_extract_no_value (text : string) (start field_idx : nat) :
  no_value (_quick_extract_field text start field_idx).
Proof.
  apply (quick_loop_no_value (String.length (drop (S start) text))). lia.
Qed.

(** The partial-field extraction never produces a field: whatever the
    text, the tuple position and the field index, it returns [None] or
    fails on the missing [_convert_value] attribute. *)
Theorem quick_extract_never_yields_a_field
    (text : string) (start field_idx : nat) :
  _quick_extract_field text start field_idx = inr None
  \/ _quick_extract_field text start field_idx
     = inl (PyExn.AttributeError "_convert_value").
Proof. exact (quick_extract_no_value text start field_idx). Qed.

(** An extraction that finds nothing. *)
Definition no_quick_extract (text : string) (start field_idx : nat)
  : PyExn.result (option value) := inr None.

Section FastPath.
Variable float_repr : float_lit -> string.

Lemma tuple_step_fast_path_idle (columns : list string)
    (subverse_idx : option nat) (filter_lower : option (list string))
    (st : gen_state) :
  tuple_step float_repr _quick_extract_field columns subverse_idx
             filter_lower st
  = tuple_step float_repr no_quick_extract columns subverse_idx
               filter_lower st.
Proof.
  unfold tuple_step, no_quick_extract.
  destruct (find (buffer st) "(" 0) as [paren_start|]; [|reflexivity].
  destruct filter_lower as [[|f fl]|], subverse_idx as [idx|];
    try reflexivity.
  destruct (quick_extract_no_value (buffer st) paren_start idx) as [-> | ->];
    reflexivity.
Qed.

Lemma tuples_loop_fast_path_idle (columns : list string)
    (subverse_idx : option nat) (filter_lower : option (list string))
    (fuel : nat) :
  forall st,
    tuples_loop float_repr _quick_extract_field fuel columns subverse_idx
                filter_lower st
    = tuples_loop float_repr no_quick_extract fuel columns subverse_idx
                  filter_lower st.
Proof.
  induction fuel as [|fuel IH]; intros st; simpl; [reflexivity|].
  rewrite tuple_step_fast_path_idle.
  destruct (tuple_step _ _ _ _ _ st); [apply IH|reflexivity].
Qed.

Lemma lines_loop_fast_path_idle (table_name : string) (columns : list string)
    (subverse_idx : option nat) (filter_lower : option (list string))
    (lines : list string) :
  forall fuel st,
    lines_loop float_repr _quick_extract_field fuel table_name columns
               subverse_idx filter_lower lines st
    = lines_loop float_repr no_quick_extract fuel table_name columns
                 subverse_idx filter_lower lines st.
Proof.
  induction lines as [|line more IH]; intros fuel st; simpl; [reflexivity|].
  destruct (line_dispatch table_name line st) as [st1|]; [|apply IH].
  destruct (is_empty (buffer st1)); [apply IH|].
  rewrite tuples_loop_fast_path_idle.
  destruct (tuples_loop _ _ _ _ _ _ st1) as [[fuel'|] st2];
    [apply IH|reflexivity].
Qed.

End FastPath.

(** The fast path never decides anything: with or without a filter,
    [stream_rows] yields, opens and ends exactly as it would if the
    partial-field extraction found nothing, so every skipped row is
    skipped by the check that follows the full parse. *)
Theorem fast_path_never_skips
    (float_repr : float_lit -> string) (fuel : nat) (fs : string -> gz_file)
    (file_path table_name : string) (filter_subverses : option (list string)) :
  stream_rows float_repr fuel fs file_path table_name filter_subverses
  = stream_rows_with float_repr no_quick_extract fuel fs file_path table_name
                     filter_subverses.
Proof.
  unfold stream_rows, stream_rows_with.
  destruct (COLUMN_MAPS table_name) as [columns|]; [|reflexivity].
  destruct (fs file_path) as [|lines truncated]; [reflexivity|].
  rewrite lines_loop_fast_path_idle. reflexivity.
Qed.

(** ** Where a tuple ends *)

Lemma length_drop (n : nat) :
  forall s, String.length (drop n s) = (String.length s - n)%nat.
Proof.
  induction n as [|n IH]; intros [|c r]; simpl; auto. 
Qed.

Lemma parse_loop_end (n : nat) :
  forall (rest : string) (i len : nat) (values : list value)
         (current : string) (st : state) (was_quoted : bool),
    (String.length rest <= n)%nat ->
    (i + String.length rest = len)%nat ->
    (i <= snd (parse_loop rest i len values current st was_quoted) <= len)%nat
    /\ (fst (parse_loop rest i len values current st was_quoted) = [] ->
        snd (parse_loop rest i len values current st was_quoted) = len).
Proof.
  induction n as [|n IH]; intros rest i len values current st wq Hn Hlen;
    destruct rest as [|c rest']; simpl in *; try lia.
  assert (Hrec : forall vs cur s q,
            (S i <= snd (parse_loop rest' (S i) len vs cur s q) <= len)%nat
            /\ (fst (parse_loop rest' (S i) len vs cur s q) = [] ->
                snd (parse_loop rest' (S i) len vs cur s q) = len))
    by (intros; apply IH; lia).
  destruct st.
  - (* OUTSIDE *)
    repeat match goal with
           | |- context [if ?b then _ else _] => destruct b
           end;
      try (destruct (Hrec values current IN_STRING true); split; [lia|auto]);
      try (destruct (Hrec (values ++ [_parse_value (strip current) wq])%list
                          "" OUTSIDE false); split; [lia|auto]);
      try (destruct (Hrec values (snoc current c) OUTSIDE wq);
           split; [lia|auto]).
    simpl. split; [lia|]. intros H. now destruct values.
  - (* IN_STRING *)
    destruct (Ascii.eqb c "\").
    { destruct (Hrec values current ESCAPE wq); split; [lia|auto]. }
    destruct (Ascii.eqb c "'").
    + destruct rest' as [|next rest''].
      { destruct (Hrec values current OUTSIDE wq); split; [lia|auto]. }
      destruct (Ascii.eqb next "'").
      * simpl in *.
        destruct (IH rest'' (S (S i)) len values (snoc current "'")
                     IN_STRING wq) as [H1 H2]; [lia|lia|].
        split; [lia|auto].
      * destruct (Hrec values current OUTSIDE wq); split; [lia|auto].
    + destruct (Hrec values (snoc current c) IN_STRING wq); split; [lia|auto].
  - (* ESCAPE *)
    destruct (Hrec values (snoc current (unescape c)) IN_STRING wq);
      split; [lia|auto].
Qed.

(** [_parse_values_tuple] always makes progress and stays within the
    text: the end position it returns is at most the length of the text,
    lies beyond the opening parenthesis whenever that is inside the text,
    and is the end of the text when no field was completed. *)
Theorem tuple_end_is_past_start_and_within_text (text : string) (start : nat) :
  (snd (_parse_values_tuple text start) <= String.length text)%nat
  /\ ((start < String.length text)%nat ->
      (start < snd (_parse_values_tuple text start))%nat)
  /\ (fst (_parse_values_tuple text start) = [] ->
      snd (_parse_values_tuple text start) = String.length text).
Proof.
  unfold _parse_values_tuple.
  destruct (Nat.le_gt_cases (String.length text) start) as [Hout|Hin].
  - assert (E : drop (S start) text = "").
    { pose proof (length_drop (S start) text) as H.
      destruct (drop (S start) text); [reflexivity|simpl in H; lia]. }
    rewrite E. simpl. repeat split; lia.
  - destruct (parse_loop_end (String.length (drop (S start) text))
                (drop (S start) text) (S start) (String.length text)
                [] "" OUTSIDE false) as [H1 H2];
      [lia|rewrite length_drop; lia|].
    repeat split; try lia. exact H2.
Qed.

(** ** The shape of a yielded row *)

Section Rows.
Variable float_repr : float_lit -> string.
Variable quick : string -> nat -> nat -> PyExn.result (option value).
Variable columns : list string.






End Rows.


(** ** A tuple that never ends *)

(** Only whitespace. *)
Fixpoint blank (s : string) : bool :=
  match s with
  | EmptyString => true
  | String c r => isspace c && blank r
  end.

Lemma is_empty_lstrip (s : string) :
  is_empty (lstrip_with isspace s) = blank s.
Proof.
  induction s as [|c r IH]; simpl; [reflexivity|].
  destruct (isspace c); [exact IH|reflexivity].
Qed.

Lemma is_empty_rstrip (s : string) :
  is_empty (rstrip_with isspace s) = blank s.
Proof.
  induction s as [|c r IH]; simpl; [reflexivity|].
  destruct (rstrip_with isspace r); simpl in IH; rewrite <- IH.
  - destruct (isspace c); reflexivity.
  - now rewrite andb_false_r.
Qed.

Lemma blank_lstrip (s : string) : blank (lstrip_with isspace s) = blank s.
Proof.
  induction s as [|c r IH]; simpl; [reflexivity|].
  destruct (isspace c) eqn:E; [exact IH|]. simpl. now rewrite E.
Qed.

Lemma is_empty_strip (s : string) : is_empty (strip s) = blank s.
Proof.
  unfold strip, strip_with. now rewrite is_empty_rstrip, blank_lstrip.
Qed.

Lemma find_paren_not_blank (s : string) :
  forall i p, find_from "(" s i = Some p -> blank s = false.
Proof.
  induction s as [|c r IH]; intros i p; cbn [find_from String.prefix blank];
    [discriminate|].
  destruct (ascii_dec "(" c) as [<-|Hc]; [reflexivity|].
  intros H. apply IH in H. rewrite H. apply andb_false_r.
Qed.

Section Hang.
Variable float_repr : float_lit -> string.

(** The state in which the tuple loop cannot advance: standard layout, an
    opening parenthesis after which no field is ever completed, and no
    semicolon at the front of the buffer. *)
Definition stuck (st : gen_state) : Prop :=
  in_split_format st = false
  /\ (exists paren_start,
        find (buffer st) "(" 0 = Some paren_start
        /\ fst (_parse_values_tuple (buffer st) paren_start) = [])
  /\ startswith (strip (buffer st)) ";" = false.

Lemma stuck_not_blank (st : gen_state) :
  stuck st -> blank (buffer st) = false.
Proof.
  intros (_ & (p & Hfind & _) & _). unfold find in Hfind. simpl in Hfind.
  now apply find_paren_not_blank in Hfind.
Qed.

Lemma tuple_step_stuck (columns : list string) (subverse_idx : option nat)
    (filter_lower : option (list string)) (st : gen_state) :
  stuck st ->
  tuple_step float_repr _quick_extract_field columns subverse_idx
             filter_lower st = Continue st.
Proof.
  intros Hst. pose proof (stuck_not_blank st Hst) as Hblank.
  destruct Hst as (Hsplit & (p & Hfind & Hvalues) & Hsemi).
  rewrite tuple_step_fast_path_idle. unfold tuple_step, no_quick_extract.
  rewrite Hfind.
  destruct (_parse_values_tuple (buffer st) p) as [values end_pos].
  simpl in Hvalues. subst values.
  assert (E : end_of_buffer_checks st = Continue st).
  { unfold end_of_buffer_checks.
    now rewrite is_empty_strip, Hblank, Hsplit, Hsemi. }
  destruct filter_lower as [[|f fl]|], subverse_idx as [idx|]; exact E.
Qed.

Lemma tuples_loop_stuck (columns : list string) (subverse_idx : option nat)
    (filter_lower : option (list string)) (st : gen_state) (fuel : nat) :
  stuck st ->
  tuples_loop float_repr _quick_extract_field fuel columns subverse_idx
              filter_lower st = (None, st).
Proof.
  intros Hst. induction fuel as [|fuel IH]; simpl; [reflexivity|].
  now rewrite tuple_step_stuck.
Qed.

End Hang.

(** In the standard layout a tuple that is opened but in which no field
    is completed (no comma and no closing parenthesis outside quotes
    follows the opening parenthesis, as in a line cut short inside its
    first field) makes the tuple loop spin: when the first line of the
    dump leaves such a buffer, [stream_rows] yields nothing and never
    finishes, whatever fuel the run is given. *)
Theorem unterminated_first_tuple_never_finishes
    (float_repr : float_lit -> string) (fuel : nat) (fs : string -> gz_file)
    (file_path table_name : string) (filter_subverses : option (list string))
    (line : string) (more : list string) (truncated : bool)
    (st : gen_state) :
  (table_name = "submission" \/ table_name = "comment") ->
  fs file_path = GzLines (line :: more) truncated ->
  line_dispatch table_name line initial_state = Some st ->
  stuck st ->
  stream_rows float_repr fuel fs file_path table_name filter_subverses
  = mkRun [] [file_path; file_path] OutOfFuel.
Proof.
  intros Hk Hfs Hdispatch Hst. unfold stream_rows, stream_rows_with.
  assert (exists cols, COLUMN_MAPS table_name = Some cols) as [cols ->]
    by (destruct Hk as [-> | ->]; eexists; reflexivity).
  rewrite Hfs. cbn [lines_loop]. rewrite Hdispatch.
  pose proof (stuck_not_blank st Hst) as Hblank.
  assert (Hbuf : is_empty (buffer st) = false)
    by (destruct (buffer st); [discriminate|reflexivity]).
  rewrite Hbuf, tuples_loop_stuck by exact Hst.
  apply VoatSQLParserSpec.line_dispatch_yielded in Hdispatch.
  now rewrite Hdispatch.
Qed.

Lemma unterminated_first_tuple_never_finishes_witness :
  stream_rows (fun _ => "") 1000
              (fun _ => GzLines ["INSERT INTO `comment` VALUES (1"] false)
              "comment.sql.gz" "comment" None
  = mkRun [] ["comment.sql.gz"; "comment.sql.gz"] OutOfFuel.
Proof.
  apply (unterminated_first_tuple_never_finishes (fun _ => "") 1000
           (fun _ => GzLines ["INSERT INTO `comment` VALUES (1"] false)
           "comment.sql.gz" "comment" None
           "INSERT INTO `comment` VALUES (1" [] false
           (mkGen " (1" false false 0 0 0 [])).
  - right. reflexivity.
  - reflexivity.
  - reflexivity.
  - split; [reflexivity|]. split; [|reflexivity].
    exists 1%nat. split; reflexivity.
Defined.

(** ** Lines the parser passes over *)

(** Blank lines, SQL comments and the DDL statements the dump carries. *)
Definition passed_over (line : string) : bool :=
  let stripped := strip line in
  is_empty stripped || startswith stripped "--" || startswith stripped "/*"
  || is_ddl stripped.

Lemma line_dispatch_passed_over (table_name line : string) (st : gen_state) :
  passed_over line = true -> line_dispatch table_name line st = None.
Proof.
  unfold passed_over, line_dispatch. cbv zeta. intros H.
  destruct (is_empty (strip line) || startswith (strip line) "--"
            || startswith (strip line) "/*"); [reflexivity|].
  simpl in H. now rewrite H.
Qed.

Lemma lines_loop_passed_over (float_repr : float_lit -> string)
    (table_name : string) (columns : list string) (subverse_idx : option nat)
    (filter_lower : option (list string)) (line : string)
    (before after : list string) :
  passed_over line = true ->
  forall fuel st,
    lines_loop float_repr _quick_extract_field fuel table_name columns
               subverse_idx filter_lower (before ++ line :: after)%list st
    = lines_loop float_repr _quick_extract_field fuel table_name columns
                 subverse_idx filter_lower (before ++ after)%list st.
Proof.
  intros Hline. induction before as [|l ls IH]; intros fuel st; simpl.
  - now rewrite line_dispatch_passed_over.
  - destruct (line_dispatch table_name l st) as [st1|]; [|apply IH].
    destruct (is_empty (buffer st1)); [apply IH|].
    destruct (tuples_loop _ _ _ _ _ _ st1) as [[fuel'|] st2];
      [apply IH|reflexivity].
Qed.

(** Blank lines, [--] and [/*] comments and [CREATE], [DROP], [ALTER],
    [SET] and [USE] statements carry no rows and disturb none: wherever
    such a line stands in the dump, even inside a tuple that spans several
    lines, the rows yielded are those of the dump without it. *)
Theorem passed_over_lines_change_no_row
    (float_repr : float_lit -> string) (fuel : nat)
    (file_path table_name : string) (filter_subverses : option (list string))
    (line : string) (before after : list string) (truncated : bool) :
  passed_over line = true ->
  rows (stream_rows float_repr fuel
          (fun _ => GzLines (before ++ line :: after)%list truncated)
          file_path table_name filter_subverses)
  = rows (stream_rows float_repr fuel
            (fun _ => GzLines (before ++ after)%list truncated)
            file_path table_name filter_subverses).
Proof.
  intros Hline. unfold stream_rows, stream_rows_with.
  destruct (COLUMN_MAPS table_name) as [columns|]; [|reflexivity].
  assert (E : forall sidx fl,
            yielded (snd (lines_loop float_repr _quick_extract_field fuel
                            table_name columns sidx fl
                            (before ++ line :: after)%list initial_state))
            = yielded (snd (lines_loop float_repr _quick_extract_field fuel
                              table_name columns sidx fl (before ++ after)%list
                              initial_state)))
    by (intros; now rewrite lines_loop_passed_over).
  assert (R : forall (p : option nat * gen_state) (o : list string) (b : bool),
            rows (match p with
                  | (None, st) => mkRun (yielded st) o OutOfFuel
                  | (Some _, st) =>
                      mkRun (yielded st) o
                            (if b then Raised PyExn.EOFError else Finished)
                  end) = yielded (snd p))
    by (intros [[k|] st] o b; reflexivity).
  assert (Hx : exists x xs, (before ++ line :: after)%list = x :: xs)
    by (destruct before; simpl; eauto).
  destruct Hx as (x & xs & Hx). rewrite Hx, R, <- Hx, E.
  destruct (before ++ after)%list as [|y ys] eqn:Hy.
  - destruct truncated; reflexivity.
  - now rewrite R.
Qed.

(** A comment of the split format written on two lines, with a [--]
    line between them: the row is yielded with the line and without it. *)
Definition split_comment_head : string :=
  "(5,'it''s',0,0,0,0,0,0,0,0," ++ String "010" "".
Definition split_comment_tail : string :=
  "0,0,0,0,0,0,0,0,0,0,0,0)" ++ String "010" "".
Definition note_line : string := "-- note" ++ String "010" "".

Lemma passed_over_lines_change_no_row_witness :
  rows (stream_rows (fun _ => "") 100
          (fun _ => GzLines ([split_comment_head]
                             ++ note_line :: [split_comment_tail])%list false)
          "dump.sql.gz" "comment" None)
  = rows (stream_rows (fun _ => "") 100
            (fun _ => GzLines ([split_comment_head]
                               ++ [split_comment_tail])%list false)
            "dump.sql.gz" "comment" None)
  /\ List.length
       (rows (stream_rows (fun _ => "") 100
                (fun _ => GzLines ([split_comment_head]
                                   ++ [split_comment_tail])%list false)
                "dump.sql.gz" "comment" None)) = 1%nat
  /\ option_map (fun r => nth_error r 1)
       (nth_error
          (rows (stream_rows (fun _ => "") 100
                   (fun _ => GzLines ([split_comment_head]
                                      ++ note_line
                                      :: [split_comment_tail])%list false)
                   "dump.sql.gz" "comment" None)) 0)
     = Some (Some ("content", VStr "it's")).
Proof.
  split; [|split; vm_compute; reflexivity].
  apply (passed_over_lines_change_no_row (fun _ => "") 100 "dump.sql.gz"
           "comment" None note_line [split_comment_head] [split_comment_tail]
           false).
  reflexivity.
Defined.

End VoatSQLParserFacts.

(* ===================================================================== *)
(** * INSERT statements read field by field                               *)
(* ===================================================================== *)

Module VoatSQLParserStatements.
Import PyStr PyNum VoatSQLParser VoatSQLParserSpec.
Local Open Scope string_scope.

(** ** Tuples field by field *)

(** A field as the dump writes it: a quoted string [src] that stands for
    the characters [lit], or a bare token (a number, [NULL]). *)
Inductive field : Type :=
| Quoted (src lit : string)
| Bare (token : string).

(** The characters that neither open a string nor end a field. *)
Definition bare_char (c : ascii) : bool :=
  negb (Ascii.eqb c "'") && negb (Ascii.eqb c ",") && negb (Ascii.eqb c ")").

Definition well_formed (f : field) : Prop :=
  match f with
  | Quoted src lit => encodes src lit
  | Bare token => all_chars bare_char token = true
  end.

Definition render_field (f : field) : string :=
  match f with
  | Quoted src _ => "'" ++ src ++ "'"
  | Bare token => token
  end.

(** The fields separated by commas. *)
Fixpoint render_fields (fields : list field) : string :=
  match fields with
  | [] => ""
  | [f] => render_field f
  | f :: rest => render_field f ++ "," ++ render_fields rest
  end.

Definition render_tuple (fields : list field) : string :=
  "(" ++ render_fields fields ++ ")".

(** What the field converts to: the text it stands for, stripped and
    passed to [_parse_value]. *)
Definition field_value (f : field) : value :=
  match f with
  | Quoted _ lit => _parse_value (strip lit) true
  | Bare token => _parse_value (strip token) false
  end.

Lemma bare_token_loop (token : string) :
  all_chars bare_char token = true ->
  forall (tail : string) i len values current wq,
    parse_loop (token ++ tail) i len values current OUTSIDE wq
    = parse_loop tail (i + String.length token) len values
                 (current ++ token) OUTSIDE wq.
Proof.
  induction token as [|c r IH]; intros Hb tail i len values current wq.
  - simpl. now rewrite append_empty_r, Nat.add_0_r.
  - simpl in Hb. apply andb_true_iff in Hb as [Hc Hr].
    unfold bare_char in Hc.
    apply andb_true_iff in Hc as [Hc H3]. apply andb_true_iff in Hc as [H1 H2].
    apply negb_true_iff in H1, H2, H3.
    cbn [append parse_loop]. rewrite H1, H2, H3.
    rewrite (IH Hr). rewrite snoc_append. cbn [String.length].
    now replace (S i + String.length r)%nat
      with (i + S (String.length r))%nat by lia.
Qed.

(** In front of a delimiter, the loop reads a field into the accumulator
    and notes whether it was quoted. *)
Lemma field_loop (f : field) (d : ascii) (tail : string) :
  well_formed f -> d <> "'"%char ->
  forall i len values,
    parse_loop (render_field f ++ String d tail) i len values "" OUTSIDE false
    = parse_loop (String d tail) (i + String.length (render_field f)) len
                 values
                 (match f with Quoted _ lit => lit | Bare token => token end)
                 OUTSIDE
                 (match f with Quoted _ _ => true | Bare _ => false end).
Proof.
  intros Hf Hd i len values. destruct f as [src lit|token]; simpl in Hf.
  - cbn [render_field append]. rewrite append_assoc. cbn [append].
    change (parse_loop (String "'" (src ++ String "'" (String d tail))) i len
                       values "" OUTSIDE false)
      with (parse_loop (src ++ String "'" (String d tail)) (S i) len values
                       "" IN_STRING true).
    rewrite (parse_loop_decodes src lit Hf) by assumption.
    cbn [append String.length]. rewrite length_append. cbn [String.length].
    f_equal. lia.
  - cbn [render_field]. now rewrite (bare_token_loop token Hf).
Qed.

Lemma fields_loop (fields : list field) :
  fields <> [] -> Forall well_formed fields ->
  forall (after : string) i len values,
    parse_loop (render_fields fields ++ String ")" after) i len values ""
               OUTSIDE false
    = ((values ++ map field_value fields)%list,
       (i + String.length (render_fields fields) + 1)%nat).
Proof.
  induction fields as [|f rest IH]; [congruence|].
  intros _ Hall after i len values.
  inversion Hall as [|? ? Hf Hrest]; subst.
  destruct rest as [|g rest].
  - cbn [render_fields map].
    rewrite (field_loop f ")" after Hf) by discriminate.
    destruct f as [src lit|token]; cbn [parse_loop Ascii.eqb Bool.eqb];
      f_equal; lia.
  - change (render_fields (f :: g :: rest))
      with (render_field f ++ "," ++ render_fields (g :: rest)).
    rewrite !append_assoc.
    change ("," ++ render_fields (g :: rest) ++ String ")" after)
      with (String "," (render_fields (g :: rest) ++ String ")" after)).
    rewrite (field_loop f "," _ Hf) by discriminate.
    assert (Hstep : forall cur wq j,
              parse_loop (String "," (render_fields (g :: rest)
                                      ++ String ")" after))
                         j len values cur OUTSIDE wq
              = parse_loop (render_fields (g :: rest) ++ String ")" after)
                           (S j) len
                           (values ++ [_parse_value (strip cur) wq])%list
                           "" OUTSIDE false) by reflexivity.
    rewrite Hstep, IH by (congruence || assumption).
    rewrite <- app_assoc. cbn [map app].
    rewrite !length_append. cbn [String.length].
    destruct f; cbn [field_value]; f_equal; lia.
Qed.

Lemma tuple_split (before after : string) (fields : list field) :
  fields <> [] -> Forall well_formed fields ->
  _parse_values_tuple (before ++ render_tuple fields ++ after)
                      (String.length before)
  = (map field_value fields,
     (String.length before + String.length (render_tuple fields))%nat).
Proof.
  intros Hne Hall. unfold _parse_values_tuple, render_tuple.
  assert (Hdrop : forall b c t, drop (S (String.length b)) (b ++ String c t) = t)
    by (induction b; simpl; auto).
  assert (E : before ++ ("(" ++ render_fields fields ++ ")") ++ after
              = before ++ String "(" (render_fields fields ++ String ")" after)).
  { cbn [append]. rewrite append_assoc. reflexivity. }
  rewrite E at 1. rewrite Hdrop. rewrite E.
  rewrite (fields_loop fields Hne Hall).
  cbn [app]. f_equal. cbn [append String.length].
  rewrite length_append. simpl. lia.
Qed.

(** [_parse_values_tuple] splits a tuple at its top-level commas only and
    stops right after its closing parenthesis: for a tuple of well-formed
    fields (quoted strings, whose content may hold escaped or doubled
    quotes, commas and parentheses, and bare tokens), standing anywhere in
    a text, it returns one value per field, each the conversion of the
    text its field stands for, and the position after the parenthesis. *)
Theorem tuple_is_split_at_top_level_commas
    (before after : string) (fields : list field) :
  fields <> [] -> Forall well_formed fields ->
  _parse_values_tuple (before ++ render_tuple fields ++ after)
                      (String.length before)
  = (map field_value fields,
     (String.length before + String.length (render_tuple fields))%nat).
Proof.
  exact (tuple_split before after fields).
Qed.

Lemma tuple_is_split_at_top_level_commas_witness :
  _parse_values_tuple
    ("VALUES " ++ render_tuple [Bare "7"; Quoted "a,(b)''c" "a,(b)'c";
                                Bare "NULL"] ++ ",(8);")
    (String.length "VALUES ")
  = (map field_value [Bare "7"; Quoted "a,(b)''c" "a,(b)'c"; Bare "NULL"],
     (String.length "VALUES "
      + String.length (render_tuple [Bare "7"; Quoted "a,(b)''c" "a,(b)'c";
                                     Bare "NULL"]))%nat).
Proof.
  apply (tuple_is_split_at_top_level_commas "VALUES " ",(8);"
           [Bare "7"; Quoted "a,(b)''c" "a,(b)'c"; Bare "NULL"]).
  - discriminate.
  - repeat constructor; discriminate.
Defined.

(** ** Escapes in any field *)

(** The escape table, entry by entry. *)
Definition escape_table : list (ascii * ascii) :=
  [("'", "'"); ("\", "\"); ("r", "013"); ("n", "010"); ("t", "009");
   ("0", "000"); ("b", "008"); ("Z", "026")]%char.

Lemma escape_map_table (e d : ascii) :
  ESCAPE_MAP e = Some d <-> In (e, d) escape_table.
Proof.
  unfold ESCAPE_MAP, escape_table. split.
  - repeat match goal with
           | |- context [Ascii.eqb e ?c] =>
               destruct (Ascii.eqb_spec e c) as [->|?]
           end; intros [= <-]; simpl; tauto.
  - simpl.
    intros H; repeat (destruct H as [[= <- <-]|H]; [reflexivity|]).
    destruct H.
Qed.

(** C1, as the code has it.  In a tuple of well-formed fields standing
    anywhere in a text, a string value at any position, written with the
    escapes of the fixed table and the doubled quote, is decoded to the
    characters [lit] the escapes denote; the value returned for it is
    [_parse_value] of [lit] with its leading and trailing whitespace
    stripped.  When [lit] holds an escaped character and neither begins
    nor ends with whitespace, the value is the Python string [lit]
    itself.  The escapes denote what the table of the source says: the
    quote, the backslash, carriage return, line feed, tab, NUL, backspace
    and Ctrl-Z. *)
Theorem escapes_decode_to_stripped_literal
    (before after : string) (fields : list field) (k : nat)
    (src lit : string) :
  Forall well_formed fields ->
  nth_error fields k = Some (Quoted src lit) ->
  nth_error
    (fst (_parse_values_tuple (before ++ render_tuple fields ++ after)
                              (String.length before))) k
  = Some (_parse_value (strip lit) true)
  /\ (has_char escaped_char lit = true -> strip lit = lit ->
      nth_error
        (fst (_parse_values_tuple (before ++ render_tuple fields ++ after)
                                  (String.length before))) k
      = Some (VStr lit))
  /\ (forall e d, ESCAPE_MAP e = Some d <-> In (e, d) escape_table).
Proof.
  intros Hall Hk.
  assert (Hne : fields <> []) by (destruct fields, k; discriminate).
  rewrite (tuple_split before after fields Hne Hall). cbn [fst].
  assert (Hv : nth_error (map field_value fields) k
               = Some (_parse_value (strip lit) true))
    by (rewrite nth_error_map, Hk; reflexivity).
  split; [exact Hv|]. split; [|apply escape_map_table].
  intros Hesc Hstrip. rewrite Hv, Hstrip.
  now rewrite escaped_token_is_text.
Qed.

(** The sample text as the second of three fields. *)
Lemma escapes_decode_to_stripped_literal_witness :
  nth_error
    (fst (_parse_values_tuple
            ("VALUES " ++ render_tuple [Bare "7"; Quoted sample_src sample_lit;
                                        Bare "NULL"] ++ ",(8);")
            (String.length "VALUES "))) 1
  = Some (_parse_value (strip sample_lit) true)
  /\ (has_char escaped_char sample_lit = true ->
      strip sample_lit = sample_lit ->
      nth_error
        (fst (_parse_values_tuple
                ("VALUES " ++ render_tuple [Bare "7";
                                            Quoted sample_src sample_lit;
                                            Bare "NULL"] ++ ",(8);")
                (String.length "VALUES "))) 1
      = Some (VStr sample_lit))
  /\ (forall e d, ESCAPE_MAP e = Some d <-> In (e, d) escape_table).
Proof.
  apply (escapes_decode_to_stripped_literal "VALUES " ",(8);"
           [Bare "7"; Quoted sample_src sample_lit; Bare "NULL"] 1
           sample_src sample_lit).
  - constructor; [reflexivity|].
    constructor; [exact sample_encodes|].
    constructor; [reflexivity|constructor].
  - reflexivity.
Defined.

(** ** A whole INSERT statement *)

(** The tuples of a statement, each after its separator: a blank before
    the first, a comma before the others. *)
Fixpoint tuples_text (sep : ascii) (tuples : list (list field)) : string :=
  match tuples with
  | [] => ""
  | t :: rest => String sep (render_tuple t ++ tuples_text "," rest)
  end.

(** One line of the dump: an INSERT statement for [table_name] with its
    tuples, the closing semicolon and whatever ends the line. *)
Definition insert_line (table_name : string) (tuples : list (list field))
    (tail : string) : string :=
  ("INSERT INTO `" ++ table_name ++ "` VALUES")
  ++ tuples_text " " tuples ++ String ";" tail.

Lemma strip_head (c : ascii) (r : string) :
  isspace c = false -> exists r', strip (String c r) = String c r'.
Proof.
  intros Hc. unfold strip, strip_with. cbn [lstrip_with]. rewrite Hc.
  cbn [rstrip_with]. destruct (rstrip_with isspace r); rewrite ?Hc; eauto.
Qed.

Lemma upper_app (a b : string) : upper (a ++ b) = upper a ++ upper b.
Proof.
  induction a as [|c a IH]; [reflexivity|]. cbn [append upper].
  repeat match goal with |- context [if ?x then _ else _] => destruct x end;
    cbn [append]; now rewrite IH.
Qed.

Lemma lower_app (a b : string) : lower (a ++ b) = lower a ++ lower b.
Proof. induction a as [|c a IH]; cbn [append lower]; congruence. Qed.

Lemma prefix_app (p x : string) : String.prefix p (p ++ x) = true.
Proof.
  induction p as [|c p IH]; [now destruct x|]. cbn [append String.prefix].
  destruct (ascii_dec c c); [exact IH|congruence].
Qed.

Lemma drop_app (pre s : string) : drop (String.length pre) (pre ++ s) = s.
Proof. induction pre; simpl; auto. Qed.

(** Scanning for [p] passes over characters that are not the first of
    [p]. *)
Lemma find_from_skip (h : ascii) (p pre s : string) :
  all_chars (fun c => negb (Ascii.eqb c h)) pre = true ->
  forall i,
    find_from (String h p) (pre ++ s) i
    = find_from (String h p) s (i + String.length pre).
Proof.
  induction pre as [|c pre IH]; intros Hpre i.
  - simpl. now rewrite Nat.add_0_r.
  - simpl in Hpre. apply andb_true_iff in Hpre as [Hc Hpre].
    apply negb_true_iff, Ascii.eqb_neq in Hc.
    cbn [append find_from String.prefix String.length].
    destruct (ascii_dec h c); [congruence|].
    rewrite (IH Hpre). f_equal. lia.
Qed.

Lemma find_at_head (h : ascii) (p s : string) (i : nat) :
  String.prefix (String h p) s = true -> find_from (String h p) s i = Some i.
Proof. intros H. destruct s; cbn [find_from]; now rewrite H. Qed.

Lemma find_zero (s p : string) : find s p 0 = find_from p s 0.
Proof. unfold find. now destruct s. Qed.

Lemma insert_line_dispatch (table_name : string)
    (tuples : list (list field)) (tail : string) (st : gen_state) :
  table_name = "submission" \/ table_name = "comment" ->
  line_dispatch table_name (insert_line table_name tuples tail) st
  = Some (set_split
            (set_buffer st (tuples_text " " tuples ++ String ";" tail))
            false).
Proof.
  intros Hk. unfold line_dispatch. cbv zeta.
  set (line := insert_line table_name tuples tail).
  assert (Hline : exists r, line = String "I" r)
    by (unfold line, insert_line; cbn [append]; eauto).
  destruct Hline as [r Hr].
  destruct (strip_head "I" r eq_refl) as [r' Hstrip].
  replace (strip line) with (String "I" r') by (now rewrite Hr, Hstrip).
  change (is_empty (String "I" r') || startswith (String "I" r') "--"
          || startswith (String "I" r') "/*") with false.
  assert (Hddl : is_ddl (String "I" r') = false) by reflexivity.
  rewrite Hddl.
  assert (Hpat : insert_pattern_search table_name line = true).
  { unfold insert_pattern_search, line, insert_line.
    rewrite find_zero,
      (lower_app ("INSERT INTO `" ++ table_name ++ "` VALUES")).
    destruct (lower ("INSERT INTO `" ++ table_name ++ "` VALUES"))
      as [|h p] eqn:Hp; [destruct Hk as [-> | ->]; discriminate|].
    rewrite find_at_head; [reflexivity|]. now rewrite prefix_app. }
  rewrite Hpat.
  assert (Hpos : find (upper line) "VALUES" 0
                 = Some (String.length ("INSERT INTO `" ++ table_name ++ "` "))).
  { unfold line, insert_line. rewrite find_zero.
    replace ("INSERT INTO `" ++ table_name ++ "` VALUES")
      with (("INSERT INTO `" ++ table_name ++ "` ") ++ "VALUES")
      by (destruct Hk as [-> | ->]; reflexivity).
    rewrite append_assoc,
      (upper_app ("INSERT INTO `" ++ table_name ++ "` ")),
      (upper_app "VALUES").
    rewrite find_from_skip
      by (destruct Hk as [-> | ->]; reflexivity).
    change (upper "VALUES") with "VALUES".
    rewrite find_at_head by apply prefix_app.
    f_equal. destruct Hk as [-> | ->]; reflexivity. }
  rewrite Hpos. do 3 f_equal.
  unfold line, insert_line.
  replace (String.length ("INSERT INTO `" ++ table_name ++ "` ") + 6)%nat
    with (String.length ("INSERT INTO `" ++ table_name ++ "` VALUES"))
    by (destruct Hk as [-> | ->]; reflexivity).
  apply drop_app.
Qed.

Section Statement.
Variable float_repr : float_lit -> string.
Variable columns : list string.
Variable subverse_idx : option nat.

(** The row a tuple is read as. *)
Definition row_of (fields : list field) : row :=
  combine columns (map field_value fields).

(** A tuple with one well-formed field per column. *)
Definition fits (fields : list field) : Prop :=
  Forall well_formed fields /\ List.length fields = List.length columns.

Hypothesis some_column : columns <> [].

Lemma tuple_step_reads_a_tuple (sep : ascii) (fields : list field)
    (rest : string) (st : gen_state) :
  sep <> "("%char -> fits fields ->
  in_split_format st = false ->
  buffer st = String sep (render_tuple fields ++ rest) ->
  tuple_step float_repr _quick_extract_field columns subverse_idx None st
  = end_of_buffer_checks
      (set_split
         (set_accumulating
            (set_buffer (yield_row st (row_of fields)) rest) false) false).
Proof.
  intros Hsep [Hwf Hlen] Hsplit Hbuf. unfold tuple_step.
  assert (Hne : fields <> []).
  { destruct fields; [|discriminate]. simpl in Hlen.
    destruct columns; [congruence|discriminate]. }
  assert (Hfind : find (buffer st) "(" 0 = Some 1%nat).
  { rewrite Hbuf, find_zero. cbn [find_from String.prefix].
    destruct (ascii_dec "(" sep); [congruence|].
    unfold render_tuple. cbn [append find_from String.prefix].
    destruct (ascii_dec "(" "("); [|congruence].
    now destruct ((render_fields fields ++ ")") ++ rest). }
  rewrite Hfind.
  assert (Hparse : _parse_values_tuple (buffer st) 1
                   = (map field_value fields,
                      S (String.length (render_tuple fields)))).
  { rewrite Hbuf.
    exact (tuple_split (String sep "") rest fields
             Hne Hwf). }
  rewrite Hparse, Hsplit.
  assert (Hvalues : exists v vs, map field_value fields = v :: vs)
    by (destruct fields; [congruence|simpl; eauto]).
  destruct Hvalues as (v & vs & Hv). rewrite Hv. rewrite <- Hv.
  cbn [andb]. rewrite length_map, Hlen, Nat.eqb_refl.
  rewrite Hbuf. cbn [drop]. now rewrite drop_app.
Qed.

(** The state after the tuples of a statement. *)
Fixpoint after_tuples (st : gen_state) (tuples : list (list field))
    (tail : string) : gen_state :=
  match tuples with
  | [] => st
  | t :: rest =>
      after_tuples
        (set_split
           (set_accumulating
              (set_buffer (yield_row st (row_of t))
                          (tuples_text "," rest ++ String ";" tail))
              false) false)
        rest tail
  end.

Lemma yielded_after_tuples (tuples : list (list field)) (tail : string) :
  forall st,
    yielded (after_tuples st tuples tail)
    = (yielded st ++ map row_of tuples)%list.
Proof.
  induction tuples as [|t rest IH]; intros st; simpl.
  - now rewrite app_nil_r.
  - rewrite IH. simpl. now rewrite <- app_assoc.
Qed.

Lemma tuples_loop_reads_a_statement (tail : string)
    (tuples : list (list field)) :
  Forall fits tuples ->
  forall (sep : ascii) (t : list field) (st : gen_state) (spare : nat),
    sep <> "("%char -> fits t ->
    in_split_format st = false ->
    buffer st = tuples_text sep (t :: tuples) ++ String ";" tail ->
    tuples_loop float_repr _quick_extract_field
                (S (List.length tuples) + spare) columns subverse_idx None st
    = (Some spare, after_tuples st (t :: tuples) tail).
Proof.
  induction 1 as [|t' tuples Ht' _ IH];
    intros sep t st spare Hsep Ht Hsplit Hbuf.
  - cbn [List.length Nat.add tuples_loop].
    rewrite (tuple_step_reads_a_tuple sep t (String ";" tail) st Hsep Ht
               Hsplit)
      by (rewrite Hbuf; cbn [tuples_text append]; now rewrite append_empty_r).
    unfold end_of_buffer_checks. cbn [buffer set_split set_accumulating
      set_buffer yield_row in_split_format].
    destruct (strip_head ";" tail eq_refl) as [r' ->].
    cbn [is_empty negb andb startswith String.prefix].
    destruct (ascii_dec ";" ";"); [|congruence].
    replace (String.prefix "" r') with true by now destruct r'.
    reflexivity.
  - cbn [List.length Nat.add tuples_loop].
    rewrite (tuple_step_reads_a_tuple sep t
               (tuples_text "," (t' :: tuples) ++ String ";" tail) st Hsep Ht
               Hsplit)
      by (rewrite Hbuf; cbn [tuples_text append];
          now rewrite (append_assoc (render_tuple t))).
    unfold end_of_buffer_checks. cbn [buffer set_split set_accumulating
      set_buffer yield_row in_split_format tuples_text append].
    match goal with
    | |- context [strip (String "," ?x)] =>
        destruct (strip_head "," x eq_refl) as [r' Hr]; rewrite Hr
    end.
    cbn [is_empty negb andb startswith String.prefix].
    destruct (ascii_dec ";" ","); [discriminate|].
    apply (IH ","%char t' _ spare); try assumption; try discriminate;
      reflexivity.
Qed.

(** A statement: its tuples and what follows the semicolon on its
    line. *)
Definition statement : Type := (list (list field) * string)%type.

Definition well_formed_statement (s : statement) : Prop :=
  fst s <> [] /\ Forall fits (fst s).

Definition tuple_count (statements : list statement) : nat :=
  list_sum (map (fun s : statement => List.length (fst s)) statements).

Definition rows_of (statements : list statement) : list row :=
  List.concat (map (fun s : statement => map row_of (fst s)) statements).

Variable table_name : string.
Hypothesis known_table : table_name = "submission" \/ table_name = "comment".

Lemma lines_loop_reads_statements (statements : list statement) :
  Forall well_formed_statement statements ->
  forall (st : gen_state) (spare : nat),
  exists st',
    lines_loop float_repr _quick_extract_field
               (tuple_count statements + spare) table_name columns
               subverse_idx None
               (map (fun s : statement =>
                       insert_line table_name (fst s) (snd s)) statements)
               st
    = (Some spare, st')
    /\ yielded st' = (yielded st ++ rows_of statements)%list.
Proof.
  induction 1 as [|[tuples tail] statements [Hne Hfits] _ IH];
    intros st spare.
  - exists st. split; [reflexivity|]. unfold rows_of. simpl.
    now rewrite app_nil_r.
  - cbn [map lines_loop fst snd].
    rewrite (insert_line_dispatch table_name tuples tail st known_table).
    simpl in Hne, Hfits.
    destruct tuples as [|t more]; [congruence|].
    inversion Hfits as [|? ? Ht Hmore]; subst.
    set (st1 := set_split
                  (set_buffer st (tuples_text " " (t :: more)
                                  ++ String ";" tail)) false).
    assert (Hbuf : is_empty (buffer st1) = false) by reflexivity.
    rewrite Hbuf.
    match goal with
    | |- context [tuples_loop _ _ ?f _ _ _ st1] =>
        replace f
          with (S (List.length more) + (tuple_count statements + spare))%nat
          by (unfold tuple_count; simpl; lia)
    end.
    rewrite (tuples_loop_reads_a_statement tail more Hmore " "%char t st1
               (tuple_count statements + spare));
      try assumption; try discriminate; try reflexivity.
    destruct (IH (after_tuples st1 (t :: more) tail) spare)
      as (st' & Hrun & Hrows).
    exists st'. split; [exact Hrun|].
    rewrite Hrows, yielded_after_tuples. unfold rows_of.
    cbn [map List.concat fst]. now rewrite <- app_assoc.
Qed.

End Statement.



(** A dump whose lines are INSERT statements for the requested table,
    each with at least one tuple and each tuple with one well-formed field
    per column, is read completely: without a filter [stream_rows] yields
    one row per tuple, in the order of the dump, each pairing the table's
    columns with the converted fields, and finishes. *)
Theorem insert_statements_yield_their_rows
    (float_repr : float_lit -> string) (fuel : nat) (fs : string -> gz_file)
    (file_path table_name : string) (columns : list string)
    (statements : list statement) :
  COLUMN_MAPS table_name = Some columns ->
  Forall (well_formed_statement columns) statements ->
  fs file_path
  = GzLines (map (fun s : statement =>
                    insert_line table_name (fst s) (snd s)) statements)
            false ->
  (tuple_count statements <= fuel)%nat ->
  stream_rows float_repr fuel fs file_path table_name None
  = mkRun (rows_of columns statements) [file_path; file_path] Finished.
Proof.
  intros Hcols Hall Hfs Hfuel. unfold stream_rows, stream_rows_with.
  rewrite Hcols, Hfs.
  assert (Hk : table_name = "submission" \/ table_name = "comment").
  { unfold COLUMN_MAPS in Hcols.
    destruct (String.eqb_spec table_name "submission"); [now left|].
    destruct (String.eqb_spec table_name "comment"); [now right|].
    discriminate. }
  assert (Hne : columns <> []).
  { unfold COLUMN_MAPS in Hcols.
    destruct (String.eqb table_name "submission");
      [injection Hcols as <-; discriminate|].
    destruct (String.eqb table_name "comment");
      [injection Hcols as <-; discriminate|discriminate]. }
  destruct (lines_loop_reads_statements float_repr columns
              (index_of "subverse" columns) Hne table_name Hk statements Hall
              initial_state (fuel - tuple_count statements))
    as (st' & Hrun & Hrows).
  replace (tuple_count statements + (fuel - tuple_count statements))%nat
    with fuel in Hrun by lia.
  destruct statements as [|s statements]; cbn [map] in *.
  - simpl in Hrun. injection Hrun as _ <-. reflexivity.
  - rewrite Hrun, Hrows. reflexivity.
Qed.

(** A comment tuple of 22 fields, the second a quoted text. *)
Definition sample_comment : list field :=
  Bare "5" :: Quoted "it''s (a), b" "it's (a), b"
  :: List.repeat (Bare "0") 20.

Lemma insert_statements_yield_their_rows_witness :
  stream_rows (fun _ => "") 2
    (fun _ => GzLines
                (map (fun s : statement =>
                        insert_line "comment" (fst s) (snd s))
                     [([sample_comment; sample_comment], "")])
                false)
    "comment.sql.gz" "comment" None
  = mkRun (rows_of comment_columns [([sample_comment; sample_comment], "")])
          ["comment.sql.gz"; "comment.sql.gz"] Finished.
Proof.
  apply (insert_statements_yield_their_rows (fun _ => "") 2
           (fun _ => GzLines
                       (map (fun s : statement =>
                               insert_line "comment" (fst s) (snd s))
                            [([sample_comment; sample_comment], "")])
                       false)
           "comment.sql.gz" "comment" comment_columns
           [([sample_comment; sample_comment], "")]).
  - reflexivity.
  - constructor; [|constructor]. split; [discriminate|].
    assert (H : fits comment_columns sample_comment).
    { split; [|reflexivity].
      constructor; [reflexivity|]. constructor.
      - simpl. repeat first [apply enc_doubled | apply enc_plain;
          [discriminate|discriminate|] | apply enc_nil].
      - repeat constructor. }
    constructor; [exact H|]. constructor; [exact H|constructor].
  - reflexivity.
  - unfold tuple_count. simpl. lia.
Defined.

End VoatSQLParserStatements.

(* ===================================================================== *)
(** * Further properties of the chunked reader                            *)
(* ===================================================================== *)

Module WatchfulFacts.
Import PyExn Watchful WatchfulSpec.
Local Open Scope N_scope.

(** ** What a line is *)

Definition no_newline (line : text) : Prop := ~ In newline line.

Lemma split_lines_no_newline (t : text) : Forall no_newline (split_lines t).
Proof.
  induction t as [|c r IH]; cbn [split_lines].
  - constructor; [intros []|constructor].
  - destruct (N.eqb_spec c newline) as [Hc|Hc].
    + constructor; [intros []|exact IH].
    + destruct (split_lines r) as [|h t]; [repeat constructor|].
      * intros [H|[]]. congruence.
      * inversion IH as [|? ? Hh Ht]; subst. constructor; [|exact Ht].
        intros [H|H]; [congruence|exact (Hh H)].
Qed.

Lemma Forall_removelast (A : Type) (P : A -> Prop) (l : list A) :
  Forall P l -> Forall P (removelast l).
Proof.
  induction 1 as [|x l Hx Hl IH]; simpl; [constructor|].
  destruct l; [constructor|]. constructor; assumption.
Qed.

Lemma read_lines_loop_no_newline (cs mw : N) (fuel : nat) :
  forall (rd : reader) (buffer : text) (ys : list text),
    Forall no_newline ys ->
    Forall no_newline (fst (read_lines_loop fuel cs mw rd buffer ys)).
Proof.
  induction fuel as [|fuel IH]; intros rd buffer ys Hys;
    cbn [read_lines_loop]; [exact Hys|].
  destruct (read_and_decode _ rd cs mw None 0) as [[[e|[|c chunk]] rd']|];
    try exact Hys.
  apply IH. apply Forall_app. split; [exact Hys|].
  apply Forall_removelast, split_lines_no_newline.
Qed.

(** No line that [read_lines_zst] yields contains a newline, however the
    content is cut into chunks and however the generator ends. *)
Theorem yielded_lines_hold_no_newline (content : list Byte.byte) :
  Forall (fun line => ~ In newline line) (fst (read_lines_zst content)).
Proof. apply read_lines_loop_no_newline. constructor. Qed.

(** ** Joining the lines again *)

(** Each line followed by a newline, one after the other. *)
Definition terminate_lines (lines : list text) : text :=
  List.concat (map (fun line => line ++ [newline])%list lines).

Lemma terminate_lines_cons (line : text) (lines : list text) :
  terminate_lines (line :: lines)
  = (line ++ newline :: terminate_lines lines)%list.
Proof.
  unfold terminate_lines. cbn [map List.concat].
  now rewrite <- app_assoc.
Qed.

Lemma join_split_lines (t : text) :
  (terminate_lines (removelast (split_lines t))
   ++ last (split_lines t) [])%list = t.
Proof.
  induction t as [|c r IH]; [reflexivity|]. cbn [split_lines].
  pose proof (split_lines_nonempty r) as Hne.
  destruct (N.eqb_spec c newline) as [->|Hc].
  - rewrite removelast_cons_nonempty, last_cons_nonempty by exact Hne.
    rewrite terminate_lines_cons. cbn [app]. f_equal. exact IH.
  - destruct (split_lines r) as [|h [|x t]]; [congruence| |].
    + cbn in *. f_equal. exact IH.
    + change (removelast ((c :: h) :: x :: t))
        with ((c :: h) :: removelast (x :: t)).
      change (last ((c :: h) :: x :: t) []) with (last (x :: t) (@nil N)).
      change (removelast (h :: x :: t)) with (h :: removelast (x :: t)) in IH.
      change (last (h :: x :: t) []) with (last (x :: t) (@nil N)) in IH.
      rewrite terminate_lines_cons in *. 
      cbn [app]. f_equal. exact IH.
Qed.

Lemma Forall_last (A : Type) (P : A -> Prop) (d : A) (l : list A) :
  P d -> Forall P l -> P (last l d).
Proof.
  intros Hd. induction 1 as [|x l Hx Hl IH]; simpl; [exact Hd|].
  destruct l; [exact Hx|exact IH].
Qed.

(** When the generator returns, writing every yielded line back with its
    newline gives the decoded content up to and including its last
    newline: the content is these lines followed by a rest that holds no
    newline (the unterminated tail, which is never yielded). *)
Theorem joined_lines_are_the_content_up_to_the_last_newline
    (content : list Byte.byte) (lines : list text) :
  read_lines_zst content = (lines, Exhausted) ->
  exists whole rest,
    decode content = Some whole
    /\ whole = (terminate_lines lines ++ rest)%list
    /\ ~ In newline rest.
Proof.
  intros H.
  apply (read_lines_loop_exhausted chunk_size_default max_window_default
           eq_refl (S (List.length content)) content []) in H
    as (whole & Hw & ->).
  simpl in *. exists whole, (last (split_lines whole) []).
  split; [exact Hw|]. split; [now rewrite join_split_lines|].
  apply (Forall_last text no_newline);
    [intros []|apply split_lines_no_newline].
Qed.

Lemma joined_lines_are_the_content_up_to_the_last_newline_witness :
  exists whole rest,
    decode [Byte.x61; Byte.x0a; Byte.x62; Byte.x0a; Byte.x63] = Some whole
    /\ whole = (terminate_lines [[97]; [98]] ++ rest)%list
    /\ ~ In newline rest.
Proof.
  apply (joined_lines_are_the_content_up_to_the_last_newline
           [Byte.x61; Byte.x0a; Byte.x62; Byte.x0a; Byte.x63] [[97]; [98]]).
  reflexivity.
Defined.

(** ** Content that does not decode *)

Lemma read_lines_loop_failure (cs mw : N) :
  0 < cs ->
  forall (fuel : nat) (rd : reader) (buffer : text) (ys : list text) (e : exn),
    snd (read_lines_loop fuel cs mw rd buffer ys) = Failed e ->
    e = UnicodeError.
Proof.
  intros Hcs. induction fuel as [|fuel IH]; intros rd buffer ys e;
    cbn [read_lines_loop]; [discriminate|].
  destruct (read_and_decode_in_loop cs mw rd Hcs) as (k & Hk & ->).
  unfold answer.
  destruct (decode (take (N.of_nat k * cs) rd)) as [[|c chunk]|];
    simpl; try discriminate; [apply IH|congruence].
Qed.

(** Content that is not valid UTF-8 is never read to its end: the
    generator raises [UnicodeError] (after the lines of the chunks that
    did decode), it does not return. *)
Theorem undecodable_content_raises (content : list Byte.byte) :
  decode content = None ->
  snd (read_lines_zst content) = Failed UnicodeError.
Proof.
  intros Hbad.
  destruct (read_lines_zst content) as [lines e] eqn:Hrun. simpl.
  destruct e as [|e|].
  - apply (read_lines_loop_exhausted chunk_size_default max_window_default
             eq_refl (S (List.length content)) content []) in Hrun
      as (whole & Hw & _).
    simpl in Hw. congruence.
  - f_equal.
    apply (read_lines_loop_failure chunk_size_default max_window_default
             eq_refl (S (List.length content)) content [] []).
    unfold read_lines_zst in Hrun. now rewrite Hrun.
  - exfalso.
    apply (read_lines_loop_finishes chunk_size_default max_window_default
             eq_refl (S (List.length content)) content [] []); [lia|].
    unfold read_lines_zst in Hrun. now rewrite Hrun.
Qed.

Lemma undecodable_content_raises_witness :
  snd (read_lines_zst [Byte.x61; Byte.x0a; Byte.xff]) = Failed UnicodeError.
Proof.
  apply (undecodable_content_raises [Byte.x61; Byte.x0a; Byte.xff]).
  reflexivity.
Defined.

(** ** Content of one chunk *)

Lemma take_all (n : N) (l : list Byte.byte) :
  N.of_nat (List.length l) <= n -> take n l = l.
Proof.
  revert n. induction l as [|b r IH]; intros n Hn; simpl; [reflexivity|].
  simpl in Hn. destruct (N.eqb_spec n 0); [lia|].
  rewrite IH; [reflexivity|lia].
Qed.

Lemma skip_all (n : N) (l : list Byte.byte) :
  N.of_nat (List.length l) <= n -> skip n l = [].
Proof.
  intros Hn. pose proof (take_skip n l) as H.
  rewrite (take_all n l Hn) in H.
  apply (f_equal (@List.length Byte.byte)) in H.
  rewrite length_app in H. destruct (skip n l); [reflexivity|simpl in H; lia].
Qed.

(** Content that fits in one chunk of 128 MiB is read in one piece: if
    it is valid UTF-8 the generator returns, having yielded every piece of
    the newline split of the decoded content but the last. *)
Theorem one_chunk_content_is_read_whole
    (content : list Byte.byte) (whole : text) :
  N.of_nat (List.length content) <= chunk_size_default ->
  decode content = Some whole ->
  read_lines_zst content = (removelast (split_lines whole), Exhausted).
Proof.
  intros Hlen Hw. unfold read_lines_zst.
  assert (Hcs : 0 < chunk_size_default) by reflexivity.
  assert (Hone : forall k : nat, (1 <= k)%nat ->
            N.of_nat (List.length content) <= N.of_nat k * chunk_size_default)
    by (intros k Hk; nia).
  cbn [read_lines_loop].
  destruct (read_and_decode_in_loop chunk_size_default max_window_default
              content Hcs) as (k & Hk & ->).
  rewrite (take_all _ _ (Hone k Hk)), (skip_all _ _ (Hone k Hk)).
  unfold answer. rewrite Hw.
  destruct whole as [|c t]; [reflexivity|].
  destruct content as [|b bs]; [discriminate|].
  cbn [List.length read_lines_loop].
  destruct (read_and_decode_in_loop chunk_size_default max_window_default
              [] Hcs) as (k' & Hk' & ->).
  rewrite (take_all _ [] ltac:(simpl; lia)). reflexivity.
Qed.

Lemma one_chunk_content_is_read_whole_witness :
  read_lines_zst [Byte.x61; Byte.x0a; Byte.xc3; Byte.xa9]
  = (removelast (split_lines [97; 10; 233]), Exhausted).
Proof.
  apply (one_chunk_content_is_read_whole
           [Byte.x61; Byte.x0a; Byte.xc3; Byte.xa9] [97; 10; 233]).
  - vm_compute. discriminate.
  - reflexivity.
Defined.

End WatchfulFacts.

(* ===================================================================== *)
(** * Further properties of the adaptive batch loader                     *)
(* ===================================================================== *)

Module BatchProcessorFacts.
Import PyExn BatchProcessor.
Local Open Scope Z_scope.
Local Open Scope m_scope.
#[local] Set Warnings "-inexact-float".

(** ** Invariants of the processor and of the calls it makes *)

Definition opt {A : Type} (P : A -> Prop) (o : option A) : Prop :=
  match o with Some a => P a | None => True end.

Definition transaction_statements : list string :=
  ["BEGIN TRANSACTION"; "COMMIT"; "ROLLBACK"]%string.

Create HintDb frame.

(** What an invariant must withstand: the updates the code makes to the
    metrics and to the history, and the calls it makes. *)
Record closure (cfg : BatchConfig) (R : Z -> Prop)
    (Mi : BatchMetrics -> Prop) (Hi : list Z -> Prop)
    (T : list event -> Prop) (quiet : event -> Prop) : Prop := mkClosure {
  T_emit : forall tr e, T tr -> quiet e -> T (tr ++ [e]);
  Mi_performance :
    forall m rp sb fb tt avg rps mem,
      Mi m ->
      Mi (mkMetrics (batch_size m) rp sb fb tt avg rps mem
                    (auto_adjustments m) (auto_tuning_metrics m));
  Mi_impact :
    forall m x,
      Mi m ->
      Mi (set_tuning m
            (mkTuning x (adjustments_successful (auto_tuning_metrics m))
                      (adjustments_failed (auto_tuning_metrics m))));
  Mi_adjustment :
    forall m (ok : bool),
      Mi m ->
      Mi (mkMetrics (batch_size m) (records_processed m)
            (successful_batches m) (failed_batches m)
            (total_processing_time m) (average_batch_time m)
            (records_per_second m) (memory_usage_mb m)
            (auto_adjustments m + 1)
            (if ok
             then mkTuning (optimization_impact (auto_tuning_metrics m))
                    (adjustments_successful (auto_tuning_metrics m) + 1)
                    (adjustments_failed (auto_tuning_metrics m))
             else mkTuning (optimization_impact (auto_tuning_metrics m))
                    (adjustments_successful (auto_tuning_metrics m))
                    (adjustments_failed (auto_tuning_metrics m) + 1)));
  Mi_new : forall n, Mi (new_metrics n);
  Hi_push :
    forall h n,
      Hi h ->
      Hi (if (100 <? List.length (h ++ [n]))%nat then List.tl (h ++ [n])
          else h ++ [n])%list;
  Hi_clear : Hi [];
  (* the batch size may only be constrained when tuning is off *)
  R_tuned : auto_tune_enabled cfg = true -> forall n, R n;
  quiet_clock : quiet Clock;
  quiet_memory : quiet MemorySample;
  quiet_callback : forall p, quiet (Callback p);
  quiet_execute :
    String.eqb (transaction_scope cfg) "batch" = true ->
    forall stmt, In stmt transaction_statements -> quiet (Execute stmt);
}.

Section Frame.

(** The configuration is [cfg]; the current batch size satisfies [R], the
    metrics [Mi] and the history [Hi] where they are kept, and the calls
    made so far satisfy [T], which the calls in [quiet] keep. *)
Variable cfg : BatchConfig.
Variable R : Z -> Prop.
Variable Mi : BatchMetrics -> Prop.
Variable Hi : list Z -> Prop.
Variable T : list event -> Prop.
Variable quiet : event -> Prop.
Hypothesis closed : closure cfg R Mi Hi T quiet.

Definition Pf (p : processor) : Prop :=
  config p = cfg /\ R (current_batch_size p)
  /\ opt Mi (metrics p) /\ opt Hi (performance_history p).

Definition inv (w : world) : Prop := Pf (self w) /\ T (trace w).

(** [m] keeps the invariant, whether it returns or raises; a returned
    value satisfies [Q]. *)
Definition keeps {A : Type} (m : M A) (Q : A -> Prop) : Prop :=
  forall w, inv w ->
    match m w with
    | (inr a, w') => inv w' /\ Q a
    | (inl _, w') => inv w'
    end.

Definition whatever {A : Type} : A -> Prop := fun _ => True.

Lemma keeps_ret {A} (a : A) (Q : A -> Prop) : Q a -> keeps (ret a) Q.
Proof. intros HQ w Hw. simpl. auto. Qed.

Lemma keeps_raise {A} (e : exn) (Q : A -> Prop) : keeps (raise e) Q.
Proof. intros w Hw. exact Hw. Qed.

Lemma keeps_bind {A B} (m : M A) (k : A -> M B) (P : A -> Prop)
    (Q : B -> Prop) :
  keeps m P -> (forall a, P a -> keeps (k a) Q) -> keeps (bind m k) Q.
Proof.
  intros Hm Hk w Hw. unfold bind. specialize (Hm w Hw).
  destruct (m w) as [[e|a] w']; [exact Hm|].
  destruct Hm as [Hw' Ha]. exact (Hk a Ha w' Hw').
Qed.

Lemma keeps_try {A} (body : M A) (handler : exn -> M A) (Q : A -> Prop) :
  keeps body Q -> (forall e, keeps (handler e) Q) ->
  keeps (try_except body handler) Q.
Proof.
  intros Hb Hh w Hw. unfold try_except. specialize (Hb w Hw).
  destruct (body w) as [[e|a] w']; [exact (Hh e w' Hb)|exact Hb].
Qed.

Lemma keeps_lift {A} (r : result A) : keeps (lift r) whatever.
Proof. destruct r; [apply keeps_raise|now apply keeps_ret]. Qed.

Lemma keeps_get_self : keeps get_self Pf.
Proof. intros w Hw. simpl. split; [exact Hw|apply Hw]. Qed.

Lemma keeps_put_self (p : processor) : Pf p -> keeps (put_self p) whatever.
Proof. intros Hp w [_ Ht]. simpl. unfold whatever, inv. auto. Qed.

Lemma keeps_get_locals : keeps get_locals whatever.
Proof. intros w Hw. simpl. unfold whatever. auto. Qed.

Lemma keeps_put_locals (t : totals) : keeps (put_locals t) whatever.
Proof. intros w Hw. simpl. unfold whatever. auto. Qed.

Lemma keeps_when (b : bool) (m : M unit) :
  keeps m whatever -> keeps (when b m) whatever.
Proof. destruct b; [auto|intros _; now apply keeps_ret]. Qed.

Lemma keeps_emit (e : event) : quiet e -> keeps (emit e) whatever.
Proof.
  intros He w [Hp Ht]. simpl.
  split; [split; [exact Hp|]|exact I].
  simpl. now apply (T_emit _ _ _ _ _ _ closed).
Qed.

Lemma keeps_put_history (h : list Z) : Hi h -> keeps (put_history h) whatever.
Proof.
  intros Hh. unfold put_history. eapply keeps_bind; [apply keeps_get_self|].
  intros p (Hc & Hr & Hm & _). apply keeps_put_self. repeat split; assumption.
Qed.

Lemma keeps_modify_metrics (f : BatchMetrics -> BatchMetrics) :
  (forall m, Mi m -> Mi (f m)) -> keeps (modify_metrics f) whatever.
Proof.
  intros Hf. unfold modify_metrics.
  eapply keeps_bind; [apply keeps_get_self|].
  intros p (_ & _ & Hm & _).
  destruct (metrics p) as [m|]; [|now apply keeps_ret].
  unfold put_metrics. eapply keeps_bind; [apply keeps_get_self|].
  intros p' (Hc & Hr & _ & Hh). apply keeps_put_self.
  repeat split; try assumption. apply Hf. exact Hm.
Qed.

Lemma keeps_put_current_batch_size (n : Z) :
  R n -> keeps (put_current_batch_size n) whatever.
Proof.
  intros Hn. unfold put_current_batch_size.
  eapply keeps_bind; [apply keeps_get_self|].
  intros p (Hc & _ & Hm & Hh). apply keeps_put_self.
  repeat split; assumption.
Qed.

(** One step of a sequence, and case analysis on what the code branches
    on. *)
Ltac frame_step :=
  lazymatch goal with
  | |- keeps (bind _ _) _ =>
      first [ eapply keeps_bind; [solve [eauto with frame]|intros ? ?]
            | eapply keeps_bind with (P := whatever);
              [solve [repeat frame_step]|intros ? ?] ]
  | |- keeps (if ?b then _ else _) _ => destruct b
  | |- keeps (match ?x with _ => _ end) _ => destruct x
  | |- keeps (ret _) _ => apply keeps_ret; unfold whatever; auto
  | |- keeps (raise _) _ => apply keeps_raise
  | |- keeps (when _ _) _ => apply keeps_when
  | |- keeps (try_except _ _) _ => apply keeps_try; [|intros ?]
  | |- keeps (modify_metrics _) _ =>
      apply keeps_modify_metrics; intros ? ?;
      first [ apply (Mi_performance _ _ _ _ _ _ closed)
            | apply (Mi_impact _ _ _ _ _ _ closed)
            | apply (Mi_adjustment _ _ _ _ _ _ closed) ];
      assumption
  | |- keeps _ _ => solve [eauto with frame]
  end.

#[local] Hint Resolve keeps_lift keeps_get_self keeps_get_locals keeps_put_locals
  keeps_raise : frame.

Section Env.
Variable env : environment.

Lemma keeps_clock_since : keeps (clock_since env) whatever.
Proof.
  unfold clock_since.
  eapply keeps_bind; [apply keeps_emit, (quiet_clock _ _ _ _ _ _ closed)|].
  intros ? _. now apply keeps_ret.
Qed.

Lemma keeps_get_memory : keeps (_get_memory_usage_mb env) whatever.
Proof.
  unfold _get_memory_usage_mb.
  eapply keeps_bind; [apply keeps_emit, (quiet_memory _ _ _ _ _ _ closed)|].
  intros ? _. now apply keeps_ret.
Qed.

Lemma keeps_call_progress (p : progress) : keeps (call_progress env p) whatever.
Proof.
  unfold call_progress.
  eapply keeps_bind; [apply keeps_emit, (quiet_callback _ _ _ _ _ _ closed)|].
  intros ? _. repeat frame_step.
Qed.

Lemma keeps_execute (p : processor) (stmt : string) :
  Pf p -> In stmt transaction_statements ->
  keeps (when (batch_scope p) (connection_execute env stmt)) whatever.
Proof.
  intros (Hc & _) Hin. unfold batch_scope. rewrite Hc.
  destruct (String.eqb (transaction_scope cfg) "batch") eqn:Hs;
    [|now apply keeps_ret].
  unfold when, connection_execute.
  eapply keeps_bind;
    [apply keeps_emit; now apply (quiet_execute _ _ _ _ _ _ closed)|].
  intros ? _. repeat frame_step.
Qed.

Lemma keeps_batch_operation (batch : list item) :
  quiet (BatchOperation batch) -> keeps (batch_operation env batch) whatever.
Proof.
  intros Hb. unfold batch_operation.
  eapply keeps_bind; [now apply keeps_emit|]. intros ? _. apply keeps_lift.
Qed.

#[local] Hint Resolve keeps_clock_since keeps_get_memory keeps_call_progress : frame.

Lemma keeps_update_performance_metrics (n : Z) (t : float) (c : Z) (ok : bool) :
  keeps (_update_performance_metrics env n t c ok) whatever.
Proof.
  unfold _update_performance_metrics.
  eapply keeps_bind; [apply keeps_get_self|]. intros p0 _.
  destruct (enable_monitoring p0); [|now apply keeps_ret].
  destruct (metrics p0); [|now apply keeps_ret].
  eapply keeps_bind with (P := whatever); [frame_step|]. intros _ _.
  eapply keeps_bind; [apply keeps_get_self|]. intros p1 _.
  destruct (metrics p1); [|now apply keeps_ret].
  eapply keeps_bind with (P := whatever); [repeat frame_step|]. intros _ _.
  eapply keeps_bind with (P := whatever); [repeat frame_step|]. intros _ _.
  eapply keeps_bind; [apply keeps_get_memory|]. intros mem _.
  eapply keeps_bind with (P := whatever); [frame_step|]. intros _ _.
  eapply keeps_bind; [apply keeps_get_self|]. intros p2 (_ & _ & _ & Hh).
  destruct (performance_history p2) as [h|]; [|now apply keeps_ret].
  eapply keeps_bind with (P := whatever); [repeat frame_step|]. intros _ _.
  apply keeps_put_history. cbv zeta.
  now apply (Hi_push _ _ _ _ _ _ closed).
Qed.

Lemma keeps_validate_adjustment (b : Z) (mem : float) (n : Z) (mf pf : float) :
  keeps (_validate_adjustment_effectiveness b mem n mf pf) whatever.
Proof.
  unfold _validate_adjustment_effectiveness. cbv zeta. repeat frame_step.
Qed.

#[local] Hint Resolve keeps_update_performance_metrics
  keeps_validate_adjustment : frame.

Lemma keeps_calculate (speed mem : float) :
  keeps (_calculate_optimal_batch_size speed mem) R.
Proof.
  unfold _calculate_optimal_batch_size.
  eapply keeps_bind; [apply keeps_get_self|]. intros p (Hc & Hr & _).
  rewrite Hc.
  destruct (auto_tune_enabled cfg) eqn:Htune; cbn [negb];
    [|now apply keeps_ret].
  eapply keeps_bind with (P := whatever); [repeat frame_step|]. intros mf _.
  eapply keeps_bind with (P := whatever); [repeat frame_step|]. intros pf _.
  eapply keeps_bind; [apply keeps_lift|]. intros cur _.
  eapply keeps_bind; [apply keeps_lift|]. intros x _.
  destruct (PyFloat.int_gt _ _); [|now apply keeps_ret].
  eapply keeps_bind with (P := whatever); [cbv zeta; repeat frame_step|].
  intros _ _. apply keeps_ret. now apply (R_tuned _ _ _ _ _ _ closed).
Qed.

Lemma keeps_auto_tune_step : keeps (auto_tune_step env) whatever.
Proof.
  unfold auto_tune_step.
  eapply keeps_bind; [apply keeps_get_self|]. intros p _.
  destruct (auto_tune_enabled (config p)); [|now apply keeps_ret].
  destruct (metrics p); [|now apply keeps_ret].
  eapply keeps_bind; [apply keeps_get_memory|]. intros mem _.
  eapply keeps_bind; [apply keeps_get_self|]. intros p' _.
  eapply keeps_bind; [apply keeps_calculate|]. intros n Hn.
  now apply keeps_put_current_batch_size.
Qed.

(** The statements of the [try] body that follow the batch operation. *)
Lemma keeps_after_operation (vd batch : list item) (cb : bool)
    (p : processor) (result : op_result) :
  Pf p ->
  keeps (when (batch_scope p) (connection_execute env "COMMIT") ;;;
         t <- get_locals ;;
         put_locals (mkTotals (t_processed t + (inserted result + updated result))
                              (t_errors t + errors result) (t_batches t + 1)) ;;;
         batch_processing_time <- clock_since env ;;
         _update_performance_metrics env (Z.of_nat (List.length batch))
                                     batch_processing_time
                                     (inserted result + updated result)
                                     (errors result =? 0) ;;;
         (if cb then
            t <- get_locals ;;
            p <- get_self ;;
            r <- lift (py_mod (t_batches t)
                              (progress_callback_interval (config p))) ;;
            when (r =? 0)
                 (call_progress env
                    (mkProgress (t_processed t)
                                (Z.of_nat (List.length vd))
                                (t_errors t) (t_batches t)
                                (Some (current_batch_size p)) false))
          else ret tt))
        whatever.
Proof.
  intros Hp.
  eapply keeps_bind;
    [apply keeps_execute; [exact Hp|unfold transaction_statements; simpl; auto]|].
  intros _ _. repeat frame_step.
Qed.

Lemma keeps_run_batch (vd batch : list item) (cb : bool) :
  quiet (BatchOperation batch) -> keeps (run_batch env vd batch cb) whatever.
Proof.
  intros Hb. unfold run_batch.
  eapply keeps_bind; [apply keeps_get_self|]. intros p Hp.
  eapply keeps_bind;
    [apply keeps_execute; [exact Hp|unfold transaction_statements; simpl; auto]|].
  intros _ _.
  eapply keeps_bind; [now apply keeps_batch_operation|]. intros result _.
  now apply keeps_after_operation.
Qed.

Lemma keeps_except_batch (batch : list item) (e : exn) :
  keeps (except_batch env batch e) whatever.
Proof.
  unfold except_batch.
  eapply keeps_bind; [apply keeps_get_self|]. intros p Hp.
  eapply keeps_bind with (P := whatever).
  { destruct Hp as (Hc & _). unfold batch_scope. rewrite Hc.
    destruct (String.eqb (transaction_scope cfg) "batch") eqn:Hs;
      [|now apply keeps_ret].
    unfold when, connection_execute. apply keeps_try; [|intros ?; now apply keeps_ret].
    eapply keeps_bind;
      [apply keeps_emit; apply (quiet_execute _ _ _ _ _ _ closed);
       [exact Hs|unfold transaction_statements; simpl; auto]|].
    intros ? _. repeat frame_step. }
  intros _ _. repeat frame_step.
Qed.

Lemma keeps_process_batch (vd : list item) (cb : bool) (batch_start : Z) :
  (forall p, Pf p -> quiet (BatchOperation (batch_at vd p batch_start))) ->
  keeps (process_batch env vd cb batch_start) whatever.
Proof.
  intros Hb. unfold process_batch.
  eapply keeps_bind; [apply keeps_get_self|]. intros p Hp.
  apply keeps_try; [|intros e; apply keeps_except_batch].
  unfold try_batch.
  eapply keeps_bind; [apply keeps_run_batch; now apply Hb|]. intros _ _.
  apply keeps_auto_tune_step.
Qed.

Lemma keeps_batches_loop (vd : list item) (cb : bool) (starts : list Z) :
  (forall p s, Pf p -> quiet (BatchOperation (batch_at vd p s))) ->
  keeps (batches_loop env vd cb starts) whatever.
Proof.
  intros Hb. induction starts as [|b rest IH]; simpl; [now apply keeps_ret|].
  eapply keeps_bind; [apply keeps_process_batch; intros; now apply Hb|].
  intros _ _. exact IH.
Qed.

(** The statements of [process_batches] that follow the loop. *)
Lemma keeps_after_loop (vd : list item) (cb : bool) :
  keeps (total_time <- clock_since env ;;
         t <- get_locals ;;
         when cb
              (call_progress env
                 (mkProgress (t_processed t) (Z.of_nat (List.length vd))
                             (t_errors t) (t_batches t) None true)) ;;;
         rps <- (if (0 <? total_time)%float then
                   lift (PyFloat.int_div (t_processed t) total_time)
                 else ret 0%float) ;;
         p <- get_self ;;
         ret (mkSummary (t_processed t) (t_errors t) (t_batches t)
                (Some (mkDetails total_time rps (current_batch_size p)
                         (match metrics p with
                          | Some m => auto_adjustments m
                          | None => 0
                          end)))))
        whatever.
Proof. repeat frame_step. Qed.

Lemma keeps_process_batches (data : list item) (op : string) (cb : bool) :
  (forall p s, Pf p ->
     quiet (BatchOperation (batch_at (_validate_batch_data cfg data op) p s))) ->
  keeps (process_batches env data op cb) whatever.
Proof.
  intros Hb. unfold process_batches.
  destruct data as [|d ds]; [now apply keeps_ret|].
  eapply keeps_bind; [apply keeps_get_self|]. intros p Hp.
  assert (Hc : config p = cfg) by apply Hp. rewrite Hc.
  destruct (_validate_batch_data cfg (d :: ds) op) as [|v vs] eqn:Hv;
    [now apply keeps_ret|].
  eapply keeps_bind; [apply keeps_put_locals|]. intros _ _.
  eapply keeps_bind; [apply keeps_lift|]. intros starts _.
  eapply keeps_bind; [apply keeps_batches_loop; exact Hb|]. intros _ _.
  apply keeps_after_loop.
Qed.

End Env.

Lemma keeps_reset_metrics : keeps reset_metrics whatever.
Proof.
  unfold reset_metrics.
  eapply keeps_bind; [apply keeps_get_self|]. intros p (Hc & Hr & Hm & Hh).
  destruct (negb (enable_monitoring p)); [now apply keeps_ret|].
  apply keeps_put_self. repeat split; try assumption.
  - apply (Mi_new _ _ _ _ _ _ closed).
  - destruct (performance_history p) as [[|x h]|]; simpl; auto.
    apply (Hi_clear _ _ _ _ _ _ closed).
Qed.

End Frame.

Lemma keeps_final (cfg : BatchConfig) (R : Z -> Prop)
    (Mi : BatchMetrics -> Prop) (Hi : list Z -> Prop)
    (T : list event -> Prop) (A : Type) (m : M A) (Q : A -> Prop) (w : world) :
  keeps cfg R Mi Hi T m Q -> inv cfg R Mi Hi T w ->
  inv cfg R Mi Hi T (snd (m w)).
Proof.
  intros Hm Hw. specialize (Hm w Hw).
  destruct (m w) as [[e|a] w']; simpl; [exact Hm|apply Hm].
Qed.

Definition no_constraint {A : Type} : A -> Prop := fun _ => True.

Lemma opt_no_constraint (A : Type) (o : option A) : opt no_constraint o.
Proof. destruct o; exact I. Qed.

Lemma inv_start (T : list event -> Prop) (p : processor) :
  T [] ->
  inv (config p) no_constraint no_constraint no_constraint T (start p).
Proof.
  intros Ht. repeat split; simpl; try exact I; try apply opt_no_constraint.
  exact Ht.
Qed.

(** ** The adjustment counters *)

(** The adjustments counted equal the successful and the failed ones. *)
Definition counters_agree (m : BatchMetrics) : Prop :=
  auto_adjustments m
  = adjustments_successful (auto_tuning_metrics m)
    + adjustments_failed (auto_tuning_metrics m).

Lemma counters_closure (cfg : BatchConfig) :
  closure cfg no_constraint counters_agree no_constraint no_constraint
          no_constraint.
Proof.
  constructor; try (intros; exact I); try (intros; assumption).
  - intros m ok. unfold counters_agree. destruct ok; simpl; lia.
  - intros n. reflexivity.
Qed.

(** The number of automatic adjustments always equals the number of
    adjustments judged successful plus the number judged failed: this
    holds for a new processor and is kept by [process_batches], however
    the run goes, and by [reset_metrics]. *)
Theorem adjustment_counters_stay_consistent
    (env : environment) (cfg : BatchConfig) (monitoring : bool) :
  opt counters_agree (metrics (new_processor cfg monitoring))
  /\ forall w : world,
       opt counters_agree (metrics (self w)) ->
       (forall data op cb,
          opt counters_agree
              (metrics (self (snd (process_batches env data op cb w)))))
       /\ opt counters_agree (metrics (self (snd (reset_metrics w)))).
Proof.
  split; [destruct monitoring; simpl; [reflexivity|exact I]|].
  intros w Hw.
  assert (Hinv : inv (config (self w)) no_constraint counters_agree
                     no_constraint no_constraint w).
  { repeat split; try exact I; [exact Hw|apply opt_no_constraint]. }
  split.
  - intros data op cb.
    refine (proj1 (proj2 (proj2 (proj1
      (keeps_final _ _ _ _ _ _ (process_batches env data op cb) whatever w
         _ Hinv))))).
    apply (keeps_process_batches _ _ _ _ _ _
             (counters_closure (config (self w)))).
    intros; exact I.
  - refine (proj1 (proj2 (proj2 (proj1
      (keeps_final _ _ _ _ _ _ reset_metrics whatever w _ Hinv))))).
    apply (keeps_reset_metrics _ _ _ _ _ _
             (counters_closure (config (self w)))).
Qed.

(** ** The performance history *)

Definition bounded_history (h : list Z) : Prop := (List.length h <= 100)%nat.

Lemma history_closure (cfg : BatchConfig) :
  closure cfg no_constraint no_constraint bounded_history no_constraint
          no_constraint.
Proof.
  constructor; try (intros; exact I).
  - intros h n Hh. unfold bounded_history in *.
    destruct (Nat.ltb_spec 100 (List.length (h ++ [n]))) as [Hlt|Hle];
      [|exact Hle].
    rewrite length_app in Hlt. simpl in Hlt.
    destruct h as [|x h]; simpl in *; [lia|].
    rewrite length_app. simpl. lia.
  - unfold bounded_history. simpl. lia.
Qed.

(** The performance history never holds more than 100 entries: this
    holds for a new processor and is kept by [process_batches], however
    many batches it records and however the run goes, and by
    [reset_metrics]. *)
Theorem history_holds_at_most_100_entries
    (env : environment) (cfg : BatchConfig) (monitoring : bool) :
  opt bounded_history (performance_history (new_processor cfg monitoring))
  /\ forall w : world,
       opt bounded_history (performance_history (self w)) ->
       (forall data op cb,
          opt bounded_history
              (performance_history
                 (self (snd (process_batches env data op cb w)))))
       /\ opt bounded_history
              (performance_history (self (snd (reset_metrics w)))).
Proof.
  split; [destruct monitoring; simpl; [unfold bounded_history; simpl; lia
                                      |exact I]|].
  intros w Hw.
  assert (Hinv : inv (config (self w)) no_constraint no_constraint
                     bounded_history no_constraint w).
  { repeat split; try exact I; [apply opt_no_constraint|exact Hw]. }
  split.
  - intros data op cb.
    refine (proj2 (proj2 (proj2 (proj1
      (keeps_final _ _ _ _ _ _ (process_batches env data op cb) whatever w
         _ Hinv))))).
    apply (keeps_process_batches _ _ _ _ _ _
             (history_closure (config (self w)))).
    intros; exact I.
  - refine (proj2 (proj2 (proj2 (proj1
      (keeps_final _ _ _ _ _ _ reset_metrics whatever w _ Hinv))))).
    apply (keeps_reset_metrics _ _ _ _ _ _
             (history_closure (config (self w)))).
Qed.

(** ** The statements sent to the connection *)

(** A statement is one of the three of transaction control, and the
    scope is the batch. *)
Definition transaction_control (cfg : BatchConfig) (e : event) : Prop :=
  match e with
  | Execute stmt =>
      String.eqb (transaction_scope cfg) "batch" = true
      /\ In stmt transaction_statements
  | _ => True
  end.

Lemma Forall_closure (cfg : BatchConfig) (ok : event -> Prop) :
  ok Clock -> ok MemorySample -> (forall p, ok (Callback p)) ->
  (String.eqb (transaction_scope cfg) "batch" = true ->
   forall stmt, In stmt transaction_statements -> ok (Execute stmt)) ->
  closure cfg no_constraint no_constraint no_constraint (Forall ok) ok.
Proof.
  intros Hclock Hmem Hcb Hexec.
  constructor; try (intros; exact I); try assumption.
  intros tr e Htr He. apply Forall_app. split; [exact Htr|].
  constructor; [exact He|constructor].
Qed.

(** [process_batches] itself sends nothing to the connection but
    [BEGIN TRANSACTION], [COMMIT] and [ROLLBACK], and these only when the
    transaction scope is ["batch"]: with any other scope it executes no
    statement at all. *)
Theorem only_transaction_control_is_executed
    (env : environment) (p : processor) (data : list item) (op : string)
    (cb : bool) :
  Forall (transaction_control (config p))
         (trace (snd (process_batches env data op cb (start p)))).
Proof.
  refine (proj2 (keeps_final (config p) no_constraint no_constraint
                   no_constraint (Forall (transaction_control (config p)))
                   _ (process_batches env data op cb) whatever (start p)
                   _ _)).
  - apply (keeps_process_batches _ _ _ _ _ (transaction_control (config p))).
    + apply Forall_closure; try (intros; exact I).
      intros Hscope stmt Hin. split; assumption.
    + intros; exact I.
  - apply inv_start. constructor.
Qed.

(** ** What the batch operation is given *)

Lemma In_py_slice (A : Type) (l : list A) (a b : Z) (x : A) :
  In x (py_slice l a b) -> In x l.
Proof.
  unfold py_slice. intros H.
  assert (Hfirst : forall n (k : list A), In x (firstn n k) -> In x k)
    by (intros n k Hk; rewrite <- (firstn_skipn n k); apply in_or_app; auto).
  assert (Hskip : forall n (k : list A), In x (skipn n k) -> In x k)
    by (intros n k Hk; rewrite <- (firstn_skipn n k); apply in_or_app; auto).
  eapply Hskip, Hfirst, H.
Qed.

(** The records of a batch come from [data] and, with validation on,
    carry the required fields. *)
Definition validated_batch (cfg : BatchConfig) (data : list item)
    (op : string) (e : event) : Prop :=
  match e with
  | BatchOperation batch =>
      Forall (fun it => In it data
                        /\ (validation_enabled cfg = true ->
                            item_ok op it = true)) batch
  | _ => True
  end.

(** Every batch handed to the batch operation consists of records of
    [data], and with validation enabled of records that are dicts with a
    truthy value under each required key: no record that fails validation
    ever reaches the operation, whatever the batch sizes chosen by the
    tuning. *)
Theorem only_validated_records_reach_the_operation
    (env : environment) (p : processor) (data : list item) (op : string)
    (cb : bool) :
  Forall (validated_batch (config p) data op)
         (trace (snd (process_batches env data op cb (start p)))).
Proof.
  refine (proj2 (keeps_final (config p) no_constraint no_constraint
                   no_constraint (Forall (validated_batch (config p) data op))
                   _ (process_batches env data op cb) whatever (start p)
                   _ _)).
  - apply (keeps_process_batches _ _ _ _ _
             (validated_batch (config p) data op)).
    + apply Forall_closure; intros; exact I.
    + intros q s _. simpl. apply Forall_forall. intros it Hin.
      apply In_py_slice in Hin. unfold _validate_batch_data in Hin.
      destruct (validation_enabled (config p)); simpl in Hin.
      * apply filter_In in Hin. destruct Hin. split; auto.
      * split; [exact Hin|discriminate].
  - apply inv_start. constructor.
Qed.

(** ** Every record once, when the batch size is fixed *)

(** The batches handed to the batch operation, in order. *)
Fixpoint operations (tr : list event) : list (list item) :=
  match tr with
  | [] => []
  | BatchOperation batch :: rest => batch :: operations rest
  | _ :: rest => operations rest
  end.

Lemma operations_app (a b : list event) :
  operations (a ++ b) = (operations a ++ operations b)%list.
Proof.
  induction a as [|e a IH]; [reflexivity|].
  destruct e; simpl; now rewrite IH.
Qed.

Definition not_an_operation (e : event) : Prop :=
  match e with BatchOperation _ => False | _ => True end.

(** From a world satisfying [P], [m] leads to one satisfying [Qr] when it
    returns and [Qe] when it raises. *)
Definition triple {A : Type} (P : world -> Prop) (m : M A)
    (Qr : A -> world -> Prop) (Qe : world -> Prop) : Prop :=
  forall w, P w ->
    match m w with
    | (inr a, w') => Qr a w'
    | (inl _, w') => Qe w'
    end.

Lemma triple_bind {A B} (P : world -> Prop) (m : M A) (k : A -> M B)
    (Pk : A -> world -> Prop) (Qr : B -> world -> Prop) (Qe : world -> Prop) :
  triple P m Pk Qe -> (forall a, triple (Pk a) (k a) Qr Qe) ->
  triple P (bind m k) Qr Qe.
Proof.
  intros Hm Hk w Hw. unfold bind. specialize (Hm w Hw).
  destruct (m w) as [[e|a] w']; [exact Hm|exact (Hk a w' Hm)].
Qed.

Lemma triple_try {A} (P : world -> Prop) (body : M A) (handler : exn -> M A)
    (Qh : world -> Prop) (Qr : A -> world -> Prop) (Qe : world -> Prop) :
  triple P body Qr Qh -> (forall e, triple Qh (handler e) Qr Qe) ->
  triple P (try_except body handler) Qr Qe.
Proof.
  intros Hb Hh w Hw. unfold try_except. specialize (Hb w Hw).
  destruct (body w) as [[e|a] w']; [exact (Hh e w' Hb)|exact Hb].
Qed.

Lemma triple_weaken {A} (P : world -> Prop) (m : M A)
    (Qr Qr' : A -> world -> Prop) (Qe Qe' : world -> Prop) :
  triple P m Qr Qe -> (forall a w, Qr a w -> Qr' a w) ->
  (forall w, Qe w -> Qe' w) -> triple P m Qr' Qe'.
Proof.
  intros Hm Hr He w Hw. specialize (Hm w Hw).
  destruct (m w) as [[e|a] w']; auto.
Qed.

Section FixedSize.

Variable env : environment.
Variable cfg : BatchConfig.
Variable size : Z.

Hypothesis tuning_off : auto_tune_enabled cfg = false.
Hypothesis begin_succeeds :
  forall n, execute_raises env n "BEGIN TRANSACTION" = None.

(** The configuration and the batch size are the given ones and the
    batches handed over so far are [done]. *)
Definition handed_over (done : list (list item)) : world -> Prop :=
  inv cfg (eq size) no_constraint no_constraint
      (fun tr => operations tr = done).

Lemma fixed_closure (done : list (list item)) :
  closure cfg (eq size) no_constraint no_constraint
          (fun tr => operations tr = done) not_an_operation.
Proof.
  constructor; try (intros; exact I).
  - intros tr e Htr He. rewrite operations_app, Htr.
    destruct e; simpl in *; try apply app_nil_r. contradiction.
  - rewrite tuning_off. discriminate.
Qed.

(** What keeps the invariant hands nothing over. *)
Lemma keeps_handed_over (done : list (list item)) (A : Type) (m : M A)
    (Q : A -> Prop) :
  keeps cfg (eq size) no_constraint no_constraint
        (fun tr => operations tr = done) m Q ->
  triple (handed_over done) m (fun _ => handed_over done) (handed_over done).
Proof.
  intros Hm w Hw. specialize (Hm w Hw).
  destruct (m w) as [[e|a] w']; [exact Hm|apply Hm].
Qed.

Lemma begin_hands_over_nothing (done : list (list item)) (p : processor) :
  triple (handed_over done)
         (when (batch_scope p) (connection_execute env "BEGIN TRANSACTION"))
         (fun _ => handed_over done) (fun _ => False).
Proof.
  intros w [Hp Ht]. unfold when.
  destruct (batch_scope p); [|split; assumption].
  unfold connection_execute, bind, emit. cbn [trace self locals].
  rewrite begin_succeeds. simpl. split; [exact Hp|].
  simpl. now apply (T_emit _ _ _ _ _ _ (fixed_closure done)).
Qed.

Lemma operation_hands_over (done : list (list item)) (batch : list item) :
  triple (handed_over done) (batch_operation env batch)
         (fun _ => handed_over (done ++ [batch]))
         (handed_over (done ++ [batch])).
Proof.
  intros w [Hp Ht]. unfold batch_operation, bind, emit.
  cbn [trace self locals].
  assert (H : handed_over (done ++ [batch])
                (mkWorld (self w) (locals w)
                         (trace w ++ [BatchOperation batch]))).
  { split; [exact Hp|]. simpl. rewrite operations_app, Ht. reflexivity. }
  destruct (operation env (List.length (trace w)) batch); exact H.
Qed.

(** The batch that starts at [batch_start] when the size is [size]. *)
Definition batch_from (vd : list item) (batch_start : Z) : list item :=
  py_slice vd batch_start
           (Z.min (batch_start + size) (Z.of_nat (List.length vd))).

Lemma run_batch_hands_over (done : list (list item)) (vd batch : list item)
    (cb : bool) :
  triple (handed_over done) (run_batch env vd batch cb)
         (fun _ => handed_over (done ++ [batch]))
         (handed_over (done ++ [batch])).
Proof.
  unfold run_batch. intros w Hw. unfold bind at 1, get_self.
  assert (Hp : Pf cfg (eq size) no_constraint no_constraint (self w))
    by apply Hw.
  refine (triple_bind _ _ _ (fun _ => handed_over done) _ _ _ _ w Hw).
  - eapply triple_weaken; [apply begin_hands_over_nothing|auto|contradiction].
  - intros ?.
    eapply triple_bind; [apply operation_hands_over|].
    intros result.
    eapply keeps_handed_over, keeps_after_operation;
      [apply fixed_closure|exact Hp].
Qed.

Lemma process_batch_hands_over (done : list (list item)) (vd : list item)
    (cb : bool) (batch_start : Z) :
  triple (handed_over done) (process_batch env vd cb batch_start)
         (fun _ => handed_over (done ++ [batch_from vd batch_start]))
         (fun _ => True).
Proof.
  intros w Hw. unfold process_batch, bind at 1, get_self.
  assert (Hbatch : batch_at vd (self w) batch_start
                   = batch_from vd batch_start).
  { unfold batch_at, batch_from.
    pose proof (proj1 (proj2 (proj1 Hw))) as Hs. simpl in Hs.
    now rewrite <- Hs. }
  rewrite Hbatch.
  refine (triple_try _ _ _ (handed_over (done ++ [batch_from vd batch_start]))
            _ _ _ _ w Hw).
  - unfold try_batch.
    eapply triple_bind; [apply run_batch_hands_over|].
    intros ?. eapply keeps_handed_over, keeps_auto_tune_step, fixed_closure.
  - intros e.
    eapply triple_weaken;
      [eapply keeps_handed_over, keeps_except_batch, fixed_closure
      |auto|auto].
Qed.

Lemma batches_loop_hands_over (vd : list item) (cb : bool) (starts : list Z) :
  forall done,
    triple (handed_over done) (batches_loop env vd cb starts)
           (fun _ => handed_over (done ++ map (batch_from vd) starts))
           (fun _ => True).
Proof.
  induction starts as [|b rest IH]; intros done; simpl.
  - intros w Hw. simpl. now rewrite app_nil_r.
  - eapply triple_bind; [apply process_batch_hands_over|].
    intros ? w Hw. specialize (IH _ w Hw).
    destruct (batches_loop env vd cb rest w) as [[e|x] w']; [exact I|].
    now rewrite <- app_assoc in IH.
Qed.

End FixedSize.

(** All the batches of [vd] when the size is [size]. *)
Definition all_batches (size : Z) (vd : list item) : list (list item) :=
  match py_range (Z.of_nat (List.length vd)) size with
  | inr starts => map (batch_from size vd) starts
  | inl _ => []
  end.

Lemma all_batches_nil (size : Z) : all_batches size [] = [].
Proof.
  unfold all_batches, py_range. simpl.
  destruct (size =? 0); [reflexivity|].
  now rewrite orb_true_r.
Qed.

Lemma validate_nil (cfg : BatchConfig) (op : string) :
  _validate_batch_data cfg [] op = [].
Proof.
  unfold _validate_batch_data. now destruct (negb (validation_enabled cfg)).
Qed.

Lemma process_batches_hands_over (env : environment) (cfg : BatchConfig)
    (size : Z) (data : list item) (op : string) (cb : bool) :
  auto_tune_enabled cfg = false ->
  (forall n, execute_raises env n "BEGIN TRANSACTION" = None) ->
  triple (handed_over cfg size []) (process_batches env data op cb)
         (fun _ => handed_over cfg size
                     (all_batches size (_validate_batch_data cfg data op)))
         (fun _ => True).
Proof.
  intros Htune Hbegin w Hw. unfold process_batches.
  destruct data as [|d ds].
  { simpl. now rewrite validate_nil, all_batches_nil. }
  unfold bind at 1, get_self.
  assert (Hc : config (self w) = cfg) by apply Hw. rewrite Hc.
  set (vd := _validate_batch_data cfg (d :: ds) op).
  assert (Hsize : current_batch_size (self w) = size).
  { pose proof (proj1 (proj2 (proj1 Hw))) as Hs. simpl in Hs. auto. }
  rewrite Hsize.
  destruct vd as [|v vs] eqn:Hvd.
  { simpl. now rewrite all_batches_nil. }
  rewrite <- Hvd. clear Hvd.
  assert (Hlocals : handed_over cfg size []
                      (snd (put_locals (mkTotals 0 0 0) w)))
    by (split; [apply Hw|apply Hw]).
  unfold bind at 1. cbn [put_locals] in *.
  set (w1 := mkWorld (self w) (mkTotals 0 0 0) (trace w)) in *.
  unfold bind at 1, all_batches.
  destruct (py_range (Z.of_nat (List.length vd)) size) as [e|starts];
    [exact I|].
  cbn [lift ret].
  pose proof (batches_loop_hands_over env cfg size Htune Hbegin vd cb starts
                [] w1 Hlocals) as Hloop.
  unfold bind at 1.
  destruct (batches_loop env vd cb starts w1) as [[e|[]] w2]; [exact I|].
  cbn [app] in Hloop.
  pose proof (keeps_after_loop cfg (eq size) no_constraint no_constraint
                (fun tr => operations tr
                           = map (batch_from size vd) starts)
                not_an_operation (fixed_closure cfg size Htune _)
                env vd cb w2 Hloop) as Htail.
  match goal with
  | |- match ?m w2 with _ => _ end =>
      match type of Htail with
      | match ?m' w2 with _ => _ end => change m with m'
      end
  end.
  match type of Htail with
  | match ?m' w2 with _ => _ end =>
      destruct (m' w2) as [[e|a] w3]; [exact I|apply Htail]
  end.
Qed.

Lemma firstn_plus (A : Type) (a b : nat) :
  forall l : list A,
    firstn (a + b) l = (firstn a l ++ firstn b (skipn a l))%list.
Proof.
  induction a as [|a IH]; intros [|x l]; simpl;
    try reflexivity; [now rewrite firstn_nil|now rewrite IH].
Qed.

Lemma batch_from_chunk (size : Z) (vd : list item) (k : nat) :
  0 < size ->
  batch_from size vd (Z.of_nat k * size)
  = firstn (Z.to_nat size) (skipn (k * Z.to_nat size) vd).
Proof.
  intros Hsize. unfold batch_from, py_slice.
  set (n := Z.of_nat (List.length vd)).
  assert (Hb : (Z.min (Z.of_nat k * size + size) n <? 0) = false)
    by (apply Z.ltb_ge; unfold n; nia).
  rewrite Hb.
  assert (Ha : Z.to_nat (Z.of_nat k * size) = (k * Z.to_nat size)%nat)
    by (rewrite Z2Nat.inj_mul, Nat2Z.id; lia).
  rewrite Ha.
  set (rest := skipn (k * Z.to_nat size) vd).
  assert (Hlen : List.length rest = (List.length vd - k * Z.to_nat size)%nat)
    by apply length_skipn.
  assert (Hcount : Z.to_nat (Z.min (Z.min (Z.of_nat k * size + size) n) n
                             - Z.of_nat k * size)
                   = Nat.min (Z.to_nat size) (List.length rest)).
  { rewrite Hlen. unfold n. lia. }
  rewrite Hcount, <- firstn_firstn, firstn_all. reflexivity.
Qed.

Lemma concat_chunks (s : nat) (vd : list item) (n : nat) :
  List.concat (map (fun k => firstn s (skipn (k * s) vd)) (seq 0 n))
  = firstn (n * s) vd.
Proof.
  induction n as [|n IH]; [reflexivity|].
  rewrite seq_S, map_app, concat_app, IH. simpl.
  rewrite app_nil_r, (Nat.add_comm s), firstn_plus. reflexivity.
Qed.

Lemma all_batches_chunks (size : Z) (vd : list item) :
  0 < size ->
  all_batches size vd
  = map (fun k => firstn (Z.to_nat size) (skipn (k * Z.to_nat size) vd))
        (seq 0 (Z.to_nat ((Z.of_nat (List.length vd) + size - 1) / size))).
Proof.
  intros Hsize. unfold all_batches, py_range.
  destruct (Z.eqb_spec size 0); [lia|].
  destruct (Z.ltb_spec size 0); [lia|]. simpl.
  destruct (Z.leb_spec (Z.of_nat (List.length vd)) 0) as [Hz|Hpos].
  - assert (E : (Z.of_nat (List.length vd) + size - 1) / size = 0)
      by (apply Z.div_small; lia).
    now rewrite E.
  - rewrite map_map. apply map_ext. intros k. now apply batch_from_chunk.
Qed.

Lemma all_batches_cover (size : Z) (vd : list item) :
  0 < size ->
  List.concat (all_batches size vd) = vd
  /\ Forall (fun batch => Z.of_nat (List.length batch) <= size)
            (all_batches size vd).
Proof.
  intros Hsize. rewrite (all_batches_chunks size vd Hsize). split.
  - rewrite concat_chunks. apply firstn_all2.
    set (n := Z.of_nat (List.length vd)).
    assert (H : n <= (n + size - 1) / size * size).
    { pose proof (Z.div_mod (n + size - 1) size ltac:(lia)) as Hq.
      pose proof (Z.mod_pos_bound (n + size - 1) size Hsize). nia. }
    assert (Hq : 0 <= (n + size - 1) / size)
      by (apply Z.div_pos; unfold n; lia).
    unfold n in *. nia.
  - apply Forall_map, Forall_forall. intros k _.
    pose proof (firstn_le_length (Z.to_nat size)
                  (skipn (k * Z.to_nat size) vd)). lia.
Qed.

(** With auto-tuning off the batch size is fixed, and a run that returns
    has handed every validated record to the batch operation exactly
    once and in order: the batches handed over, one after the other, are
    the validated data, and none is longer than the batch size.  (The
    starts of the batches are computed once from the size at the start of
    the run, so this relies on the size not changing.) *)
Theorem every_record_is_handed_over_once_without_tuning
    (env : environment) (p : processor) (data : list item) (op : string)
    (cb : bool) (s : summary) :
  auto_tune_enabled (config p) = false ->
  0 < current_batch_size p ->
  (forall n, execute_raises env n "BEGIN TRANSACTION" = None) ->
  fst (process_batches env data op cb (start p)) = inr s ->
  List.concat
    (operations (trace (snd (process_batches env data op cb (start p)))))
  = _validate_batch_data (config p) data op
  /\ Forall (fun batch => Z.of_nat (List.length batch) <= current_batch_size p)
            (operations
               (trace (snd (process_batches env data op cb (start p))))).
Proof.
  intros Htune Hsize Hbegin Hret.
  assert (Hstart : handed_over (config p) (current_batch_size p) [] (start p)).
  { repeat split; simpl; try apply opt_no_constraint. }
  pose proof (process_batches_hands_over env (config p) (current_batch_size p)
                data op cb Htune Hbegin (start p) Hstart) as H.
  destruct (process_batches env data op cb (start p)) as [[e|a] w'];
    [discriminate|].
  destruct H as [_ Hops]. simpl. rewrite Hops.
  now apply all_batches_cover.
Qed.

Lemma every_record_is_handed_over_once_without_tuning_witness :
  List.concat
    (operations
       (trace (snd (process_batches BatchProcessorSpec.sample_env
                      BatchProcessorSpec.sample_data "posts" false
                      (start (new_processor
                                (mkConfig 5 2 8 100%float 1000%float false
                                          "batch" 100 true) true))))))
  = _validate_batch_data
      (mkConfig 5 2 8 100%float 1000%float false "batch" 100 true)
      BatchProcessorSpec.sample_data "posts"
  /\ Forall (fun batch => Z.of_nat (List.length batch) <= 5)
            (operations
               (trace (snd (process_batches BatchProcessorSpec.sample_env
                              BatchProcessorSpec.sample_data "posts" false
                              (start (new_processor
                                        (mkConfig 5 2 8 100%float 1000%float
                                                  false "batch" 100 true)
                                        true)))))).
Proof.
  refine (every_record_is_handed_over_once_without_tuning
            BatchProcessorSpec.sample_env
            (new_processor
               (mkConfig 5 2 8 100%float 1000%float false "batch" 100 true)
               true)
            BatchProcessorSpec.sample_data "posts" false
            (mkSummary 12 0 3
               (Some (mkDetails 100%float 0.12%float 5 0)))
            _ _ _ _).
  - reflexivity.
  - reflexivity.
  - reflexivity.
  - vm_compute. reflexivity.
Defined.

(** ** The stand-alone helpers *)

(** Whenever [create_batch_config] returns (it raises only when
    [memory_limit_mb * 10] is infinite or not a number), the configuration
    is well formed: the sizes satisfy
    [50 = min <= initial <= max <= 10000], the callback interval is at
    least 1, the scope is ["batch"] and validation is on.  A processor
    built from it therefore keeps its batch size within
    [[min_batch_size, max_batch_size]] through every run of
    [process_batches]. *)
Theorem created_config_is_well_formed
    (memory_limit_mb performance_target : float) (auto_tune : bool)
    (cfg : BatchConfig) :
  create_batch_config memory_limit_mb performance_target auto_tune = inr cfg ->
  (min_batch_size cfg = 50
   /\ 50 <= initial_batch_size cfg <= max_batch_size cfg
   /\ max_batch_size cfg <= 10000
   /\ 1 <= progress_callback_interval cfg
   /\ transaction_scope cfg = "batch"%string
   /\ validation_enabled cfg = true
   /\ auto_tune_enabled cfg = auto_tune)
  /\ forall env monitoring data op cb,
       BatchProcessorSpec.within_bounds cfg
         (self (snd (process_batches env data op cb
                       (start (new_processor cfg monitoring))))).
Proof.
  unfold create_batch_config.
  destruct (PyFloat.to_int (memory_limit_mb * 10)%float) as [e|n];
    [discriminate|].
  intros [= <-]. cbn [min_batch_size initial_batch_size max_batch_size
                      progress_callback_interval transaction_scope
                      validation_enabled auto_tune_enabled].
  set (initial := Z.max 50 (Z.min 10000 n)).
  assert (Hinit : 50 <= initial <= Z.min 10000 (initial * 3))
    by (unfold initial; lia).
  split; [repeat split; lia|].
  intros env monitoring data op cb.
  match goal with
  | |- BatchProcessorSpec.within_bounds ?c _ => set (cfg := c)
  end.
  assert (Hclamp : forall x,
            BatchProcessorSpec.in_range cfg
              (Z.max (min_batch_size cfg) (Z.min (max_batch_size cfg) x)))
    by (unfold BatchProcessorSpec.in_range; simpl; lia).
  set (w := start (new_processor cfg monitoring)).
  assert (Hw : BatchProcessorSpec.J cfg (BatchProcessorSpec.in_range cfg)
                 (BatchProcessorSpec.monitored (self w)) (self w)).
  { split; [reflexivity|]. split; [|reflexivity].
    unfold BatchProcessorSpec.in_range. simpl. lia. }
  destruct (BatchProcessorSpec.hoare_final cfg
              (BatchProcessorSpec.in_range cfg) _ _ _ _ w
              (BatchProcessorSpec.hoare_process_batches cfg _ _ env Hclamp
                 data op cb) Hw) as [(H1 & H2 & _) _].
  split; assumption.
Qed.

Lemma created_config_is_well_formed_witness :
  (min_batch_size (mkConfig 1000 50 3000 100%float 1000%float true "batch"
                            10 true) = 50
   /\ 50 <= 1000 <= 3000
   /\ 3000 <= 10000
   /\ 1 <= 10
   /\ "batch"%string = "batch"%string
   /\ true = true
   /\ true = true)
  /\ forall env monitoring data op cb,
       BatchProcessorSpec.within_bounds
         (mkConfig 1000 50 3000 100%float 1000%float true "batch" 10 true)
         (self (snd (process_batches env data op cb
                       (start (new_processor
                                 (mkConfig 1000 50 3000 100%float 1000%float
                                           true "batch" 10 true)
                                 monitoring))))).
Proof.
  apply (created_config_is_well_formed 100%float 1000%float true
           (mkConfig 1000 50 3000 100%float 1000%float true "batch" 10 true)).
  vm_compute. reflexivity.
Defined.

(** Whenever [estimate_batch_size_for_dataset] returns (it raises only
    when the quotient of the memory by the record size is infinite or not
    a number), the estimate lies between 50 and 10000, and is at most 2000
    for a dataset of more than 100000 records. *)
Theorem estimated_batch_size_is_bounded
    (dataset_size : Z) (available_memory_mb : float) (n : Z) :
  estimate_batch_size_for_dataset dataset_size available_memory_mb = inr n ->
  50 <= n <= 10000 /\ (100000 < dataset_size -> n <= 2000).
Proof.
  unfold estimate_batch_size_for_dataset. cbv zeta.
  destruct (PyFloat.div available_memory_mb 0.001) as [e|q]; [discriminate|].
  destruct (PyFloat.to_int q) as [e|m]; [discriminate|].
  intros [= <-].
  destruct (Z.ltb_spec 100000 dataset_size); lia.
Qed.

Lemma estimated_batch_size_is_bounded_witness :
  50 <= 2000 <= 10000 /\ (100000 < 250000 -> 2000 <= 2000).
Proof.
  apply (estimated_batch_size_is_bounded 250000 512%float 2000).
  vm_compute. reflexivity.
Defined.

(** ** Validation *)


End BatchProcessorFacts.

(* ===================================================================== *)
(** * Properties of streaming into the database                           *)
(* ===================================================================== *)

Module StreamingFacts.
Import PyExn Watchful Streaming.
Local Open Scope Z_scope.

Section Facts.
Variable obj : Type.
Variable env : surroundings obj.

(** The batches inserted, in order. *)
Fixpoint inserted (tr : list (call obj)) : list (list obj) :=
  match tr with
  | [] => []
  | InsertPosts _ batch :: rest => batch :: inserted rest
  | InsertComments _ batch :: rest => batch :: inserted rest
  | _ :: rest => inserted rest
  end.

Lemma inserted_app (a b : list (call obj)) :
  inserted (a ++ b) = (inserted a ++ inserted b)%list.
Proof.
  induction a as [|e a IH]; [reflexivity|].
  destruct e; simpl; now rewrite IH.
Qed.

(** The calls made inside the [try] statement. *)
Definition inner (e : call obj) : Prop :=
  match e with Connect _ | Cleanup _ => False | _ => True end.

(** The objects of the lines that [json.loads] accepts, in order. *)
Fixpoint parsed (lines : list (text * Z)) : list obj :=
  match lines with
  | [] => []
  | (line, _) :: rest =>
      match loads obj env line with
      | inr o => o :: parsed rest
      | inl _ => parsed rest
      end
  end.

(** The lines that are counted as bad. *)
Fixpoint bad (lines : list (text * Z)) : Z :=
  match lines with
  | [] => 0
  | (line, _) :: rest =>
      match loads obj env line with
      | inl (KeyError) | inl (JSONDecodeError) => 1 + bad rest
      | _ => bad rest
      end
  end.

Definition valid_type (record_type : string) : Prop :=
  record_type = "posts"%string \/ record_type = "comments"%string.

(** What a step adds to the calls: [added], all inside the [try]
    statement, with the batches [batches] among them. *)
Definition adds (tr tr' : list (call obj)) (batches : list (list obj))
  : Prop :=
  exists added,
    tr' = (tr ++ added)%list /\ Forall inner added
    /\ inserted added = batches.

Lemma adds_nothing (tr : list (call obj)) : adds tr tr [].
Proof. exists []. now rewrite app_nil_r. Qed.

Lemma adds_trans (a b c : list (call obj)) (x y : list (list obj)) :
  adds a b x -> adds b c y -> adds a c (x ++ y).
Proof.
  intros (p & -> & Hp & <-) (q & -> & Hq & <-).
  exists (p ++ q)%list. rewrite app_assoc, inserted_app.
  repeat split. now apply Forall_app.
Qed.

Lemma adds_one (tr : list (call obj)) (e : call obj) :
  inner e -> adds tr (tr ++ [e]) (inserted [e]).
Proof. intros He. exists [e]. repeat split. now constructor. Qed.

(** [m] makes calls inside the [try] statement only and inserts
    nothing. *)
Definition quiet {A : Type} (m : IO obj A) : Prop :=
  forall tr, adds tr (snd (m tr)) [].

(** What [m] returns satisfies [P]. *)
Definition returns {A : Type} (m : IO obj A) (P : A -> Prop) : Prop :=
  forall tr a, fst (m tr) = inr a -> P a.

Lemma quiet_ret {A} (a : A) : quiet (io_ret obj a).
Proof. intros tr. apply adds_nothing. Qed.

Lemma quiet_raise {A} (e : failure) : quiet (@io_raise obj A e).
Proof. intros tr. apply adds_nothing. Qed.

Lemma quiet_bind {A B} (m : IO obj A) (k : A -> IO obj B) :
  quiet m -> (forall a, quiet (k a)) -> quiet (io_bind obj m k).
Proof.
  intros Hm Hk tr. unfold io_bind. specialize (Hm tr).
  destruct (m tr) as [[e|a] tr1]; [exact Hm|].
  apply (adds_trans _ _ _ [] [] Hm). apply Hk.
Qed.

Lemma quiet_builtin {A} (r : result A) : quiet (io_builtin obj r).
Proof. destruct r; [apply quiet_raise|apply quiet_ret]. Qed.

Lemma quiet_answer {A} (r : failure + A) : quiet (io_answer obj r).
Proof. destruct r; [apply quiet_raise|apply quiet_ret]. Qed.

Lemma quiet_check (r : option failure) : quiet (io_check obj r).
Proof. destruct r; [apply quiet_raise|apply quiet_ret]. Qed.

Lemma quiet_call (e : call obj) :
  inner e -> inserted [e] = [] -> quiet (io_call obj e).
Proof.
  intros He Hi tr. simpl. rewrite <- Hi. now apply adds_one.
Qed.

Lemma quiet_now : quiet (now obj env).
Proof.
  unfold now. apply quiet_bind; [now apply quiet_call|].
  intros n. apply quiet_ret.
Qed.

Lemma returns_ret {A} (a : A) (P : A -> Prop) : P a -> returns (io_ret obj a) P.
Proof. intros Ha tr x [= <-]. exact Ha. Qed.

Lemma returns_raise {A} (e : failure) (P : A -> Prop) :
  returns (io_raise obj e) P.
Proof. intros tr x. discriminate. Qed.

Lemma returns_bind {A B} (m : IO obj A) (k : A -> IO obj B) (P : B -> Prop) :
  (forall a, returns (k a) P) -> returns (io_bind obj m k) P.
Proof.
  intros Hk tr b. unfold io_bind.
  destruct (m tr) as [[e|a] tr1]; [discriminate|apply Hk].
Qed.

Ltac quiet_step :=
  lazymatch goal with
  | |- quiet (io_bind _ _ _) => apply quiet_bind; [|intros ?]
  | |- quiet (if ?b then _ else _) => destruct b
  | |- quiet (io_ret _ _) => apply quiet_ret
  | |- quiet (io_raise _ _) => apply quiet_raise
  | |- quiet (io_builtin _ _) => apply quiet_builtin
  | |- quiet (io_answer _ _) => apply quiet_answer
  | |- quiet (io_check _ _) => apply quiet_check
  | |- quiet (now _ _) => apply quiet_now
  | |- quiet (io_call _ _) => apply quiet_call; [exact I|reflexivity]
  end.

Ltac returns_step :=
  lazymatch goal with
  | |- returns (io_bind _ _ _) _ => apply returns_bind; intros ?
  | |- returns (if ?b then _ else _) _ => destruct b
  | |- returns (io_ret _ _) _ => apply returns_ret
  | |- returns (io_raise _ _) _ => apply returns_raise
  end.

(** The counters but the time of the last report. *)
Definition counts (c : counters obj) : Z * Z * Z * Z * list obj :=
  (file_lines obj c, bad_lines obj c, records_processed obj c,
   records_filtered obj c, batch_records obj c).

Lemma report_progress_quiet (start_time : float) (pos : Z) (c : counters obj) :
  quiet (report_progress obj env start_time pos c).
Proof. unfold report_progress. repeat quiet_step. Qed.

Lemma report_progress_counts (start_time : float) (pos : Z)
    (c : counters obj) :
  returns (report_progress obj env start_time pos c)
          (fun c' => counts c' = counts c).
Proof. unfold report_progress. repeat returns_step; reflexivity. Qed.

Lemma flush_adds (batch : list obj) (record_type : string)
    (tr : list (call obj)) :
  valid_type record_type ->
  adds tr (snd (_flush_batch_to_database obj env batch record_type tr))
       [batch].
Proof.
  intros [-> | ->]; unfold _flush_batch_to_database; simpl;
    unfold io_bind, io_call, io_answer;
    [destruct (insert_posts_batch obj env (List.length tr) batch)
    |destruct (insert_comments_batch obj env (List.length tr) batch)];
    simpl;
    first [apply (adds_one tr (InsertPosts obj batch) I)
          |apply (adds_one tr (InsertComments obj batch) I)].
Qed.

Lemma io_bind_unfold {A B} (m : IO obj A) (k : A -> IO obj B)
    (tr : list (call obj)) :
  io_bind obj m k tr
  = match m tr with
    | (inr a, tr') => k a tr'
    | (inl e, tr') => (inl e, tr')
    end.
Proof. reflexivity. Qed.

Definition full (batch_size : Z) (c : counters obj) : bool :=
  batch_size <=? Z.of_nat (List.length (batch_records obj c)).

Lemma flush_when_full_spec (record_type : string) (batch_size : Z)
    (has_processor : bool) (c : counters obj) (tr : list (call obj)) :
  valid_type record_type ->
  adds tr (snd (flush_when_full obj env record_type batch_size has_processor
                                c tr))
       (if full batch_size c then [batch_records obj c] else [])
  /\ forall c',
       fst (flush_when_full obj env record_type batch_size has_processor c tr)
       = inr c' ->
       c' = mkCounters obj (file_lines obj c) (bad_lines obj c)
              (records_processed obj c) (records_filtered obj c)
              (if full batch_size c then [] else batch_records obj c)
              (last_progress_update obj c).
Proof.
  intros Hvalid. unfold flush_when_full, full.
  destruct (batch_size <=? Z.of_nat (List.length (batch_records obj c))).
  - rewrite io_bind_unfold.
    pose proof (flush_adds (batch_records obj c) record_type tr Hvalid) as Hf.
    destruct (_flush_batch_to_database obj env (batch_records obj c)
                record_type tr) as [[e|[]] tr1]; simpl in Hf.
    + split; [exact Hf|simpl; discriminate].
    + rewrite io_bind_unfold.
      assert (Hq : quiet (if has_processor
                          then io_bind obj (io_call obj (CheckMemory obj))
                                 (fun n => io_check obj
                                             (check_memory_usage obj env n))
                          else io_ret obj tt))
        by repeat quiet_step.
      specialize (Hq tr1).
      match goal with
      | H : adds tr1 (snd (?m tr1)) [] |- _ =>
          destruct (m tr1) as [[e|[]] tr2]
      end; simpl in Hq.
      * split; [|simpl; discriminate].
        apply (adds_trans _ _ _ [_] [] Hf Hq).
      * split; [apply (adds_trans _ _ _ [_] [] Hf Hq)|].
        simpl. now intros c' [= <-].
  - split; [apply adds_nothing|]. simpl. intros c' [= <-]. now destruct c.
Qed.

(** The size of a batch that is inserted. *)
Definition batch_fits (batch_size : Z) (batch : list obj) : Prop :=
  1 <= Z.of_nat (List.length batch) <= batch_size.

Lemma stream_lines_spec (record_type : string) (batch_size : Z)
    (has_processor : bool) (start_time : float) (lines : list (text * Z)) :
  valid_type record_type ->
  forall (c : counters obj) (tr : list (call obj)),
  exists batches,
    adds tr (snd (stream_lines obj env record_type batch_size has_processor
                               start_time lines c tr)) batches
    /\ (forall c',
          fst (stream_lines obj env record_type batch_size has_processor
                            start_time lines c tr) = inr c' ->
          (List.concat batches ++ batch_records obj c'
           = batch_records obj c ++ parsed lines)%list
          /\ records_processed obj c'
             = records_processed obj c + Z.of_nat (List.length (parsed lines))
          /\ bad_lines obj c' = bad_lines obj c + bad lines
          /\ file_lines obj c'
             = file_lines obj c + Z.of_nat (List.length lines)
          /\ records_filtered obj c' = records_filtered obj c)
    /\ (1 <= batch_size ->
        Z.of_nat (List.length (batch_records obj c)) < batch_size ->
        Forall (batch_fits batch_size) batches
        /\ forall c',
             fst (stream_lines obj env record_type batch_size has_processor
                               start_time lines c tr) = inr c' ->
             Z.of_nat (List.length (batch_records obj c')) < batch_size).
Proof.
  intros Hvalid. induction lines as [|[line pos] rest IH]; intros c tr.
  - exists []. split; [apply adds_nothing|]. split.
    + intros c' [= <-]. simpl. rewrite app_nil_r, !Z.add_0_r. auto.
    + intros _ Hlt. split; [constructor|]. now intros c' [= <-].
  - cbn [stream_lines parsed bad List.length].
    rewrite io_bind_unfold. unfold take_line, _should_include_record.
    set (step := fun c1 : counters obj =>
           io_bind obj
             (flush_when_full obj env record_type batch_size has_processor
                (mkCounters obj (file_lines obj c1 + 1) (bad_lines obj c1)
                   (records_processed obj c1) (records_filtered obj c1)
                   (batch_records obj c1) (last_progress_update obj c1)))
             (fun c3 =>
                io_bind obj (report_progress obj env start_time pos c3)
                  (fun c4 =>
                     stream_lines obj env record_type batch_size has_processor
                                  start_time rest c4))).
    assert (Hstep : forall c1 : counters obj,
              exists batches,
                adds tr (snd (step c1 tr)) batches
                /\ (forall c',
                      fst (step c1 tr) = inr c' ->
                      (List.concat batches ++ batch_records obj c'
                       = batch_records obj c1 ++ parsed rest)%list
                      /\ records_processed obj c'
                         = records_processed obj c1
                           + Z.of_nat (List.length (parsed rest))
                      /\ bad_lines obj c' = bad_lines obj c1 + bad rest
                      /\ file_lines obj c'
                         = file_lines obj c1 + 1 + Z.of_nat (List.length rest)
                      /\ records_filtered obj c' = records_filtered obj c1)
                /\ (1 <= batch_size ->
                    Z.of_nat (List.length (batch_records obj c1)) <= batch_size ->
                    Forall (batch_fits batch_size) batches
                    /\ forall c',
                         fst (step c1 tr) = inr c' ->
                         Z.of_nat (List.length (batch_records obj c'))
                         < batch_size)).
    { intros c1. unfold step. rewrite io_bind_unfold.
      set (c2 := mkCounters obj (file_lines obj c1 + 1) (bad_lines obj c1)
                   (records_processed obj c1) (records_filtered obj c1)
                   (batch_records obj c1) (last_progress_update obj c1)).
      destruct (flush_when_full_spec record_type batch_size has_processor
                  c2 tr Hvalid) as [Hadd Hval].
      destruct (flush_when_full obj env record_type batch_size has_processor
                  c2 tr) as [[e|c3] tr1]; simpl in Hadd, Hval.
      { eexists. split; [exact Hadd|]. split; [discriminate|].
        intros Hbs Hle. split; [|discriminate].
        unfold full. simpl.
        destruct (Z.leb_spec batch_size
                    (Z.of_nat (List.length (batch_records obj c1))));
          constructor; [|constructor]. unfold batch_fits. lia. }
      specialize (Hval c3 eq_refl).
      rewrite io_bind_unfold.
      pose proof (report_progress_quiet start_time pos c3 tr1) as Hq.
      pose proof (report_progress_counts start_time pos c3 tr1) as Hc.
      destruct (report_progress obj env start_time pos c3 tr1)
        as [[e|c4] tr2]; simpl in Hq, Hc.
      { eexists. split; [exact (adds_trans _ _ _ _ [] Hadd Hq)|].
        split; [discriminate|].
        intros Hbs Hle. split; [|discriminate]. rewrite app_nil_r.
        unfold full. simpl.
        destruct (Z.leb_spec batch_size
                    (Z.of_nat (List.length (batch_records obj c1))));
          constructor; [|constructor]. unfold batch_fits. lia. }
      specialize (Hc c4 eq_refl). unfold counts in Hc.
      injection Hc as Hc1 Hc2 Hc3 Hc4 Hc5.
      destruct (IH c4 tr2) as (batches & Hrest & Hvals & Hfit).
      exists ((if full batch_size c2 then [batch_records obj c2] else [])
              ++ batches)%list.
      split.
      { replace ((if full batch_size c2 then [batch_records obj c2] else [])
                 ++ batches)%list
          with (((if full batch_size c2 then [batch_records obj c2] else [])
                 ++ []) ++ batches)%list by now rewrite app_nil_r.
        exact (adds_trans _ _ _ _ _ (adds_trans _ _ _ _ [] Hadd Hq) Hrest). }
      assert (Hbatch : batch_records obj c4
                       = if full batch_size c2 then []
                         else batch_records obj c1)
        by (rewrite Hc5, Hval; reflexivity).
      split.
      { intros c' Hc'. destruct (Hvals c' Hc') as (E1 & E2 & E3 & E4 & E5).
        rewrite Hc1, Hc2, Hc3, Hc4 in *. subst c3.
        cbn [file_lines bad_lines records_processed records_filtered batch_records last_progress_update] in *.
        repeat split; try lia.
        rewrite concat_app, <- app_assoc, E1, Hbatch.
        unfold full. simpl.
        destruct (batch_size <=? _); simpl; now rewrite ?app_nil_r. }
      { intros Hbs Hle.
        assert (Hlt : Z.of_nat (List.length (batch_records obj c4))
                      < batch_size).
        { rewrite Hbatch. unfold full. simpl.
          destruct (Z.leb_spec batch_size
                      (Z.of_nat (List.length (batch_records obj c1))));
            simpl; lia. }
        destruct (Hfit Hbs Hlt) as [Hall Hlast].
        split; [|exact Hlast].
        apply Forall_app. split; [|exact Hall].
        unfold full. simpl.
        destruct (Z.leb_spec batch_size
                    (Z.of_nat (List.length (batch_records obj c1))));
          constructor; [|constructor]. unfold batch_fits. lia. } }
    destruct (loads obj env line) as [e|o].
    + assert (Hbad : forall c1 : counters obj,
                c1 = mkCounters obj (file_lines obj c) (bad_lines obj c + 1)
                       (records_processed obj c) (records_filtered obj c)
                       (batch_records obj c) (last_progress_update obj c) ->
                exists batches,
                  adds tr (snd (step c1 tr)) batches
                  /\ (forall c',
                        fst (step c1 tr) = inr c' ->
                        (List.concat batches ++ batch_records obj c'
                         = batch_records obj c ++ parsed rest)%list
                        /\ records_processed obj c'
                           = records_processed obj c
                             + Z.of_nat (List.length (parsed rest))
                        /\ bad_lines obj c' = bad_lines obj c + (1 + bad rest)
                        /\ file_lines obj c'
                           = file_lines obj c
                             + Z.of_nat (S (List.length rest))
                        /\ records_filtered obj c' = records_filtered obj c)
                  /\ (1 <= batch_size ->
                      Z.of_nat (List.length (batch_records obj c))
                      < batch_size ->
                      Forall (batch_fits batch_size) batches
                      /\ forall c',
                           fst (step c1 tr) = inr c' ->
                           Z.of_nat (List.length (batch_records obj c'))
                           < batch_size)).
      { intros c1 ->. destruct (Hstep (mkCounters obj (file_lines obj c)
                     (bad_lines obj c + 1) (records_processed obj c)
                     (records_filtered obj c) (batch_records obj c)
                     (last_progress_update obj c)))
          as (batches & Hadd & Hvals & Hfit).
        exists batches. split; [exact Hadd|]. split.
        - intros c' Hc'. destruct (Hvals c' Hc') as (E1 & E2 & E3 & E4 & E5).
          cbn [file_lines bad_lines records_processed records_filtered batch_records last_progress_update] in *.
          repeat split; try assumption; lia.
        - intros Hbs Hlt. apply Hfit; cbn [file_lines bad_lines records_processed records_filtered batch_records last_progress_update]; lia. }
      assert (Hraise : exists batches : list (list obj),
                adds tr tr batches
                /\ (forall c', @inl failure (counters obj) e = inr c' ->
                      (List.concat batches ++ batch_records obj c'
                       = batch_records obj c ++ parsed rest)%list
                      /\ records_processed obj c'
                         = records_processed obj c
                           + Z.of_nat (List.length (parsed rest))
                      /\ bad_lines obj c' = bad_lines obj c + bad rest
                      /\ file_lines obj c'
                         = file_lines obj c + Z.of_nat (S (List.length rest))
                      /\ records_filtered obj c' = records_filtered obj c)
                /\ (1 <= batch_size ->
                    Z.of_nat (List.length (batch_records obj c)) < batch_size ->
                    Forall (batch_fits batch_size) batches
                    /\ forall c', @inl failure (counters obj) e = inr c' ->
                         Z.of_nat (List.length (batch_records obj c'))
                         < batch_size)).
      { exists []. split; [apply adds_nothing|]. split; [discriminate|].
        intros _ _. split; [constructor|discriminate]. }
      destruct e; try exact Hraise; apply (Hbad _ eq_refl).
    + destruct (Hstep (mkCounters obj (file_lines obj c) (bad_lines obj c)
                   (records_processed obj c + 1) (records_filtered obj c)
                   (batch_records obj c ++ [o]) (last_progress_update obj c)))
        as (batches & Hadd & Hvals & Hfit).
      exists batches. split; [exact Hadd|]. split.
      * intros c' Hc'. destruct (Hvals c' Hc') as (E1 & E2 & E3 & E4 & E5).
        cbn [file_lines bad_lines records_processed records_filtered batch_records last_progress_update] in *.
        rewrite <- app_assoc in E1. cbn [List.length].
        repeat split; try assumption; lia.
      * intros Hbs Hlt. apply Hfit; [exact Hbs|].
        cbn [file_lines bad_lines records_processed records_filtered batch_records last_progress_update].
        rewrite length_app. simpl List.length. lia.
Qed.

(** Every line counted is a record kept, a record filtered or a bad
    line. *)
Definition accounted (c : counters obj) : Prop :=
  file_lines obj c
  = records_processed obj c + records_filtered obj c + bad_lines obj c.

Lemma flush_when_full_accounted (record_type : string) (batch_size : Z)
    (has_processor : bool) (c : counters obj) :
  accounted c ->
  returns (flush_when_full obj env record_type batch_size has_processor c)
          accounted.
Proof.
  intros Hc. unfold flush_when_full.
  repeat returns_step; exact Hc.
Qed.

Lemma stream_lines_accounted (record_type : string) (batch_size : Z)
    (has_processor : bool) (start_time : float) (lines : list (text * Z)) :
  forall c, accounted c ->
    returns (stream_lines obj env record_type batch_size has_processor
                          start_time lines c) accounted.
Proof.
  induction lines as [|[line pos] rest IH]; intros c Hc; cbn [stream_lines].
  - now apply returns_ret.
  - intros tr c'. rewrite io_bind_unfold.
    assert (Hstep : forall c1, accounted c1 ->
              returns
                (io_bind obj
                   (flush_when_full obj env record_type batch_size
                      has_processor c1)
                   (fun c3 =>
                      io_bind obj (report_progress obj env start_time pos c3)
                        (fun c4 =>
                           stream_lines obj env record_type batch_size
                             has_processor start_time rest c4))) accounted).
    { intros c1 Hc1 tr1 x. rewrite io_bind_unfold.
      pose proof (flush_when_full_accounted record_type batch_size
                    has_processor c1 Hc1 tr1) as H3.
      destruct (flush_when_full obj env record_type batch_size has_processor
                  c1 tr1) as [[e|c3] tr2]; [discriminate|].
      specialize (H3 c3 eq_refl). rewrite io_bind_unfold.
      pose proof (report_progress_counts start_time pos c3 tr2) as H4.
      destruct (report_progress obj env start_time pos c3 tr2)
        as [[e|c4] tr3]; [discriminate|].
      specialize (H4 c4 eq_refl). unfold counts in H4.
      injection H4 as E1 E2 E3 E4 E5. apply IH.
      unfold accounted in *. lia. }
    unfold take_line, _should_include_record.
    destruct (loads obj env line) as [e|o].
    + destruct e; try discriminate; apply Hstep; unfold accounted in *;
        cbn [file_lines bad_lines records_processed records_filtered]; lia.
    + apply Hstep. unfold accounted in *.
      cbn [file_lines bad_lines records_processed records_filtered]. lia.
Qed.

(** The statements of the [try] body that follow the loop and the last
    flush. *)
Lemma final_statistics_quiet (start_time : float) (c : counters obj) :
  quiet (io_bind obj (now obj env) (fun t =>
         io_bind obj (io_call obj (DatabaseInfo obj)) (fun n =>
         io_bind obj (io_answer obj (db_size_mb obj env n)) (fun size =>
         io_bind obj
           (if (0 <? t - start_time)%float then
              io_bind obj
                (io_builtin obj (PyFloat.int_div (records_processed obj c)
                                                 (t - start_time)%float))
                (fun q => io_ret obj (Some q))
            else io_ret obj None)
           (fun rate =>
              io_ret obj
                (mkStatistics (records_processed obj c)
                   (records_filtered obj c) (bad_lines obj c)
                   (file_lines obj c) size (t - start_time)%float rate)))))).
Proof. repeat quiet_step. Qed.

Lemma final_statistics_returns (start_time : float) (c : counters obj) :
  returns (io_bind obj (now obj env) (fun t =>
           io_bind obj (io_call obj (DatabaseInfo obj)) (fun n =>
           io_bind obj (io_answer obj (db_size_mb obj env n)) (fun size =>
           io_bind obj
             (if (0 <? t - start_time)%float then
                io_bind obj
                  (io_builtin obj (PyFloat.int_div (records_processed obj c)
                                                   (t - start_time)%float))
                  (fun q => io_ret obj (Some q))
              else io_ret obj None)
             (fun rate =>
                io_ret obj
                  (mkStatistics (records_processed obj c)
                     (records_filtered obj c) (bad_lines obj c)
                     (file_lines obj c) size (t - start_time)%float rate))))))
          (fun s =>
             stat_records_processed s = records_processed obj c
             /\ stat_records_filtered s = records_filtered obj c
             /\ stat_bad_lines s = bad_lines obj c
             /\ stat_total_lines s = file_lines obj c).
Proof. repeat returns_step. auto. Qed.

(** The statistics the body returns and the batches it inserts. *)
Definition sound_statistics (s : statistics) : Prop :=
  stat_records_processed s
  = Z.of_nat (List.length (parsed (fst (source obj env))))
  /\ stat_bad_lines s = bad (fst (source obj env))
  /\ stat_total_lines s = Z.of_nat (List.length (fst (source obj env)))
  /\ stat_records_filtered s = 0
  /\ stat_total_lines s = stat_records_processed s + stat_bad_lines s.

Lemma stream_body_spec (record_type : string) (batch_size : Z)
    (has_processor : bool) (start_time : float) (tr : list (call obj)) :
  valid_type record_type ->
  exists batches,
    adds tr (snd (stream_body obj env record_type batch_size has_processor
                              start_time tr)) batches
    /\ (forall s,
          fst (stream_body obj env record_type batch_size has_processor
                           start_time tr) = inr s ->
          List.concat batches = parsed (fst (source obj env))
          /\ sound_statistics s)
    /\ (1 <= batch_size -> Forall (batch_fits batch_size) batches).
Proof.
  intros Hvalid. unfold stream_body. rewrite io_bind_unfold.
  set (c0 := mkCounters obj 0 0 0 0 [] 0%float).
  destruct (stream_lines_spec record_type batch_size has_processor start_time
              (fst (source obj env)) Hvalid c0 tr)
    as (batches & Hadd & Hvals & Hfit).
  pose proof (stream_lines_accounted record_type batch_size has_processor
                start_time (fst (source obj env)) c0 eq_refl tr) as Hacc.
  destruct (stream_lines obj env record_type batch_size has_processor
              start_time (fst (source obj env)) c0 tr) as [[e|c] tr1];
    cbn [fst snd] in *.
  { exists batches. split; [exact Hadd|]. split; [discriminate|].
    intros Hbs. apply Hfit; [exact Hbs|simpl; lia]. }
  destruct (Hvals c eq_refl) as (E1 & E2 & E3 & E4 & E5).
  specialize (Hacc c eq_refl).
  cbn [file_lines bad_lines records_processed records_filtered batch_records
       c0 app] in E1, E2, E3, E4, E5.
  rewrite io_bind_unfold.
  destruct (snd (source obj env)) as [e|]; cbn [io_check io_raise io_ret].
  { exists batches. split; [exact Hadd|]. split; [discriminate|].
    intros Hbs. apply Hfit; [exact Hbs|simpl; lia]. }
  rewrite io_bind_unfold.
  set (last_flush := match batch_records obj c with
                     | [] => io_ret obj tt
                     | _ :: _ =>
                         _flush_batch_to_database obj env
                           (batch_records obj c) record_type
                     end).
  assert (Hlast : adds tr1 (snd (last_flush tr1))
                       (match batch_records obj c with
                        | [] => []
                        | _ :: _ => [batch_records obj c]
                        end)).
  { unfold last_flush. destruct (batch_records obj c);
      [apply adds_nothing|now apply flush_adds]. }
  assert (Hsize : 1 <= batch_size ->
            Forall (batch_fits batch_size)
              (batches ++ match batch_records obj c with
                          | [] => []
                          | _ :: _ => [batch_records obj c]
                          end)).
  { intros Hbs. destruct (Hfit Hbs ltac:(simpl; lia)) as [Hall Hlt].
    specialize (Hlt c eq_refl). apply Forall_app. split; [exact Hall|].
    destruct (batch_records obj c) as [|o b] eqn:Hb; constructor;
      [|constructor].
    unfold batch_fits. rewrite <- Hb in *. rewrite Hb at 1. simpl. lia. }
  destruct (last_flush tr1) as [[e|[]] tr2]; cbn [snd] in Hlast.
  { eexists. split; [exact (adds_trans _ _ _ _ _ Hadd Hlast)|].
    split; [discriminate|exact Hsize]. }
  pose proof (final_statistics_quiet start_time c tr2) as Hq.
  pose proof (final_statistics_returns start_time c tr2) as Hr.
  match goal with
  | H : adds tr2 (snd (?m tr2)) [] |- _ => destruct (m tr2) as [[e|s] tr3]
  end; cbn [fst snd] in *.
  { eexists. split;
      [exact (adds_trans _ _ _ _ _ (adds_trans _ _ _ _ _ Hadd Hlast) Hq)|].
    split; [discriminate|]. rewrite app_nil_r. exact Hsize. }
  eexists. split;
    [exact (adds_trans _ _ _ _ _ (adds_trans _ _ _ _ _ Hadd Hlast) Hq)|].
  split; [|rewrite app_nil_r; exact Hsize].
  intros s' [= <-]. destruct (Hr s eq_refl) as (S1 & S2 & S3 & S4).
  split.
  - rewrite app_nil_r, concat_app, <- E1.
    destruct (batch_records obj c); simpl; now rewrite ?app_nil_r.
  - unfold sound_statistics. unfold accounted in Hacc.
    rewrite S1, S2, S3, S4. repeat split; lia.
Qed.

(** What the [except] clause makes of the outcome of the body. *)
Definition wrap {A : Type} (r : failure + A) : failure + A :=
  match r with
  | inr a => inr a
  | inl e => inl (PostgresDatabaseError e)
  end.

Lemma valid_type_eqb (record_type : string) :
  (String.eqb record_type "posts" || String.eqb record_type "comments") = true
  <-> valid_type record_type.
Proof.
  unfold valid_type. rewrite orb_true_iff, !String.eqb_eq. reflexivity.
Qed.

(** The ways a call of [stream_to_database] goes. *)
Lemma stream_to_database_cases (record_type : string) (batch_size : Z)
    (has_processor db_given : bool) :
  let run := stream_to_database obj env record_type batch_size has_processor
                                db_given [] in
  (path_exists obj env = false /\ run = (inl FileNotFoundError, [Now obj]))
  \/ (path_exists obj env = true /\ ~ valid_type record_type
      /\ exists msg, run = (inl (Builtin (ValueError msg)), [Now obj]))
  \/ (path_exists obj env = true /\ valid_type record_type
      /\ db_given = false
      /\ exists e, connect obj env = Some e
                   /\ run = (inl e, [Now obj; Connect obj]))
  \/ (path_exists obj env = true /\ valid_type record_type
      /\ db_given = true
      /\ run = (wrap (fst (stream_body obj env record_type batch_size
                                       has_processor (clock obj env 0%nat)
                                       [Now obj])),
                snd (stream_body obj env record_type batch_size
                                 has_processor (clock obj env 0%nat)
                                 [Now obj])))
  \/ (path_exists obj env = true /\ valid_type record_type
      /\ db_given = false /\ connect obj env = None
      /\ let body := stream_body obj env record_type batch_size has_processor
                                 (clock obj env 0%nat) [Now obj; Connect obj]
         in
         run = (match cleanup obj env (List.length (snd body)) with
                | Some e => inl e
                | None => wrap (fst body)
                end,
                (snd body ++ [Cleanup obj])%list)).
Proof.
  intros run. subst run. unfold stream_to_database.
  rewrite io_bind_unfold.
  change (now obj env []) with (@inr failure _ (clock obj env 0%nat), [Now obj]).
  cbv iota beta.
  destruct (path_exists obj env); cbn [negb]; [|left; split; reflexivity].
  right.
  destruct (String.eqb record_type "posts" || String.eqb record_type "comments")
    eqn:Hv; cbn [negb].
  2:{ left. split; [reflexivity|]. split.
      - intros H. apply valid_type_eqb in H. congruence.
      - eexists. reflexivity. }
  apply valid_type_eqb in Hv. right.
  rewrite io_bind_unfold. destruct db_given.
  - right. left. cbn [io_ret].
    do 3 (split; [reflexivity || exact Hv|]).
    destruct (stream_body obj env record_type batch_size has_processor
                (clock obj env 0%nat) [Now obj]) as [[e|s] tr1]; reflexivity.
  - rewrite io_bind_unfold. cbn [io_call List.length app].
    destruct (connect obj env) as [e|] eqn:Hc; cbn [io_check io_raise io_ret].
    + left. do 3 (split; [reflexivity || exact Hv|]).
      exists e. split; reflexivity.
    + right. right. do 4 (split; [reflexivity || exact Hv|]).
      cbv zeta. cbn [negb].
      destruct (stream_body obj env record_type batch_size has_processor
                  (clock obj env 0%nat) [Now obj; Connect obj])
        as [[e|s] tr1]; cbn [fst snd wrap];
        destruct (cleanup obj env (List.length tr1)); reflexivity.
Qed.

(** What the whole call inserts is what the body inserts. *)
Lemma stream_to_database_spec (record_type : string) (batch_size : Z)
    (has_processor db_given : bool) :
  let run := stream_to_database obj env record_type batch_size has_processor
                                db_given [] in
  exists batches,
    inserted (snd run) = batches
    /\ (forall s, fst run = inr s ->
          List.concat batches = parsed (fst (source obj env))
          /\ sound_statistics s)
    /\ (1 <= batch_size -> Forall (batch_fits batch_size) batches).
Proof.
  intros run.
  destruct (stream_to_database_cases record_type batch_size has_processor
              db_given)
    as [(_ & E) | [(_ & _ & msg & E) | [(_ & _ & _ & e & _ & E)
       | [(_ & Hv & _ & E) | (_ & Hv & _ & _ & E)]]]];
    fold run in E; rewrite E; cbn [fst snd].
  1-3: exists []; split; [reflexivity|]; split; [discriminate|constructor].
  - destruct (stream_body_spec record_type batch_size has_processor
                (clock obj env 0%nat) [Now obj] Hv)
      as (batches & (added & Ha & _ & Hi) & Hret & Hfit).
    exists batches. split; [rewrite Ha, inserted_app, Hi; reflexivity|].
    split; [|exact Hfit].
    intros s Hs. apply Hret.
    destruct (fst (stream_body obj env record_type batch_size has_processor
                     (clock obj env 0%nat) [Now obj])); [discriminate|exact Hs].
  - destruct (stream_body_spec record_type batch_size has_processor
                (clock obj env 0%nat) [Now obj; Connect obj] Hv)
      as (batches & (added & Ha & _ & Hi) & Hret & Hfit).
    exists batches.
    split; [rewrite Ha, !inserted_app, Hi; simpl; apply app_nil_r|].
    split; [|exact Hfit].
    intros s Hs. apply Hret.
    destruct (cleanup obj env _); [discriminate|].
    destruct (fst (stream_body obj env record_type batch_size has_processor
                     (clock obj env 0%nat) [Now obj; Connect obj]));
      [discriminate|exact Hs].
Qed.

(** When [stream_to_database] returns, the batches it inserted, put end
    to end, are the objects of the lines that [json.loads] accepted, each
    once and in the order of the file. *)
Theorem every_decoded_record_is_inserted_once
    (record_type : string) (batch_size : Z) (has_processor db_given : bool)
    (s : statistics) (tr : list (call obj)) :
  stream_to_database obj env record_type batch_size has_processor db_given []
  = (inr s, tr) ->
  List.concat (inserted tr) = parsed (fst (source obj env)).
Proof.
  intros E.
  destruct (stream_to_database_spec record_type batch_size has_processor
              db_given) as (batches & Hi & Hret & _).
  rewrite E in Hi, Hret. cbn [fst snd] in Hi, Hret.
  rewrite Hi. now apply (Hret s).
Qed.

(** The statistics [stream_to_database] returns count the lines of the
    file: [records_processed] the lines decoded, [bad_lines] those that
    raised [KeyError] or [JSONDecodeError], [total_lines] all of them,
    which is the sum of the two; [records_filtered] is always 0. *)
Theorem returned_statistics_count_the_lines
    (record_type : string) (batch_size : Z) (has_processor db_given : bool)
    (s : statistics) (tr : list (call obj)) :
  stream_to_database obj env record_type batch_size has_processor db_given []
  = (inr s, tr) ->
  stat_records_processed s
  = Z.of_nat (List.length (parsed (fst (source obj env))))
  /\ stat_bad_lines s = bad (fst (source obj env))
  /\ stat_total_lines s = Z.of_nat (List.length (fst (source obj env)))
  /\ stat_records_filtered s = 0
  /\ stat_total_lines s = stat_records_processed s + stat_bad_lines s.
Proof.
  intros E.
  destruct (stream_to_database_spec record_type batch_size has_processor
              db_given) as (batches & _ & Hret & _).
  rewrite E in Hret. now apply (Hret s).
Qed.

(** With a batch size of at least 1, every batch handed to the database
    holds at least one record and at most [batch_size], whether the call
    returns or raises. *)
Theorem inserted_batches_are_neither_empty_nor_oversized
    (record_type : string) (batch_size : Z) (has_processor db_given : bool) :
  1 <= batch_size ->
  Forall (batch_fits batch_size)
    (inserted (snd (stream_to_database obj env record_type batch_size
                                       has_processor db_given []))).
Proof.
  intros Hbs.
  destruct (stream_to_database_spec record_type batch_size has_processor
              db_given) as (batches & Hi & _ & Hfit).
  rewrite Hi. now apply Hfit.
Qed.

(** A database passed in is neither opened nor closed: the call makes
    no connection and never calls [cleanup], whether it returns or
    raises. *)
Theorem a_database_passed_in_is_left_open
    (record_type : string) (batch_size : Z) (has_processor : bool) :
  Forall inner
    (snd (stream_to_database obj env record_type batch_size has_processor
                             true [])).
Proof.
  destruct (stream_to_database_cases record_type batch_size has_processor
              true)
    as [(_ & E) | [(_ & _ & msg & E) | [(_ & _ & D & _)
       | [(_ & Hv & _ & E) | (_ & _ & D & _)]]]];
    try discriminate D; rewrite E; cbn [snd].
  1-2: repeat constructor.
  destruct (stream_body_spec record_type batch_size has_processor
              (clock obj env 0%nat) [Now obj] Hv)
    as (batches & (added & -> & Ha & _) & _).
  constructor; [exact I|exact Ha].
Qed.

(** A database the call opened itself is closed by it: once the
    connection is made, [cleanup] is the last call and the only one,
    whether the body returned or raised. *)
Theorem a_database_opened_here_is_closed_last
    (record_type : string) (batch_size : Z) (has_processor : bool) :
  path_exists obj env = true ->
  valid_type record_type ->
  connect obj env = None ->
  exists body,
    snd (stream_to_database obj env record_type batch_size has_processor
                            false [])
    = (Now obj :: Connect obj :: body ++ [Cleanup obj])%list
    /\ Forall inner body.
Proof.
  intros Hp Hv Hc.
  destruct (stream_to_database_cases record_type batch_size has_processor
              false)
    as [(D & _) | [(_ & D & _) | [(_ & _ & _ & e & D & _)
       | [(_ & _ & D & _) | (_ & _ & _ & _ & E)]]]];
    try congruence; try contradiction.
  cbv zeta in E. rewrite E. cbn [snd].
  destruct (stream_body_spec record_type batch_size has_processor
              (clock obj env 0%nat) [Now obj; Connect obj] Hv)
    as (batches & (added & -> & Ha & _) & _).
  exists added. split; [reflexivity|exact Ha].
Qed.

(** What [stream_to_database] raises, stage by stage.  A missing file
    raises [FileNotFoundError] and a record type other than posts and
    comments raises [ValueError], both before any call to the database.
    A connection that fails raises its own exception.  After that the
    body of the [try] statement runs: what it returns is returned, and a
    failure [cause] of the body is raised as [PostgresDatabaseError]
    carrying [cause]; with a database opened here, [cleanup] is called
    after the body either way, and its failure replaces the outcome. *)
Theorem failures_of_the_body_are_wrapped
    (record_type : string) (batch_size : Z) (has_processor db_given : bool) :
  (path_exists obj env = false ->
   stream_to_database obj env record_type batch_size has_processor db_given []
   = (inl FileNotFoundError, [Now obj]))
  /\ (path_exists obj env = true -> ~ valid_type record_type ->
      stream_to_database obj env record_type batch_size has_processor
                         db_given []
      = (inl (Builtin (ValueError ("Invalid record_type: " ++ record_type
                                   ++ ". Must be 'posts' or 'comments'"))),
         [Now obj]))
  /\ (forall e,
        path_exists obj env = true -> valid_type record_type ->
        connect obj env = Some e ->
        stream_to_database obj env record_type batch_size has_processor
                           false []
        = (inl e, [Now obj; Connect obj]))
  /\ (path_exists obj env = true -> valid_type record_type ->
      stream_to_database obj env record_type batch_size has_processor true []
      = (wrap (fst (stream_body obj env record_type batch_size has_processor
                                (clock obj env 0%nat) [Now obj])),
         snd (stream_body obj env record_type batch_size has_processor
                          (clock obj env 0%nat) [Now obj])))
  /\ (path_exists obj env = true -> valid_type record_type ->
      connect obj env = None ->
      stream_to_database obj env record_type batch_size has_processor
                         false []
      = (match cleanup obj env
                 (List.length
                    (snd (stream_body obj env record_type batch_size
                                      has_processor (clock obj env 0%nat)
                                      [Now obj; Connect obj]))) with
         | Some e => inl e
         | None =>
             wrap (fst (stream_body obj env record_type batch_size
                                    has_processor (clock obj env 0%nat)
                                    [Now obj; Connect obj]))
         end,
         (snd (stream_body obj env record_type batch_size has_processor
                           (clock obj env 0%nat) [Now obj; Connect obj])
          ++ [Cleanup obj])%list)).
Proof.
  split; [|split; [|split; [|split]]].
  - intros Hp.
    destruct (stream_to_database_cases record_type batch_size has_processor
                db_given)
      as [(_ & E) | [(D & _) | [(D & _) | [(D & _) | (D & _)]]]];
      congruence.
  - intros Hp Hv. unfold stream_to_database. rewrite io_bind_unfold.
    change (now obj env [])
      with (@inr failure _ (clock obj env 0%nat), [Now obj]).
    cbv iota beta. rewrite Hp. cbn [negb].
    destruct (String.eqb record_type "posts"
              || String.eqb record_type "comments") eqn:Hb; [|reflexivity].
    apply valid_type_eqb in Hb. contradiction.
  - intros e Hp Hv Hc.
    destruct (stream_to_database_cases record_type batch_size has_processor
                false)
      as [(D & _) | [(_ & D & _) | [(_ & _ & _ & e' & Hc' & E)
         | [(_ & _ & D & _) | (_ & _ & _ & D & _)]]]];
      try congruence; try contradiction.
  - intros Hp Hv.
    destruct (stream_to_database_cases record_type batch_size has_processor
                true)
      as [(D & _) | [(_ & D & _) | [(_ & _ & D & _)
         | [(_ & _ & _ & E) | (_ & _ & D & _)]]]];
      try congruence; try contradiction.
  - intros Hp Hv Hc.
    destruct (stream_to_database_cases record_type batch_size has_processor
                false)
      as [(D & _) | [(_ & D & _) | [(_ & _ & _ & e' & D & _)
         | [(_ & _ & D & _) | (_ & _ & _ & _ & E)]]]];
      try congruence; try contradiction.
Qed.

End Facts.



(** ** A sample run *)

(** A line of one character decodes to its code point; any other line
    is not JSON. *)
Definition sample_loads (line : text) : failure + nat :=
  match line with
  | [c] => inr (N.to_nat c)
  | _ => inl JSONDecodeError
  end.

(** A file of four lines, the second of them bad; the clock advances by
    one second per reading; [insert_posts] answers as given. *)
Definition sample (insert_posts : list nat -> failure + (Z * Z))
  : surroundings nat :=
  mkSurroundings nat true 100
    ([([49%N], 10); ([], 20); ([50%N], 30); ([51%N], 40)], None)
    sample_loads
    (fun n => PrimFloat.of_uint63 (Uint63.of_Z (Z.of_nat n)))
    None
    (fun _ batch => insert_posts batch)
    (fun _ batch => inr (Z.of_nat (List.length batch), 0))
    (fun _ => None)
    (fun _ => inr 12.5%float)
    (fun _ => None).

Definition accepting (batch : list nat) : failure + (Z * Z) :=
  inr (Z.of_nat (List.length batch), 0).

Definition refusing (batch : list nat) : failure + (Z * Z) :=
  inl (External 1).

(** The run on the sample with a database opened by the call. *)
Definition sample_calls : list (call nat) :=
  [Now nat; Connect nat; Now nat; Now nat; Now nat; Now nat; Now nat;
   InsertPosts nat [49; 50]%nat; Now nat; Now nat; Now nat; Now nat; Now nat;
   InsertPosts nat [51]%nat; Now nat; DatabaseInfo nat; Cleanup nat].

Definition sample_statistics : statistics :=
  mkStatistics 3 0 1 4 12.5%float 14%float (Some (3 / 14)%float).

Lemma every_decoded_record_is_inserted_once_witness :
  List.concat (inserted nat sample_calls)
  = parsed nat (sample accepting) (fst (source nat (sample accepting))).
Proof.
  apply (every_decoded_record_is_inserted_once nat (sample accepting) "posts"
           2 false false sample_statistics sample_calls).
  vm_compute. reflexivity.
Defined.

Lemma returned_statistics_count_the_lines_witness :
  stat_records_processed sample_statistics
  = Z.of_nat (List.length (parsed nat (sample accepting)
                                  (fst (source nat (sample accepting)))))
  /\ stat_bad_lines sample_statistics
     = bad nat (sample accepting) (fst (source nat (sample accepting)))
  /\ stat_total_lines sample_statistics
     = Z.of_nat (List.length (fst (source nat (sample accepting))))
  /\ stat_records_filtered sample_statistics = 0
  /\ stat_total_lines sample_statistics
     = stat_records_processed sample_statistics
       + stat_bad_lines sample_statistics.
Proof.
  apply (returned_statistics_count_the_lines nat (sample accepting) "posts" 2
           false false sample_statistics sample_calls).
  vm_compute. reflexivity.
Defined.

Lemma inserted_batches_are_neither_empty_nor_oversized_witness :
  Forall (batch_fits nat 2)
    (inserted nat
       (snd (stream_to_database nat (sample accepting) "posts" 2 false false
                                []))).
Proof.
  apply (inserted_batches_are_neither_empty_nor_oversized nat
           (sample accepting) "posts" 2 false false).
  lia.
Defined.

Lemma a_database_opened_here_is_closed_last_witness :
  exists body,
    snd (stream_to_database nat (sample refusing) "posts" 2 false false [])
    = (Now nat :: Connect nat :: body ++ [Cleanup nat])%list
    /\ Forall (inner nat) body.
Proof.
  apply (a_database_opened_here_is_closed_last nat (sample refusing) "posts"
           2 false).
  - reflexivity.
  - left. reflexivity.
  - reflexivity.
Defined.

(** The first insertion is refused: the refusal is raised wrapped, and
    the database that was passed in is not closed. *)
Lemma failures_of_the_body_are_wrapped_witness :
  stream_to_database nat (sample refusing) "posts" 2 false true []
  = (inl (PostgresDatabaseError (External 1)),
     [Now nat; Now nat; Now nat; InsertPosts nat [49; 50]%nat]).
Proof.
  rewrite (proj1 (proj2 (proj2 (proj2
             (failures_of_the_body_are_wrapped nat (sample refusing) "posts"
                2 false true))))).
  - vm_compute. reflexivity.
  - reflexivity.
  - left. reflexivity.
Defined.

End StreamingFacts.
